(** * Dynamic schema management of dataset-backed documents

    A shallow embedding of [fiftyone/core/odm/mixins.py]: the class-level
    field registry ([_fields], [_fields_ordered]), the schema mutation
    protocol of [DatasetMixin] (merge, rename, clone, delete) and the
    update extractor used by [_update].

    Python objects that the source mutates in place (the class registry,
    the dataset document, the database collection) live in one explicit
    [World]; a raising call returns [inl e] together with the world as the
    exception leaves it. *)

From Stdlib Require Import Ascii String.
From stdpp Require Import gmap strings list fin_maps.

Local Open Scope string_scope.
Local Open Scope list_scope.

(** ** Python string operations used by the source *)

Module PyStr.

(** [s.startswith(p)]. *)
Definition startswith (s p : string) : bool := String.prefix p s.

(** [s[n:]]. *)
Fixpoint drop (n : nat) (s : string) : string :=
  match n, s with
  | O, _ => s
  | S n', String _ s' => drop n' s'
  | S _, EmptyString => EmptyString
  end.

(** [s.lstrip(c)] for a one-character argument. *)
Fixpoint lstrip (c : ascii) (s : string) : string :=
  match s with
  | String a s' => if Ascii.eqb a c then lstrip c s' else s
  | EmptyString => EmptyString
  end.

(** [s.count(c)] for a one-character argument. *)
Fixpoint count (c : ascii) (s : string) : nat :=
  match s with
  | String a s' => (if Ascii.eqb a c then 1 else 0) + count c s'
  | EmptyString => 0
  end.

(** [s.split(c)]: the result is never empty, [""] splits to [[""]]. The
    accumulator [cur] holds the current chunk. *)
Fixpoint split_aux (c : ascii) (cur : string) (s : string) : list string :=
  match s with
  | EmptyString => [cur]
  | String a s' =>
      if Ascii.eqb a c then cur :: split_aux c "" s'
      else split_aux c (cur +:+ String a "") s'
  end.

Definition split (c : ascii) (s : string) : list string := split_aux c "" s.

(** [sep.join(l)]. *)
Fixpoint join (sep : string) (l : list string) : string :=
  match l with
  | [] => ""
  | [x] => x
  | x :: rest => x +:+ sep +:+ join sep rest
  end.

(** [s.lower()] on ASCII letters. *)
Definition lower_ascii (a : ascii) : ascii :=
  let n := nat_of_ascii a in
  if (65 <=? n)%nat && (n <=? 90)%nat then ascii_of_nat (n + 32) else a.

Fixpoint lower (s : string) : string :=
  match s with
  | String a s' => String (lower_ascii a) (lower s')
  | EmptyString => EmptyString
  end.

(** [chunks[:-1]] and [chunks[-1]] of a non-empty list. *)
Fixpoint init_last (x : string) (l : list string) : list string * string :=
  match l with
  | [] => ([], x)
  | y :: l' => let '(i, z) := init_last y l' in (x :: i, z)
  end.

(** [s.rsplit(c, 1)]: [(base, Some leaf)] when [c] occurs in [s],
    [(s, None)] otherwise. *)
Definition rsplit1 (c : ascii) (s : string) : string * option string :=
  match split c s with
  | [] => (s, None)
  | [x] => (s, None)
  | x :: rest =>
      let '(i, z) := init_last x rest in (join (String c "") i, Some z)
  end.

End PyStr.

Definition dot : ascii := "."%char.
Definition underscore : ascii := "_"%char.

(** ** Python dictionaries whose iteration order the source relies on *)

Module PyDict.
Section Dict.
Context {V : Type}.

Definition keys (d : list (string * V)) : list string := d.*1.

Fixpoint get (k : string) (d : list (string * V)) : option V :=
  match d with
  | [] => None
  | (k', v) :: d' => if decide (k' = k) then Some v else get k d'
  end.

(** [d[k] = v]: replaces in place, appends a new key at the end. *)
Fixpoint set (k : string) (v : V) (d : list (string * V)) : list (string * V) :=
  match d with
  | [] => [(k, v)]
  | (k', v') :: d' =>
      if decide (k' = k) then (k, v) :: d' else (k', v') :: set k v d'
  end.

(** [del d[k]] for a key known to be present. *)
Fixpoint del (k : string) (d : list (string * V)) : list (string * V) :=
  match d with
  | [] => []
  | (k', v') :: d' =>
      if decide (k' = k) then d' else (k', v') :: del k d'
  end.

(** [d.update(d2)]. *)
Definition update (d d2 : list (string * V)) : list (string * V) :=
  foldl (fun acc kv => set kv.1 kv.2 acc) d d2.

(** [{k: v for k, v in pairs}]. *)
Definition of_pairs (pairs : list (string * V)) : list (string * V) :=
  update [] pairs.
End Dict.
End PyDict.

(** ** Exceptions *)

(** One constructor per [raise] site of the module (with the values the
    message is formatted from), plus the built-in errors of the
    operations the source relies on. *)
Inductive Msg :=
  | CannotRenameDefault (doc_name_lower field_name : string)
  | CannotDeleteDefault (doc_name_lower field_name : string)
  | FieldDoesNotExist (doc_name field_name : string)
  | FieldAlreadyExists (doc_name new_field_name : string)
  | CannotCloneGroupField (field_name : string)
  | FieldsDoNotExist (doc_name : string) (paths : list string)
  | CannotInferType (doc_name root path : string)
  | NotAnEmbeddedField (doc_name path root : string)
  | CannotAddEmbedded (doc_name path root : string)
  | FrameLevelGroupField (field_name : string)
  | SecondGroupField (field_name : string)
  | ModifyingFilteredRoot (k : string)
  | InvalidFieldName (field_name reason : string)
  | FieldsDoNotMatch (path reason : string)
  | EmbeddedMergeFailed (path reason : string)
  | NotEnoughValuesToUnpack
  | InvalidLiteralForInt (s : string)
  | NoneTypeHasNoAttribute (attr : string).

Inductive PyError :=
  | ValueError (m : Msg)
  | AttributeError (m : Msg)
  | KeyError (key : string)
  | IndexError
  | TypeError.

Definition Result (A : Type) : Type := PyError + A.

Definition rbind {A B} (r : Result A) (k : A -> Result B) : Result B :=
  match r with
  | inl e => inl e
  | inr a => k a
  end.

Declare Scope result_scope.
Delimit Scope result_scope with result.
Notation "'do' x <- r ; k" := (rbind r (fun x => k))
  (at level 10, x pattern, r at level 100, k at level 200) : result_scope.
Local Open Scope result_scope.

(** ** Field descriptors *)

#[local] Set Warnings "-register-all".

(** The subclasses of [fof.Field] that the module inspects with
    [isinstance]; every other field class is a [ScalarField] with its
    class name. A [ListField] carries its contained field [field] (which
    may be [None]) and an [EmbeddedDocumentField] the fields of its
    embedded schema ([_fields]). *)
Inductive FieldType (F : Type) :=
  | ScalarField (cls_name : string)
  | ObjectIdField
  | ListField (field : option F)
  | EmbeddedDocumentField (document_type : string) (fields : list F).
Arguments ScalarField {F} cls_name.
Arguments ObjectIdField {F}.
Arguments ListField {F} field.
Arguments EmbeddedDocumentField {F} document_type fields.

Inductive Field := MkField {
  name : string;
  db_field : option string;
  required : bool;
  null : bool;
  ftype : FieldType Field
}.

Definition is_ObjectIdField (f : Field) : bool :=
  match ftype f with ObjectIdField => true | _ => false end.

Definition is_EmbeddedDocumentField (f : Field) : bool :=
  match ftype f with EmbeddedDocumentField _ _ => true | _ => false end.

Definition set_name (n : string) (f : Field) : Field :=
  MkField n (db_field f) (required f) (null f) (ftype f).
Definition set_db_field (d : option string) (f : Field) : Field :=
  MkField (name f) d (required f) (null f) (ftype f).
Definition set_required (r : bool) (f : Field) : Field :=
  MkField (name f) (db_field f) r (null f) (ftype f).
Definition set_null (n : bool) (f : Field) : Field :=
  MkField (name f) (db_field f) (required f) n (ftype f).
Definition set_ftype (t : FieldType Field) (f : Field) : Field :=
  MkField (name f) (db_field f) (required f) (null f) t.

(** [_get_db_field(field, new_field_name)] *)
Definition _get_db_field (field : Field) (new_field_name : string) : option string :=
  match db_field field with
  | None => None
  | Some d =>
      if decide (d = "_" +:+ name field) then Some ("_" +:+ new_field_name)
      else Some new_field_name
  end.

(** ** The dataset document, the database and the class registry *)

(** [SampleFieldDocument]: the persisted form of a descriptor. The
    conversions [SampleFieldDocument.from_field] and [to_field] live in
    [fiftyone/core/odm/dataset.py]. *)

(** Modelled from the spec: [SampleFieldDocument.from_field] and
    [to_field] are not part of this module; the Schema Document is a
    "persisted list of field descriptors", so a field document is the
    descriptor itself and both conversions are the identity. *)
Definition SampleFieldDocument : Type := Field.
Definition from_field (f : Field) : SampleFieldDocument := f.
Definition to_field (d : SampleFieldDocument) : Field := d.

(** Calls received by [dataset_doc.app_config], oldest first. The
    application config is an external collaborator: its state is the
    history of the calls made on it. *)
Inductive AppConfigCall :=
  | RenamePaths (field_names new_field_names : list string)
  | DeletePaths (field_names : list string).

Record DatasetDocument := MkDatasetDocument {
  media_type : option string;
  group_field : option string;
  sample_fields : list SampleFieldDocument;
  frame_fields : list SampleFieldDocument;
  app_config : list AppConfigCall
}.

(** A field expression [F(...)] of a view stage. *)
Inductive ViewExpr := ViewField (path : string) | ViewNone.

(** Operations issued to the storage engine, oldest first. The update
    specifications are kept as the source builds them. *)
Inductive StorageOp :=
  | UpdateManyRename (collection_name : string) (rename_expr : list (string * string))
  | UpdateManySetPipeline (collection_name : string) (set_expr : list (string * string))
  | UpdateManySetNone (collection_name : string) (keys : list string)
  | UpdateManyUnsetPipeline (collection_name : string) (keys : list string)
  | ViewSave (set_fields : list (string * ViewExpr)) (unset : list string)
             (root_fields_of : list string).

(** The mutable state a schema mutation acts on. [saved] is what
    [dataset_doc.save()] last wrote; [dataset_doc] is the in-memory
    document the caller passed; [warnings] collects what
    [fou.handle_error] reports at error level 1. *)
Record World := MkWorld {
  _fields : gmap string Field;
  _fields_ordered : list string;
  dataset_doc : DatasetDocument;
  saved : DatasetDocument;
  storage : list StorageOp;
  warnings : list PyError
}.

Definition set_fields (m : gmap string Field) (w : World) : World :=
  MkWorld m (_fields_ordered w) (dataset_doc w) (saved w) (storage w) (warnings w).
Definition set_fields_ordered (l : list string) (w : World) : World :=
  MkWorld (_fields w) l (dataset_doc w) (saved w) (storage w) (warnings w).
Definition set_dataset_doc (d : DatasetDocument) (w : World) : World :=
  MkWorld (_fields w) (_fields_ordered w) d (saved w) (storage w) (warnings w).
Definition set_saved (d : DatasetDocument) (w : World) : World :=
  MkWorld (_fields w) (_fields_ordered w) (dataset_doc w) d (storage w) (warnings w).
Definition set_storage (s : list StorageOp) (w : World) : World :=
  MkWorld (_fields w) (_fields_ordered w) (dataset_doc w) (saved w) s (warnings w).
Definition set_warnings (l : list PyError) (w : World) : World :=
  MkWorld (_fields w) (_fields_ordered w) (dataset_doc w) (saved w) (storage w) l.

Definition set_group_field (g : option string) (d : DatasetDocument) : DatasetDocument :=
  MkDatasetDocument (media_type d) g (sample_fields d) (frame_fields d) (app_config d).
Definition set_app_config (a : list AppConfigCall) (d : DatasetDocument) : DatasetDocument :=
  MkDatasetDocument (media_type d) (group_field d) (sample_fields d) (frame_fields d) a.

(** *** The state-and-exception monad of the class methods *)

Definition M (A : Type) : Type := World -> Result A * World.

Definition ret {A} (a : A) : M A := fun w => (inr a, w).
Definition raise {A} (e : PyError) : M A := fun w => (inl e, w).
Definition bind {A B} (m : M A) (k : A -> M B) : M B :=
  fun w => match m w with
           | (inl e, w') => (inl e, w')
           | (inr a, w') => k a w'
           end.
Definition get_world : M World := fun w => (inr w, w).
Definition modify (f : World -> World) : M unit := fun w => (inr tt, f w).
Definition lift {A} (r : Result A) : M A := fun w => (r, w).

Declare Scope m_scope.
Delimit Scope m_scope with M.
Notation "'let!' x := m 'in' k" := (bind m (fun x => k))
  (at level 10, x pattern, m at level 100, k at level 200) : m_scope.
Notation "'exec' m ; k" := (bind m (fun _ => k))
  (at level 10, m at level 100, k at level 200) : m_scope.
Local Open Scope m_scope.

(** [for x in l: body(x)] *)
Fixpoint for_each {A} (l : list A) (body : A -> M unit) : M unit :=
  match l with
  | [] => ret tt
  | x :: l' => exec body x; for_each l' body
  end.

(** [dataset_doc.save()] *)
Definition save : M unit := modify (fun w => set_saved (dataset_doc w) w).

(** ** The document class *)

(** The constants of a [DatasetMixin] subclass: [_is_frames_doc],
    [__name__] and the registry of its first base class, whose fields are
    the default fields. *)
Record DocClass := MkDocClass {
  _is_frames_doc : bool;
  __name__ : string;
  base_fields : gmap string Field;
  base_fields_ordered : list string
}.

(** Collaborators of the module that are defined elsewhere in the
    package; each returns [None] where the Python function returns
    normally and [Some reason] where it raises [ValueError]. *)
Class FieldTypeSystem := {
  (** [fom.GROUP] *)
  GROUP : string;
  (** [validate_field_name(field_name, media_type=..., is_frame_field=...)] *)
  validate_field_name : string -> option string -> bool -> option string;
  (** [validate_fields_match(path, field, existing_field)] *)
  validate_fields_match : string -> Field -> Field -> option string;
  (** [fog.is_group_field(field)] *)
  is_group_field : Field -> bool;
  (** [existing_field._merge_fields(path, field, validate=.., recursive=..)]:
      the new fields it reports ([None] and the empty dict are both [[]]),
      or the reason it raises. *)
  _merge_fields : Field -> string -> Field -> bool -> bool -> string + list (string * Field)
}.

(** [fou.handle_error]'s levels, as the docstring of [_delete_fields]
    lists the valid values: 0 raises, 1 logs a warning, 2 ignores. *)
Inductive ErrorLevel := RaiseError | LogWarning | IgnoreError.

(** Modelled from the spec: [fou.handle_error] is defined in
    [fiftyone/core/utils.py]; the error-level policy "decides whether a
    delete-field failure aborts the whole operation, is logged, or is
    silently skipped". *)
Definition handle_error (error : PyError) (error_level : ErrorLevel) : M unit :=
  match error_level with
  | RaiseError => raise error
  | LogWarning => modify (fun w => set_warnings (warnings w ++ [error]) w)
  | IgnoreError => ret tt
  end.

(** ** Embedded schemas *)

(** [doc._fields[chunk]] on the fields of an embedded document. *)
Fixpoint lookup_field (chunk : string) (fields : list Field) : option Field :=
  match fields with
  | [] => None
  | f :: fields' => if decide (name f = chunk) then Some f else lookup_field chunk fields'
  end.

(** The two steps every path walk takes on [doc = schema[chunk]]:
    [if isinstance(doc, ListField): doc = doc.field], then the test
    [isinstance(doc, EmbeddedDocumentField)]; [Some fields] is the
    [_fields] of the embedded document reached. *)
Definition embedded_fields (doc : Field) : option (list Field) :=
  match ftype doc with
  | EmbeddedDocumentField _ fields => Some fields
  | ListField (Some inner) =>
      match ftype inner with
      | EmbeddedDocumentField _ fields => Some fields
      | _ => None
      end
  | _ => None
  end.

(** The same document with the fields of the embedded document it holds
    replaced: what an in-place mutation of that embedded document leaves
    behind. *)
Definition with_embedded_fields (fields' : list Field) (doc : Field) : Field :=
  match ftype doc with
  | EmbeddedDocumentField t _ => set_ftype (EmbeddedDocumentField t fields') doc
  | ListField (Some inner) =>
      match ftype inner with
      | EmbeddedDocumentField t _ =>
          set_ftype (ListField (Some (set_ftype (EmbeddedDocumentField t fields') inner))) doc
      | _ => doc
      end
  | _ => doc
  end.

(** [field_doc.fields] of a [SampleFieldDocument]: the field documents of
    the embedded document it describes, [None] for any other field. *)
Definition doc_fields (field_doc : SampleFieldDocument) : option (list SampleFieldDocument) :=
  embedded_fields field_doc.

(** Replaces the first element named [chunk]. *)
Fixpoint replace_field (chunk : string) (f' : Field) (fields : list Field) : list Field :=
  match fields with
  | [] => []
  | f :: fields' =>
      if decide (name f = chunk) then f' :: fields' else f :: replace_field chunk f' fields'
  end.

(** Modelled from the spec: [EmbeddedDocumentField._declare_field] is
    defined in [fiftyone/core/fields.py]; like the registry's
    [declareField] it "inserts or replaces the descriptor under its name;
    if replacing, copies over the previous descriptor's nullability and
    requiredness". Returns the fields and the descriptor as stored. *)
Definition declare_embedded (field : Field) (fields : list Field) : list Field * Field :=
  match lookup_field (name field) fields with
  | None => (fields ++ [field], field)
  | Some prev =>
      let field' := set_null (null prev) (set_required (required prev) field) in
      (filter (fun f => name f ≠ name field) fields ++ [field'], field')
  end.

(** The loop of [_add_field_schema] below the first chunk, followed by
    its last three statements, on the field documents [field_docs]
    ([None] once a [field_doc.fields] was [None]) and the [_fields] of the
    embedded document [doc]. Returns both as the call leaves them. *)
Fixpoint add_embedded_field_schema (doc_name path root : string) (chunks : list string)
    (name' : string) (field : Field)
    (field_docs : option (list SampleFieldDocument)) (fields : list Field)
    : Result unit * option (list SampleFieldDocument) * list Field :=
  match chunks with
  | [] =>
      let field1 := set_name name' (set_db_field (_get_db_field field name') field) in
      let '(fields', field2) := declare_embedded field1 fields in
      match field_docs with
      | None =>
          (inl (AttributeError (NoneTypeHasNoAttribute "append")), field_docs, fields')
      | Some docs => (inr tt, Some (docs ++ [from_field field2]), fields')
      end
  | chunk :: rest =>
      let root' := root +:+ "." +:+ chunk in
      match field_docs with
      | None => (inl TypeError, field_docs, fields)
      | Some docs =>
          match lookup_field chunk docs with
          | None =>
              (inl (ValueError (CannotAddEmbedded doc_name path root')), field_docs, fields)
          | Some field_doc =>
              match lookup_field chunk fields with
              | None => (inl (KeyError chunk), field_docs, fields)
              | Some doc =>
                  match embedded_fields doc with
                  | None =>
                      (inl (ValueError (NotAnEmbeddedField doc_name path root')),
                       field_docs, fields)
                  | Some sub =>
                      let '(r, sub_docs', sub') :=
                        add_embedded_field_schema doc_name path root' rest name' field
                          (doc_fields field_doc) sub in
                      let docs' :=
                        match sub_docs' with
                        | Some ds => replace_field chunk (with_embedded_fields ds field_doc) docs
                        | None => docs
                        end in
                      (r, Some docs',
                       replace_field chunk (with_embedded_fields sub' doc) fields)
                  end
              end
          end
      end
  end.

(** The loop of [_merge_field] over [chunks[:-1]]: [schema] is
    [doc._fields] of the current [doc], the result the [_fields] of the
    document that holds the leaf. *)
Fixpoint walk_chunks (doc_name path : string) (root : option string) (chunks : list string)
    (schema : string -> option Field) : Result (string -> option Field) :=
  match chunks with
  | [] => inr schema
  | chunk :: rest =>
      let root' := match root with None => chunk | Some r => r +:+ "." +:+ chunk end in
      match schema chunk with
      | None => inl (ValueError (CannotInferType doc_name root' path))
      | Some doc =>
          match embedded_fields doc with
          | None => inl (ValueError (NotAnEmbeddedField doc_name path root'))
          | Some fields =>
              walk_chunks doc_name path (Some root') rest
                (fun n => lookup_field n fields)
          end
      end
  end.

(** [path.split(".")] as [(chunks[:-1], chunks[-1])]. *)
Definition split_path (path : string) : list string * string :=
  match PyStr.split dot path with
  | [] => ([], path)
  | x :: l => PyStr.init_last x l
  end.

(** ** The class methods of [DatasetMixin] *)

Section DatasetMixin.
Context {types : FieldTypeSystem}.
Variable cls : DocClass.

Definition _doc_name : string := if _is_frames_doc cls then "Frame" else "Sample".

(** [getattr(dataset_doc, cls._fields_attr())] and its assignment. *)
Definition fields_attr (d : DatasetDocument) : list SampleFieldDocument :=
  if _is_frames_doc cls then frame_fields d else sample_fields d.

Definition set_fields_attr (l : list SampleFieldDocument) (d : DatasetDocument)
    : DatasetDocument :=
  if _is_frames_doc cls
  then MkDatasetDocument (media_type d) (group_field d) (sample_fields d) l (app_config d)
  else MkDatasetDocument (media_type d) (group_field d) l (frame_fields d) (app_config d).

(** [_to_db_fields]: [cls._fields[f].db_field or f] for every name. *)
Fixpoint _to_db_fields (fields : gmap string Field) (field_names : list string)
    : Result (list string) :=
  match field_names with
  | [] => inr []
  | f :: rest =>
      match fields !! f with
      | None => inl (KeyError f)
      | Some fd =>
          let n := match db_field fd with
                   | Some d => if decide (d = "") then f else d
                   | None => f
                   end in
          do rest' <- _to_db_fields fields rest; inr (n :: rest')
      end
  end.

(** [_get_fields_ordered] on the registry [(fields, fields_ordered)]. *)
Definition _get_fields_ordered (fields : gmap string Field) (fields_ordered : list string)
    (include_private use_db_fields : bool) : Result (list string) :=
  let field_names :=
    if include_private then fields_ordered
    else filter (fun f => PyStr.startswith f "_" = false) fields_ordered in
  if use_db_fields then _to_db_fields fields field_names else inr field_names.

(** [get_default_fields(cls.__bases__[0], include_private, use_db_fields)] *)
Definition get_default_fields (include_private use_db_fields : bool) : Result (list string) :=
  _get_fields_ordered (base_fields cls) (base_fields_ordered cls)
    include_private use_db_fields.

(** [_get_default_fields(dataset_doc=None)] *)
Definition _get_default_fields (dataset_doc : option DatasetDocument) : Result (gset string) :=
  do names <- get_default_fields true false;
  let default_fields : gset string := list_to_set names in
  inr match dataset_doc with
      | Some d =>
          if bool_decide (media_type d = Some GROUP) && negb (_is_frames_doc cls)
          then match group_field d with
               | Some g => default_fields ∪ {[ g ]}
               | None => default_fields
               end
          else default_fields
      | None => default_fields
      end.

(** *** The registry: [_declare_field], [_rename_field_schema],
    [_delete_field_schema] *)

(** [_declare_field]; returns the descriptor as the call leaves it (the
    argument object is updated in place when it replaces a field). The
    class attribute set by [setattr] is left out here;
    [cls_declare_field] has it. *)
Definition _declare_field (field : Field) : M Field := fun w =>
  let prev := _fields w !! name field in
  let popped := delete (name field) (_fields w) in
  match prev with
  | None =>
      (inr field,
       set_fields_ordered (_fields_ordered w ++ [name field])
         (set_fields (<[name field := field]> popped) w))
  | Some p =>
      let field' := set_null (null p) (set_required (required p) field) in
      (inr field', set_fields (<[name field := field']> popped) w)
  end.

(** [_rename_field_schema] on the registry and the field documents, for
    a subclass of [Document] and a field whose attribute is set on the
    class itself, as it is for every field that [_declare_field]
    registered: [delattr] and [setattr] then move that attribute and
    raise nothing.
    [cls_rename_field_schema] has the attributes, and the
    [AttributeError] of [delattr] for a field inherited from the base
    class. *)
Definition _rename_field_schema (field_name new_field_name : string) : M unit := fun w =>
  match _fields w !! field_name with
  | None => (inl (KeyError field_name), w)
  | Some field =>
      let new_db_field := _get_db_field field new_field_name in
      let field' := set_db_field new_db_field (set_name new_field_name field) in
      let fields' := <[new_field_name := field']> (delete field_name (_fields w)) in
      let ordered' :=
        (fun fn => if decide (fn ≠ field_name) then fn else new_field_name)
          <$> _fields_ordered w in
      let docs' :=
        (fun f => if decide (name f = field_name)
                  then set_db_field new_db_field (set_name new_field_name f)
                  else f) <$> fields_attr (dataset_doc w) in
      (inr tt,
       set_dataset_doc (set_fields_attr docs' (dataset_doc w))
         (set_fields_ordered ordered' (set_fields fields' w)))
  end.

(** [for idx, f in enumerate(fields): if f.name == field_name: del
    fields[idx]; break] *)
Fixpoint delete_first (field_name : string) (fields : list SampleFieldDocument)
    : list SampleFieldDocument :=
  match fields with
  | [] => []
  | f :: rest =>
      if decide (name f = field_name) then rest else f :: delete_first field_name rest
  end.

(** [_delete_field_schema] on the registry and the field documents, for
    a field whose attribute is set on the class itself;
    [cls_delete_field_schema] has the attributes, and the
    [AttributeError] of [delattr] for a field inherited from the base
    class. *)
Definition _delete_field_schema (field_name : string) : M unit := fun w =>
  match _fields w !! field_name with
  | None => (inl (KeyError field_name), w)
  | Some _ =>
      let fields' := delete field_name (_fields w) in
      let ordered' := filter (fun fn => fn ≠ field_name) (_fields_ordered w) in
      let docs' := delete_first field_name (fields_attr (dataset_doc w)) in
      (inr tt,
       set_dataset_doc (set_fields_attr docs' (dataset_doc w))
         (set_fields_ordered ordered' (set_fields fields' w)))
  end.

(** [_add_field_schema] *)
Definition _add_field_schema (path : string) (field : Field) : M unit := fun w =>
  let '(chunks, name') := split_path path in
  let field_docs := fields_attr (dataset_doc w) in
  match chunks with
  | [] =>
      let field1 := set_name name' (set_db_field (_get_db_field field name') field) in
      let '(r, w1) := _declare_field field1 w in
      match r with
      | inl e => (inl e, w1)
      | inr field2 =>
          (inr tt,
           set_dataset_doc
             (set_fields_attr (field_docs ++ [from_field field2]) (dataset_doc w1)) w1)
      end
  | chunk :: rest =>
      match lookup_field chunk field_docs with
      | None => (inl (ValueError (CannotAddEmbedded _doc_name path chunk)), w)
      | Some field_doc =>
          match _fields w !! chunk with
          | None => (inl (KeyError chunk), w)
          | Some doc =>
              match embedded_fields doc with
              | None => (inl (ValueError (NotAnEmbeddedField _doc_name path chunk)), w)
              | Some sub =>
                  let '(r, sub_docs', sub') :=
                    add_embedded_field_schema _doc_name path chunk rest name' field
                      (doc_fields field_doc) sub in
                  let docs' :=
                    match sub_docs' with
                    | Some ds =>
                        replace_field chunk (with_embedded_fields ds field_doc) field_docs
                    | None => field_docs
                    end in
                  (r,
                   set_dataset_doc (set_fields_attr docs' (dataset_doc w))
                     (set_fields (<[chunk := with_embedded_fields sub' doc]> (_fields w)) w))
              end
          end
      end
  end.

(** [_clone_field_schema] *)
Definition _clone_field_schema (field_name new_field_name : string) : M unit := fun w =>
  match _fields w !! field_name with
  | None => (inl (KeyError field_name), w)
  | Some field => _add_field_schema new_field_name field w
  end.

(** *** Merging a schema: [_merge_field], [merge_field_schema] *)

(** [_merge_field]; it reads the registry and the dataset document and
    changes nothing. [None] and the empty dict are both returned as
    [[]]. *)
Definition _merge_field (path : string) (field : Field) (validate recursive : bool)
    (w : World) : Result (list (string * Field)) :=
  let '(chunks, last) := split_path path in
  do schema <- walk_chunks _doc_name path None chunks (fun n => _fields w !! n);
  let field_name :=
    if is_ObjectIdField field && PyStr.startswith last "_"
    then PyStr.drop 1 last else last in
  if decide (field_name = "id") then inr []
  else
    match schema field_name with
    | Some existing_field =>
        if recursive && is_EmbeddedDocumentField existing_field then
          match _merge_fields existing_field path field validate recursive with
          | inl reason => inl (ValueError (EmbeddedMergeFailed path reason))
          | inr new_fields => inr new_fields
          end
        else if validate then
          match validate_fields_match path field existing_field with
          | Some reason => inl (ValueError (FieldsDoNotMatch path reason))
          | None => inr []
          end
        else inr []
    | None =>
        let media_type := media_type (dataset_doc w) in
        let is_frame_field := _is_frames_doc cls in
        match validate_field_name field_name media_type is_frame_field with
        | Some reason => inl (ValueError (InvalidFieldName field_name reason))
        | None =>
            if is_group_field field then
              if is_frame_field then inl (ValueError (FrameLevelGroupField field_name))
              else
                match group_field (dataset_doc w) with
                | Some g =>
                    if decide (g = field_name) then inr [(path, field)]
                    else inl (ValueError (SecondGroupField field_name))
                | None => inr [(path, field)]
                end
            else inr [(path, field)]
        end
    end.

(** The first loop of [merge_field_schema]: [new_schema] after the
    paths of [schema] were merged in order. *)
Fixpoint collect_new_schema (schema new_schema : list (string * Field))
    (validate recursive : bool) (w : World) : Result (list (string * Field)) :=
  match schema with
  | [] => inr new_schema
  | (path, field) :: rest =>
      do new_fields <- _merge_field path field validate recursive w;
      collect_new_schema rest (PyDict.update new_schema new_fields) validate recursive w
  end.

(** [merge_field_schema] *)
Definition merge_field_schema (schema : list (string * Field))
    (expand_schema recursive validate : bool) : M bool :=
  let! w := get_world in
  let! new_schema := lift (collect_new_schema schema [] validate recursive w) in
  match new_schema with
  | [] => ret false
  | _ :: _ =>
      if negb expand_schema
      then raise (ValueError (FieldsDoNotExist _doc_name (PyDict.keys new_schema)))
      else
        exec for_each new_schema (fun pf => _add_field_schema pf.1 pf.2);
        exec save;
        ret true
  end.

(** *** Storage rewrites keyed by database field names *)

(** [_handle_db_field(field_name)] *)
Definition _handle_db_field (w : World) (field_name : string) : string :=
  match _fields w !! field_name with
  | Some field => default field_name (db_field field)
  | None => field_name
  end.

(** [_handle_db_field(field_name, new_field_name=n)]; where the field
    has a [db_field], [_get_db_field] returns a name. *)
Definition _handle_db_field2 (w : World) (field_name new_field_name : string)
    : string * string :=
  match _fields w !! field_name with
  | Some field =>
      match db_field field with
      | Some _field_name =>
          (_field_name, default new_field_name (_get_db_field field new_field_name))
      | None => (field_name, new_field_name)
      end
  | None => (field_name, new_field_name)
  end.

(** [_handle_db_fields(field_names)] *)
Definition _handle_db_fields (w : World) (field_names : list string) : list string :=
  _handle_db_field w <$> field_names.

(** [_handle_db_fields(field_names, new_field_names)]: the pairs are
    transposed with [zip] and unpacked into two names by the callers,
    which fails when no pair was produced. *)
Definition _handle_db_fields2 (w : World) (field_names new_field_names : list string)
    : Result (list string * list string) :=
  match (fun p => _handle_db_field2 w p.1 p.2) <$> zip field_names new_field_names with
  | [] => inl (ValueError NotEnoughValuesToUnpack)
  | pairs => inr (pairs.*1, pairs.*2)
  end.

Definition update_many (op : StorageOp) : M unit :=
  modify (fun w => set_storage (storage w ++ [op]) w).

(** [_rename_fields_simple] *)
Definition _rename_fields_simple (field_names new_field_names : list string) : M unit :=
  match field_names with
  | [] => ret tt
  | _ =>
      let! w := get_world in
      let! names := lift (_handle_db_fields2 w field_names new_field_names) in
      let rename_expr := PyDict.of_pairs (zip names.1 names.2) in
      update_many (UpdateManyRename (__name__ cls) rename_expr)
  end.

(** [_clone_fields_simple] *)
Definition _clone_fields_simple (field_names new_field_names : list string) : M unit :=
  match field_names with
  | [] => ret tt
  | _ =>
      let! w := get_world in
      let! names := lift (_handle_db_fields2 w field_names new_field_names) in
      let set_expr :=
        PyDict.of_pairs ((fun kv => (kv.2, "$" +:+ kv.1)) <$> zip names.1 names.2) in
      update_many (UpdateManySetPipeline (__name__ cls) set_expr)
  end.

(** [_delete_fields_simple] *)
Definition _delete_fields_simple (field_names : list string) : M unit :=
  match field_names with
  | [] => ret tt
  | _ =>
      let! w := get_world in
      update_many (UpdateManyUnsetPipeline (__name__ cls) (_handle_db_fields w field_names))
  end.

(** [_clone_fields_collection]; [frames_prefix] is
    [sample_collection._FRAMES_PREFIX]. The view is saved on
    [sample_collection._get_root_fields(new_field_names)]. *)
Definition _clone_fields_collection (field_names new_field_names : list string)
    (frames_prefix : string) : M unit :=
  match field_names with
  | [] => ret tt
  | _ =>
      let! w := get_world in
      let! names := lift (_handle_db_fields2 w field_names new_field_names) in
      let pre (l : list string) :=
        if _is_frames_doc cls then (fun f => frames_prefix +:+ f) <$> l else l in
      let new_field_names' := pre new_field_names in
      let set_field (p : string * string) : string * ViewExpr :=
        let '(field_name, new_field_name) := p in
        let new_base := (PyStr.rsplit1 dot new_field_name).1 in
        let '(base, leaf) :=
          match PyStr.rsplit1 dot field_name with
          | (b, Some l) => (b, l)
          | (_, None) => (field_name, "")
          end in
        (new_field_name,
         if decide (new_base = base) then ViewField leaf
         else ViewField ("$" +:+ field_name)) in
      update_many
        (ViewSave (set_field <$> zip (pre names.1) (pre names.2)) [] new_field_names')
  end.

(** *** Batch operations: [_rename_fields], [_clone_fields],
    [_delete_fields] *)

(** The body of the first loop of [_rename_fields] for one pair. *)
Definition rename_check (default_fields : gset string) (media_type : option string)
    (pair : string * string) : M unit :=
  let '(field_name, new_field_name) := pair in
  let! w := get_world in
  let existing_field := _fields w !! field_name in
  if decide (field_name ∈ default_fields) then
    raise (ValueError (CannotRenameDefault (PyStr.lower _doc_name) field_name))
  else
    match existing_field with
    | None => raise (AttributeError (FieldDoesNotExist _doc_name field_name))
    | Some existing_field =>
        if decide (is_Some (_fields w !! new_field_name)) then
          raise (ValueError (FieldAlreadyExists _doc_name new_field_name))
        else
          match validate_field_name new_field_name media_type (_is_frames_doc cls) with
          | Some reason => raise (ValueError (InvalidFieldName new_field_name reason))
          | None =>
              if is_group_field existing_field then
                modify (fun w =>
                  set_dataset_doc (set_group_field (Some new_field_name) (dataset_doc w)) w)
              else ret tt
          end
    end.

(** What follows the first loop of [_rename_fields]. *)
Definition rename_apply (field_names new_field_names : list string) : M unit :=
  exec _rename_fields_simple field_names new_field_names;
  exec for_each (zip field_names new_field_names)
         (fun p => _rename_field_schema p.1 p.2);
  exec modify (fun w =>
         set_dataset_doc
           (set_app_config
              (app_config (dataset_doc w) ++ [RenamePaths field_names new_field_names])
              (dataset_doc w)) w);
  save.

(** [_rename_fields] *)
Definition _rename_fields (field_names new_field_names : list string) : M unit :=
  let! w := get_world in
  let media_type := media_type (dataset_doc w) in
  let! default_fields := lift (_get_default_fields None) in
  exec for_each (zip field_names new_field_names) (rename_check default_fields media_type);
  rename_apply field_names new_field_names.

(** The body of the first loop of [_clone_fields] for one pair. *)
Definition clone_check (media_type : option string) (pair : string * string) : M unit :=
  let '(field_name, new_field_name) := pair in
  let! w := get_world in
  match _fields w !! field_name with
  | None => raise (AttributeError (FieldDoesNotExist _doc_name field_name))
  | Some existing_field =>
      if decide (is_Some (_fields w !! new_field_name)) then
        raise (ValueError (FieldAlreadyExists _doc_name new_field_name))
      else if is_group_field existing_field then
        raise (ValueError (CannotCloneGroupField field_name))
      else
        match validate_field_name new_field_name media_type (_is_frames_doc cls) with
        | Some reason => raise (ValueError (InvalidFieldName new_field_name reason))
        | None => ret tt
        end
  end.

(** What follows the first loop of [_clone_fields]; [sample_collection]
    is [Some frames_prefix] when a collection is given. *)
Definition clone_apply (field_names new_field_names : list string)
    (sample_collection : option string) : M unit :=
  exec match sample_collection with
       | None => _clone_fields_simple field_names new_field_names
       | Some frames_prefix =>
           _clone_fields_collection field_names new_field_names frames_prefix
       end;
  exec for_each (zip field_names new_field_names)
         (fun p => _clone_field_schema p.1 p.2);
  save.

(** [_clone_fields] *)
Definition _clone_fields (field_names new_field_names : list string)
    (sample_collection : option string) : M unit :=
  let! w := get_world in
  let media_type := media_type (dataset_doc w) in
  exec for_each (zip field_names new_field_names) (clone_check media_type);
  clone_apply field_names new_field_names sample_collection.

(** The first loop of [_delete_fields]: returns [del_fields]. *)
Fixpoint select_del_fields (default_fields : gset string) (error_level : ErrorLevel)
    (field_names del_fields : list string) : M (list string) :=
  match field_names with
  | [] => ret del_fields
  | field_name :: rest =>
      let! w := get_world in
      if decide (field_name ∈ default_fields) then
        exec handle_error
               (ValueError (CannotDeleteDefault (PyStr.lower _doc_name) field_name))
               error_level;
        select_del_fields default_fields error_level rest del_fields
      else if decide (_fields w !! field_name = None) then
        exec handle_error
               (AttributeError (FieldDoesNotExist _doc_name field_name))
               error_level;
        select_del_fields default_fields error_level rest del_fields
      else
        select_del_fields default_fields error_level rest (del_fields ++ [field_name])
  end.

(** [_delete_fields] *)
Definition _delete_fields (field_names : list string) (error_level : ErrorLevel)
    : M unit :=
  let! w := get_world in
  let! default_fields := lift (_get_default_fields (Some (dataset_doc w))) in
  let! del_fields := select_del_fields default_fields error_level field_names [] in
  match del_fields with
  | [] => ret tt
  | _ =>
      exec _delete_fields_simple del_fields;
      exec for_each del_fields _delete_field_schema;
      exec modify (fun w =>
             set_dataset_doc
               (set_app_config
                  (app_config (dataset_doc w) ++ [DeletePaths field_names])
                  (dataset_doc w)) w);
      save
  end.

End DatasetMixin.

(** ** The update extractor: [_extract_extra_updates] *)

(** [int(s)] on ASCII input: surrounding whitespace is dropped, a sign
    may precede the digits, and single underscores may separate digits.
    On an ASCII string the whitespace of [int] is the tab, the line
    feed, the vertical tab, the form feed, the carriage return and the
    space; the separators [0x1c] to [0x1f] are not part of it.  Decimal
    digits and whitespace outside ASCII, which Python also accepts, are
    not modelled: the result is that of [int] on ASCII strings only. *)
Module PyInt.
Definition is_space (a : ascii) : bool :=
  let n := nat_of_ascii a in
  ((9 <=? n)%nat && (n <=? 13)%nat) || (n =? 32)%nat.

Fixpoint lstrip_space (s : string) : string :=
  match s with
  | String a s' => if is_space a then lstrip_space s' else s
  | EmptyString => EmptyString
  end.

Definition digit (a : ascii) : option Z :=
  let n := nat_of_ascii a in
  if (48 <=? n)%nat && (n <=? 57)%nat then Some (Z.of_nat (n - 48)) else None.

(** The digits, then optional trailing whitespace; [prev] tells whether
    the previous character was a digit. *)
Fixpoint digits (acc : Z) (prev : bool) (s : string) : option Z :=
  match s with
  | EmptyString => if prev then Some acc else None
  | String a s' =>
      match digit a with
      | Some d => digits (10 * acc + d) true s'
      | None =>
          if Ascii.eqb a underscore then
            if prev then
              match s' with
              | String b _ =>
                  match digit b with
                  | Some _ => digits acc false s'
                  | None => None
                  end
              | EmptyString => None
              end
            else None
          else if prev && is_space a then
            match lstrip_space s' with EmptyString => Some acc | _ => None end
          else None
      end
  end.

Definition int (s : string) : option Z :=
  match lstrip_space s with
  | String a s' =>
      if Ascii.eqb a "-" then Z.opp <$> digits 0 false s'
      else if Ascii.eqb a "+" then digits 0 false s'
      else digits 0 false (String a s')
  | EmptyString => None
  end.
End PyInt.

Section UpdateExtractor.
(** [V]: the values of an update; [ObjectId]: [bson.ObjectId]. *)
Context {V ObjectId : Type}.

(** The in-memory value of a document field: an (embedded) document
    with its [_id] attribute, when it has one, and its fields; a list;
    or any other value. *)
Inductive Element :=
  | EDocument (_id : option ObjectId) (data : list (string * Element))
  | EList (items : list Element)
  | EValue (v : V).

(** [el[field_name]] *)
Definition getitem_str (el : Element) (field_name : string) : Result Element :=
  match el with
  | EDocument _ data =>
      match PyDict.get field_name data with
      | Some e => inr e
      | None => inl (KeyError field_name)
      end
  | _ => inl TypeError
  end.

(** [el[idx]] *)
Definition getitem_int (el : Element) (idx : Z) : Result Element :=
  match el with
  | EList items =>
      let n := Z.of_nat (length items) in
      let i := if (idx <? 0)%Z then (idx + n)%Z else idx in
      if (i <? 0)%Z then inl IndexError
      else match items !! Z.to_nat i with
           | Some e => inr e
           | None => inl IndexError
           end
  | _ => inl TypeError
  end.

(** [el._id] *)
Definition get_id (el : Element) : Result ObjectId :=
  match el with
  | EDocument (Some i) _ => inr i
  | _ => inl (AttributeError (NoneTypeHasNoAttribute "_id"))
  end.

Fixpoint getitems (el : Element) (field_names : list string) : Result Element :=
  match field_names with
  | [] => inr el
  | field_name :: rest => do el' <- getitem_str el field_name; getitems el' rest
  end.

(** [_parse_id_and_array_filter] *)
Definition _parse_id_and_array_filter (self : Element)
    (list_element_field filtered_field : string) : Result (ObjectId * string) :=
  do el <- getitems self (PyStr.split dot filtered_field);
  let el_fields :=
    PyStr.split dot
      (PyStr.lstrip dot (PyStr.drop (String.length filtered_field) list_element_field)) in
  match el_fields with
  | [] => inl IndexError
  | first :: el_fields' =>
      match PyInt.int first with
      | None => inl (ValueError (InvalidLiteralForInt first))
      | Some idx =>
          do el' <- getitem_int el idx;
          let el_filter := PyStr.join "." ([filtered_field; "$[element]"] ++ el_fields') in
          do el_id <- get_id el';
          inr (el_id, el_filter)
      end
  end.

(** An update document [{op: {key: value}}]. *)
Definition UpdateDoc : Type := list (string * list (string * V)).

(** The test of the check for illegal modifications. *)
Definition modifies_root (k ff : string) : bool :=
  PyStr.startswith k ff
  && (PyStr.count dot (PyStr.lstrip dot (PyStr.drop (String.length ff) k)) =? 0)%nat.

(** The three nested loops of the check: the key that raises, if any. *)
Fixpoint check_keys (keys filtered_fields : list string) : option string :=
  match keys with
  | [] => None
  | k :: rest =>
      if existsb (modifies_root k) filtered_fields then Some k
      else check_keys rest filtered_fields
  end.

Fixpoint check_update_doc (update_doc : UpdateDoc) (filtered_fields : list string)
    : option string :=
  match update_doc with
  | [] => None
  | (_, d) :: rest =>
      match check_keys (PyDict.keys d) filtered_fields with
      | Some k => Some k
      | None => check_update_doc rest filtered_fields
      end
  end.

(** The loop over [d.items()]: [extra_updates] and [del_keys]. *)
Fixpoint extract_items (self : Element) (filtered_fields : list string)
    (items : list (string * V))
    : Result (list (UpdateDoc * ObjectId) * list string) :=
  match items with
  | [] => inr ([], [])
  | (k, v) :: rest =>
      let filtered_field := List.find (fun ff => PyStr.startswith k ff) filtered_fields in
      match filtered_field with
      | Some ff =>
          if decide (ff = "") then extract_items self filtered_fields rest
          else
            do r <- _parse_id_and_array_filter self k ff;
            do rest' <- extract_items self filtered_fields rest;
            inr (([("$set", [(r.2, v)])], r.1) :: rest'.1, k :: rest'.2)
      | None => extract_items self filtered_fields rest
      end
  end.

(** [_extract_extra_updates]: the extra updates and [update_doc] as the
    call leaves it. [filtered_fields] is [None] or a list. The dict is
    only changed after the last statement that can raise. *)
Definition _extract_extra_updates (self : Element) (update_doc : UpdateDoc)
    (filtered_fields : option (list string))
    : Result (list (UpdateDoc * ObjectId) * UpdateDoc) :=
  match filtered_fields with
  | None | Some [] => inr ([], update_doc)
  | Some ffs =>
      match check_update_doc update_doc ffs with
      | Some k => inl (ValueError (ModifyingFilteredRoot k))
      | None =>
          match PyDict.get "$set" update_doc with
          | None => inr ([], update_doc)
          | Some d =>
              do r <- extract_items self ffs d;
              let d' := foldl (fun acc k => PyDict.del k acc) d r.2 in
              let update_doc' :=
                match d' with
                | [] => PyDict.del "$set" update_doc
                | _ => PyDict.set "$set" d' update_doc
                end in
              inr (r.1, update_doc')
          end
      end
  end.

End UpdateExtractor.
Arguments Element : clear implicits.
Arguments UpdateDoc : clear implicits.


(** ** More class methods of [DatasetMixin]: clearing fields and the
    embedded-field operations *)

Section ClearAndEmbedded.
Variable cls : DocClass.

(** [_clear_fields_simple]; [{k: None for k in _field_names}] keeps each
key once, at its first position. *)
Definition _clear_fields_simple (field_names : list string) : M unit :=
  match field_names with
  | [] => ret tt
  | _ =>
      let! w := get_world in
      let _field_names := _handle_db_fields w field_names in
      update_many
        (UpdateManySetNone (__name__ cls)
           (PyDict.keys (PyDict.of_pairs ((fun k => (k, tt)) <$> _field_names))))
  end.

(** [_clear_fields_collection]; [frames_prefix] is
[sample_collection._FRAMES_PREFIX]. The view is saved on
[sample_collection._get_root_fields(field_names)]. *)
Definition _clear_fields_collection (field_names : list string) (frames_prefix : string)
    : M unit :=
  match field_names with
  | [] => ret tt
  | _ =>
      let! w := get_world in
      let pre (l : list string) :=
        if _is_frames_doc cls then (fun f => frames_prefix +:+ f) <$> l else l in
      update_many
        (ViewSave ((fun f => (f, ViewNone)) <$> pre (_handle_db_fields w field_names))
           [] (pre field_names))
  end.

(** [_clear_fields]; [sample_collection] is [Some frames_prefix] when a
collection is given. *)
Definition _clear_fields (field_names : list string) (sample_collection : option string)
    : M unit :=
  exec for_each field_names (fun field_name =>
         let! w := get_world in
         match _fields w !! field_name with
         | None => raise (AttributeError (FieldDoesNotExist (_doc_name cls) field_name))
         | Some _ => ret tt
         end);
  match sample_collection with
  | None => _clear_fields_simple field_names
  | Some frames_prefix => _clear_fields_collection field_names frames_prefix
  end.

(** [_clear_embedded_fields] *)
Definition _clear_embedded_fields (field_names : list string) (frames_prefix : string)
    : M unit :=
  _clear_fields_collection field_names frames_prefix.

(** [_clone_embedded_fields] *)
Definition _clone_embedded_fields (field_names new_field_names : list string)
    (frames_prefix : string) : M unit :=
  _clone_fields_collection cls field_names new_field_names frames_prefix.

(** [_delete_embedded_fields] *)
Definition _delete_embedded_fields (field_names : list string) : M unit :=
  exec _delete_fields_simple cls field_names;
  exec modify (fun w =>
         set_dataset_doc
           (set_app_config
              (app_config (dataset_doc w) ++ [DeletePaths field_names])
              (dataset_doc w)) w);
  save.

(** [_rename_fields_collection]: the view sets every new field from an
expression, unsets the old database fields, and is saved on
[sample_collection._get_root_fields(field_names + new_field_names)]. *)
Definition _rename_fields_collection (field_names new_field_names : list string)
    (frames_prefix : string) : M unit :=
  match field_names with
  | [] => ret tt
  | _ =>
      let! w := get_world in
      let! names := lift (_handle_db_fields2 w field_names new_field_names) in
      let pre (l : list string) :=
        if _is_frames_doc cls then (fun f => frames_prefix +:+ f) <$> l else l in
      let set_field (p : string * string) : string * ViewExpr :=
        let '(field_name, new_field_name) := p in
        let new_base := (PyStr.rsplit1 dot new_field_name).1 in
        let '(base, leaf) :=
          match PyStr.rsplit1 dot field_name with
          | (b, Some l) => (b, l)
          | (_, None) => (field_name, "")
          end in
        (new_field_name,
         if decide (new_base = base) then ViewField leaf
         else ViewField ("$" +:+ field_name)) in
      update_many
        (ViewSave (set_field <$> zip (pre names.1) (pre names.2)) (pre names.1)
           (pre field_names ++ pre new_field_names))
  end.

(** [_rename_embedded_fields]; [is_dataset] is
[isinstance(sample_collection, fod.Dataset)]. *)
Definition _rename_embedded_fields (field_names new_field_names : list string)
    (frames_prefix : string) (is_dataset : bool) : M unit :=
  exec _rename_fields_collection field_names new_field_names frames_prefix;
  if is_dataset then
    exec modify (fun w =>
           set_dataset_doc
             (set_app_config
                (app_config (dataset_doc w) ++ [RenamePaths field_names new_field_names])
                (dataset_doc w)) w);
    save
  else ret tt.

End ClearAndEmbedded.

(** ** Reading the schema and adding fields *)

(** The type constraints of [get_field_schema] ([ftype],
[embedded_doc_type]) and their two functions, defined in
[fiftyone/core/fields.py]. *)
Class TypeConstraints (C : Type) := {
  (** [fof.validate_type_constraints(...)]: [Some reason] when it raises. *)
  validate_type_constraints : C -> option string;
  (** [fof.matches_type_constraints(field, ...)] *)
  matches_type_constraints : Field -> C -> bool
}.

(** The field factory of [fiftyone/core/odm/dataset.py] and
[fiftyone/core/odm/utils.py]: [K] stands for the keyword arguments that
describe a field type, [V] for field values. *)
Class FieldFactory (K V : Type) := {
  (** [create_field(field_name, **kwargs)] *)
  create_field : string -> K -> string + Field;
  (** [get_implied_field_kwargs(value, dynamic=dynamic)] *)
  get_implied_field_kwargs : option V -> bool -> string + K;
  (** [field.validate(value)]: [Some reason] when it raises. *)
  validate_value : Field -> V -> option string
}.

(** What these methods raise: an exception of the module itself, or one
raised inside a collaborator, kept with the collaborator's name. *)
Inductive Raised :=
  | Py (e : PyError)
  | Collaborator (function_name reason : string)
  (** [ValueError("%s has no field '%s'")] *)
  | HasNoFieldValue (doc_name field_name : string)
  (** [AttributeError("%s has no field '%s'")] *)
  | HasNoFieldAttribute (doc_name field_name : string)
  (** [ValueError("Field '%s' has no default")] *)
  | HasNoDefault (field : string)
  (** the [AttributeError] of [delattr(cls, attr)] *)
  | CannotDeleteAttribute (attr : string).

Definition M2 (A : Type) : Type := World -> (Raised + A) * World.

Definition ret2 {A} (a : A) : M2 A := fun w => (inr a, w).
Definition raise2 {A} (e : Raised) : M2 A := fun w => (inl e, w).
Definition bind2 {A B} (m : M2 A) (k : A -> M2 B) : M2 B :=
  fun w => match m w with
           | (inl e, w') => (inl e, w')
           | (inr a, w') => k a w'
           end.
(** A class method of the first part run inside these methods. *)
Definition call {A} (m : M A) : M2 A :=
  fun w => match m w with
           | (inl e, w') => (inl (Py e), w')
           | (inr a, w') => (inr a, w')
           end.

Notation "'let!!' x := m 'in' k" := (bind2 m (fun x => k))
  (at level 10, x pattern, m at level 100, k at level 200) : m_scope.
Notation "'exec!' m ; k" := (bind2 m (fun _ => k))
  (at level 10, m at level 100, k at level 200) : m_scope.

(** ** The registry together with the attributes of the class

    Besides [_fields] and [_fields_ordered], the three registry methods
    set and delete the attribute of the class that holds the field.
    [delattr(cls, name)] deletes among the attributes set on the class
    itself: the attribute of a field that the class inherits from its
    base class belongs to the base class, and [delattr] raises
    [AttributeError] for it. The methods are given again here with
    these attributes, in the order of the statements of the source. *)
Record ClassState := MkClassState {
  world : World;
  (** the field names set as attributes on the class itself *)
  attributes : gset string
}.

Section ClassAttributes.
Variable cls : DocClass.
(** [issubclass(cls, Document)] *)
Variable is_document : bool.

(** [_declare_field], with [setattr(cls, field.name, field)]. *)
Definition cls_declare_field (field : Field) (s : ClassState)
    : (Raised + Field) * ClassState :=
  let w := world s in
  let prev := _fields w !! name field in
  let popped := delete (name field) (_fields w) in
  let attributes' := {[ name field ]} ∪ attributes s in
  match prev with
  | None =>
      (inr field,
       MkClassState
         (set_fields_ordered (_fields_ordered w ++ [name field])
            (set_fields (<[name field := field]> popped) w))
         attributes')
  | Some p =>
      let field' := set_null (null p) (set_required (required p) field) in
      (inr field',
       MkClassState (set_fields (<[name field := field']> popped) w) attributes')
  end.

(** [_rename_field_schema]: the registry is rewritten, then
    [delattr(cls, field_name)], then [setattr(cls, new_field_name,
    field)] on a subclass of [Document], then the field documents are
    renamed. *)
Definition cls_rename_field_schema (field_name new_field_name : string) (s : ClassState)
    : (Raised + unit) * ClassState :=
  let w := world s in
  match _fields w !! field_name with
  | None => (inl (Py (KeyError field_name)), s)
  | Some field =>
      let new_db_field := _get_db_field field new_field_name in
      let field' := set_db_field new_db_field (set_name new_field_name field) in
      let fields' := <[new_field_name := field']> (delete field_name (_fields w)) in
      let ordered' :=
        (fun fn => if decide (fn ≠ field_name) then fn else new_field_name)
          <$> _fields_ordered w in
      let w1 := set_fields_ordered ordered' (set_fields fields' w) in
      if decide (field_name ∈ attributes s) then
        let deleted := attributes s ∖ {[ field_name ]} in
        let attributes' :=
          if is_document then {[ new_field_name ]} ∪ deleted else deleted in
        let docs' :=
          (fun f => if decide (name f = field_name)
                    then set_db_field new_db_field (set_name new_field_name f)
                    else f) <$> fields_attr cls (dataset_doc w) in
        (inr tt,
         MkClassState
           (set_dataset_doc (set_fields_attr cls docs' (dataset_doc w)) w1)
           attributes')
      else (inl (CannotDeleteAttribute field_name), MkClassState w1 (attributes s))
  end.

(** [_delete_field_schema]: the registry is rewritten, then
    [delattr(cls, field_name)], then the field document is deleted. *)
Definition cls_delete_field_schema (field_name : string) (s : ClassState)
    : (Raised + unit) * ClassState :=
  let w := world s in
  match _fields w !! field_name with
  | None => (inl (Py (KeyError field_name)), s)
  | Some _ =>
      let fields' := delete field_name (_fields w) in
      let ordered' := filter (fun fn => fn ≠ field_name) (_fields_ordered w) in
      let w1 := set_fields_ordered ordered' (set_fields fields' w) in
      if decide (field_name ∈ attributes s) then
        let docs' := delete_first field_name (fields_attr cls (dataset_doc w)) in
        (inr tt,
         MkClassState
           (set_dataset_doc (set_fields_attr cls docs' (dataset_doc w)) w1)
           (attributes s ∖ {[ field_name ]}))
      else (inl (CannotDeleteAttribute field_name), MkClassState w1 (attributes s))
  end.

End ClassAttributes.

Section SchemaAccess.
Context {types : FieldTypeSystem}.
Context {C : Type} {constraints : TypeConstraints C}.
Context {K V : Type} {factory : FieldFactory K V}.
Variable cls : DocClass.

(** The loop of [get_field_schema]. *)
Fixpoint schema_of (fields : gmap string Field) (field_names : list string) (c : C)
    (schema : list (string * Field)) : Result (list (string * Field)) :=
  match field_names with
  | [] => inr schema
  | field_name :: rest =>
      match fields !! field_name with
      | None => inl (KeyError field_name)
      | Some field =>
          schema_of fields rest c
            (if matches_type_constraints field c then PyDict.set field_name field schema
             else schema)
      end
  end.

(** [get_field_schema]: the schema as an ordered dictionary. *)
Definition get_field_schema (c : C) (include_private : bool) (w : World)
    : Raised + list (string * Field) :=
  match validate_type_constraints c with
  | Some reason => inl (Collaborator "validate_type_constraints" reason)
  | None =>
      match
        do field_names <- _get_fields_ordered (_fields w) (_fields_ordered w)
                            include_private false;
        schema_of (_fields w) field_names c []
      with
      | inl e => inl (Py e)
      | inr schema => inr schema
      end
  end.

(** [path.rsplit(".", 1)[-1]] *)
Definition rsplit_last (path : string) : string :=
  match PyStr.rsplit1 dot path with
  | (_, Some leaf) => leaf
  | (whole, None) => whole
  end.

(** [_create_field]: the descriptor is created under the leaf of the
path. *)
Definition _create_field (path : string) (kwargs : K) : Raised + Field :=
  let field_name := rsplit_last path in
  match create_field field_name kwargs with
  | inl reason => inl (Collaborator "create_field" reason)
  | inr field => inr field
  end.

(** [_create_implied_field] *)
Definition _create_implied_field (path : string) (value : option V) (dynamic : bool)
    : Raised + Field :=
  let field_name := rsplit_last path in
  match get_implied_field_kwargs value dynamic with
  | inl reason => inl (Collaborator "get_implied_field_kwargs" reason)
  | inr kwargs =>
      match create_field field_name kwargs with
      | inl reason => inl (Collaborator "create_field" reason)
      | inr field => inr field
      end
  end.

(** [add_field] *)
Definition add_field (path : string) (kwargs : K)
    (expand_schema recursive validate : bool) : M2 bool :=
  let!! field := (fun w => (_create_field path kwargs, w)) in
  call (merge_field_schema cls [(path, field)] expand_schema recursive validate).

(** [add_implied_field] *)
Definition add_implied_field (path : string) (value : option V)
    (expand_schema dynamic recursive validate : bool) : M2 bool :=
  let!! field := (fun w => (_create_implied_field path value dynamic, w)) in
  call (merge_field_schema cls [(path, field)] expand_schema recursive validate).

(** *** Instances: [has_field], [set_field], [clear_field]

    [data] holds the attribute values of one document, [None] being
    Python's [None]. *)

Definition has_field (field_name : string) (w : World) : bool :=
  bool_decide (is_Some (_fields w !! field_name)).

(** [set_field]; returns the attribute values as [super().__setattr__]
leaves them. *)
Definition set_field (data : list (string * option V)) (field_name : string)
    (value : option V) (create validate dynamic : bool) : M2 (list (string * option V)) :=
  match validate_field_name field_name None false with
  | Some reason => raise2 (Py (ValueError (InvalidFieldName field_name reason)))
  | None =>
      let!! w := call get_world in
      exec! (if negb (has_field field_name w) then
               if create then
                 exec! add_implied_field field_name value true dynamic true validate;
                 ret2 tt
               else raise2 (HasNoFieldValue (_doc_name cls) field_name)
             else
               match value with
               | None => ret2 tt
               | Some v =>
                   exec! (if validate then
                            match _fields w !! field_name with
                            | Some field =>
                                match validate_value field v with
                                | Some reason => raise2 (Collaborator "validate" reason)
                                | None => ret2 tt
                                end
                            | None => raise2 (Py (KeyError field_name))
                            end
                          else ret2 tt);
                   if dynamic then
                     exec! add_implied_field field_name value create dynamic true validate;
                     ret2 tt
                   else ret2 tt
               end);
      ret2 (PyDict.set field_name value data)
  end.

(** [clear_field] *)
Definition clear_field (data : list (string * option V)) (field_name : string)
    : M2 (list (string * option V)) :=
  set_field data field_name None false true false.

End SchemaAccess.

(** ** [NoDatasetMixin]: documents that are not backed by a dataset *)

(** A field of [default_fields] as [_get_default] reads it: its [null]
flag and its [default], a constant or a callable given by what the call
returns. *)
Inductive DefaultValue (V : Type) :=
  | NoDefaultValue
  | DefaultConstant (v : V)
  | DefaultFactory (returns : V).
Arguments NoDefaultValue {V}.
Arguments DefaultConstant {V} v.
Arguments DefaultFactory {V} returns.

Record DefaultField (V : Type) := MkDefaultField {
  df_repr : string;
  df_null : bool;
  df_default : DefaultValue V
}.
Arguments MkDefaultField {V}.
Arguments df_repr {V}.
Arguments df_null {V}.
Arguments df_default {V}.

(** The value functions of [fiftyone/core/odm/utils.py]; [S] stands for
serialized values. *)
Class ValueCodec (V S : Type) := {
  (** [isinstance(v, ObjectId)] *)
  is_object_id : V -> bool;
  (** [serialize_value(v, extended=extended)] *)
  serialize_value : option V -> bool -> S;
  (** [deserialize_value(v)] *)
  deserialize_value : S -> option V
}.

Section NoDatasetMixin.
Context {types : FieldTypeSystem}.
Context {V S : Type} {codec : ValueCodec V S}.
(** [_is_frames_doc] of the subclass. *)
Variable is_frames_doc : bool.
(** The three conversions of [_get_default]: [list(value)], [tuple(value)]
or [dict(value)] for an instance of a proper subclass of one of the
three types, the value itself otherwise. *)
Variable as_builtin : V -> V.

Definition nd_doc_name : string := if is_frames_doc then "Frame" else "Sample".

(** [isinstance(v, ObjectId)] on a value that may be [None]. *)
Definition holds_object_id (v : option V) : bool :=
  match v with Some x => is_object_id x | None => false end.

(** [NoDatasetMixin._to_db_fields] *)
Definition nd_to_db_fields (_data : list (string * option V)) (field_names : list string)
    : list string :=
  (fun field_name =>
     if decide (field_name = "id") then "_id"
     else if holds_object_id (default None (PyDict.get field_name _data))
             && negb (PyStr.startswith field_name "_")
          then "_" +:+ field_name
          else field_name) <$> field_names.

(** [NoDatasetMixin._get_field_names] *)
Definition nd_get_field_names (_data : list (string * option V))
    (include_private use_db_fields : bool) : list string :=
  let field_names := PyDict.keys _data in
  let field_names :=
    if include_private then field_names
    else filter (fun f => PyStr.startswith f "_" = false) field_names in
  if use_db_fields then nd_to_db_fields _data field_names else field_names.

(** [NoDatasetMixin._get_default] *)
Definition _get_default (field : DefaultField (option V)) : Raised + option V :=
  if df_null field then inr None
  else
    match df_default field with
    | DefaultConstant (Some v) => inr (Some (as_builtin v))
    | DefaultFactory returns => inr (as_builtin <$> returns)
    | DefaultConstant None | NoDefaultValue => inl (HasNoDefault (df_repr field))
    end.

(** [NoDatasetMixin.has_field], for a document whose [_data] is
initialized. *)
Definition nd_has_field (_data : list (string * option V)) (field_name : string) : bool :=
  bool_decide (is_Some (PyDict.get field_name _data)).

(** [NoDatasetMixin.get_field] *)
Definition nd_get_field (_data : list (string * option V)) (field_name : string)
    : Raised + option V :=
  match PyDict.get field_name _data with
  | Some v => inr v
  | None => inl (HasNoFieldAttribute nd_doc_name field_name)
  end.

(** [NoDatasetMixin.set_field]: [_data] as the call leaves it. *)
Definition nd_set_field (_data : list (string * option V)) (field_name : string)
    (value : option V) (create : bool) : Raised + list (string * option V) :=
  if negb create && negb (nd_has_field _data field_name)
  then inl (HasNoFieldValue nd_doc_name field_name)
  else
    match validate_field_name field_name None false with
    | Some reason => inl (Py (ValueError (InvalidFieldName field_name reason)))
    | None => inr (PyDict.set field_name value _data)
    end.

(** [NoDatasetMixin.clear_field] *)
Definition nd_clear_field (default_fields : list (string * DefaultField (option V)))
    (_data : list (string * option V)) (field_name : string)
    : Raised + list (string * option V) :=
  match PyDict.get field_name default_fields with
  | Some field =>
      match _get_default field with
      | inl e => inl e
      | inr default_value => nd_set_field _data field_name default_value false
      end
  | None =>
      if negb (nd_has_field _data field_name)
      then inl (HasNoFieldValue nd_doc_name field_name)
      else inr (PyDict.del field_name _data)
  end.

(** The key [to_dict] stores a value under. *)
Definition to_dict_key (k : string) (v : option V) : string :=
  if decide (k = "id") then "_id"
  else if holds_object_id v && negb (PyStr.startswith k "_") then "_" +:+ k
  else k.

(** [NoDatasetMixin.to_dict] *)
Definition to_dict (_data : list (string * option V)) (extended : bool)
    : list (string * S) :=
  foldl (fun d kv => PyDict.set (to_dict_key kv.1 kv.2) (serialize_value kv.2 extended) d)
    [] _data.

(** The key [from_dict] passes a deserialized value under. *)
Definition from_dict_key (k : string) (v : option V) : string :=
  if decide (k = "_id") then "id"
  else if holds_object_id v && PyStr.startswith k "_" then PyStr.drop 1 k
  else k.

(** [NoDatasetMixin.from_dict]: the keyword arguments the class is
constructed with. *)
Definition from_dict (d : list (string * S)) : list (string * option V) :=
  foldl (fun kwargs kv =>
           let v := deserialize_value kv.2 in
           PyDict.set (from_dict_key kv.1 v) v kwargs)
    [] d.

End NoDatasetMixin.

(** ** [_update]: writing a document to its collection *)

Section Update.
Context {V ObjectId : Type}.

(** A call [collection.update_one(select_dict, update, upsert=True)]
with [select_dict = {"_id": object_id}]: the [_id] selected, the update,
and the element [_id] of [array_filters=[{"element._id": element_id}]]
when the call passes one. *)
Record UpdateOne := MkUpdateOne {
  select_id : ObjectId;
  update : UpdateDoc V;
  array_filter_id : option ObjectId
}.

(** The collection is an external collaborator: its state is the calls
made on it, oldest first, and [raw_result] gives the [raw_result] of a
call after the calls before it: [None] for Python's [None], [Some u]
for a result whose [get("updatedExisting")] is [u], [None] when the key
is absent. *)
Variable raw_result : list UpdateOne -> UpdateOne -> option (option bool).

(** [a and b] on values that are [True], [False] or [None]. *)
Definition py_and (a b : option bool) : option bool :=
  match a with
  | Some true => b
  | _ => a
  end.

(** The loop of [_update] over [extra_updates]. *)
Fixpoint update_extras (object_id : ObjectId)
    (extra_updates : list (UpdateDoc V * ObjectId))
    (updated_existing : option bool) (calls : list UpdateOne)
    : option bool * list UpdateOne :=
  match extra_updates with
  | [] => (updated_existing, calls)
  | (update, element_id) :: rest =>
      let c := MkUpdateOne object_id update (Some element_id) in
      let updated_existing :=
        match raw_result calls c with
        | Some u => py_and updated_existing u
        | None => updated_existing
        end in
      update_extras object_id rest updated_existing (calls ++ [c])
  end.

(** [_update]: the value returned and the calls the collection has
received. *)
Definition _update (self : Element V ObjectId) (object_id : ObjectId)
    (update_doc : UpdateDoc V) (filtered_fields : option (list string))
    (calls : list UpdateOne) : Result (option bool) * list UpdateOne :=
  match _extract_extra_updates self update_doc filtered_fields with
  | inl e => (inl e, calls)
  | inr (extra_updates, update_doc) =>
      let '(updated_existing, calls) :=
        match update_doc with
        | [] => (Some true, calls)
        | _ =>
            let c := MkUpdateOne object_id update_doc None in
            (match raw_result calls c with
             | Some u => u
             | None => Some true
             end, calls ++ [c])
        end in
      let '(updated_existing, calls) :=
        update_extras object_id extra_updates updated_existing calls in
      (inr updated_existing, calls)
  end.

End Update.
Arguments UpdateOne : clear implicits.
(** * Specifications

    The predicates and the concrete fixtures the properties below are
    stated with. *)

(** ** The field registry *)

(** The registry operations of the claim, run in sequence on the class. *)
Inductive RegistryOp :=
  | DeclareField (field : Field)
  | RenameFieldSchema (field_name new_field_name : string)
  | DeleteFieldSchema (field_name : string).

Definition run_op (cls : DocClass) (op : RegistryOp) : M unit :=
  match op with
  | DeclareField field => exec _declare_field field; ret tt
  | RenameFieldSchema field_name new_field_name =>
      _rename_field_schema cls field_name new_field_name
  | DeleteFieldSchema field_name => _delete_field_schema cls field_name
  end.

(** The keys of [_fields] are the names of [_fields_ordered]. *)
Definition keys_match (w : World) : Prop :=
  dom (_fields w) = list_to_set (_fields_ordered w).

(** Every descriptor is registered under its own name. *)
Definition names_match (w : World) : Prop :=
  ∀ k f, _fields w !! k = Some f → name f = k.

(** Every rename of the sequence targets a name that is free when it
    runs (or the field's own name): the guard [_rename_fields] applies
    before it renames. *)
Fixpoint renames_fresh (cls : DocClass) (ops : list RegistryOp) (w : World) : Prop :=
  match ops with
  | [] => True
  | op :: rest =>
      match op with
      | RenameFieldSchema field_name new_field_name =>
          new_field_name = field_name ∨ _fields w !! new_field_name = None
      | _ => True
      end
      ∧ match run_op cls op w with
        | (inr _, w') => renames_fresh cls rest w'
        | (inl _, _) => True
        end
  end.


(** The registry as [_rename_field_schema] leaves it keeps every name
    of [_fields_ordered] in place, the renamed one under its new name. *)
Definition positions_kept (field_name new_field_name : string) (w w' : World) : Prop :=
  length (_fields_ordered w') = length (_fields_ordered w)
  ∧ ∀ i fn, _fields_ordered w !! i = Some fn →
      _fields_ordered w' !! i = Some (if decide (fn = field_name) then new_field_name else fn).

(** The storage-name conventions [_get_db_field] knows: no storage name,
    the logical name itself, or the logical name behind an underscore. *)
Definition conventional_db_field (f : Field) : Prop :=
  db_field f = None ∨ db_field f = Some (name f) ∨ db_field f = Some ("_" +:+ name f).

(** ** Fixtures *)

(** A small type system for the examples: a name is valid unless it is
    empty, two descriptors match when they are of the same class, a group
    field is an embedded document of type [Group], and merging into an
    embedded document reports nothing new. *)
Definition ftype_class (f : Field) : string :=
  match ftype f with
  | ScalarField c => c
  | ObjectIdField => "ObjectIdField"
  | ListField _ => "ListField"
  | EmbeddedDocumentField _ _ => "EmbeddedDocumentField"
  end.

Definition demo_types : FieldTypeSystem := {|
  GROUP := "group";
  validate_field_name n _ _ := if decide (n = "") then Some "empty name" else None;
  validate_fields_match _ f g :=
    if decide (ftype_class f = ftype_class g) then None else Some "type mismatch";
  is_group_field f :=
    match ftype f with
    | EmbeddedDocumentField "Group" _ => true
    | _ => false
    end;
  _merge_fields _ _ _ _ _ := inr []
|}.

Definition scalar (n cls_name : string) : Field :=
  MkField n (Some n) false true (ScalarField cls_name).

Definition id_field : Field := MkField "id" (Some "_id") true false ObjectIdField.
Definition filepath_field : Field := scalar "filepath" "StringField".

(** A sample class whose base class declares [id] and [filepath]. *)
Definition demo_cls : DocClass := {|
  _is_frames_doc := false;
  __name__ := "samples.demo";
  base_fields := <["filepath" := filepath_field]> (<["id" := id_field]> ∅);
  base_fields_ordered := ["id"; "filepath"]
|}.

(** The matching frame class. *)
Definition demo_frames_cls : DocClass := {|
  _is_frames_doc := true;
  __name__ := "frames.samples.demo";
  base_fields := <["id" := id_field]> ∅;
  base_fields_ordered := ["id"]
|}.

Definition empty_doc : DatasetDocument := MkDatasetDocument None None [] [] [].

Definition empty_world : World := MkWorld ∅ [] empty_doc empty_doc [] [].

(** A world whose registry holds the given fields, declared in order,
    with the matching field documents in [sample_fields]. *)
Definition world_of (fields : list Field) (d : DatasetDocument) : World :=
  MkWorld (list_to_map ((fun f => (name f, f)) <$> fields)) (name <$> fields)
    d d [] [].

Definition doc_of (fields : list Field) (group : option string) : DatasetDocument :=
  MkDatasetDocument None group fields [] [].

Definition int_a : Field := scalar "a" "IntField".
Definition int_b : Field := scalar "b" "IntField".

(** Declares [a] and [b], then renames [a] onto [b]. *)
Definition ops_rename_onto_existing : list RegistryOp :=
  [DeclareField int_a; DeclareField int_b; RenameFieldSchema "a" "b"].

(** Declares [a] and [b], renames [a] to the free name [c], deletes [b]. *)
Definition ops_rename_to_free : list RegistryOp :=
  [DeclareField int_a; DeclareField int_b; RenameFieldSchema "a" "c";
   DeleteFieldSchema "b"].

Definition custom_db_a : Field :=
  MkField "a" (Some "store_a") false true (ScalarField "IntField").

Definition sample_id_field : Field :=
  MkField "sample_id" (Some "_sample_id") false true ObjectIdField.

(** ** Batch validation *)

(** The field names an error message is formatted with. *)
Definition msg_names (m : Msg) (n : string) : Prop :=
  match m with
  | CannotRenameDefault _ f | CannotDeleteDefault _ f | FieldDoesNotExist _ f
  | FieldAlreadyExists _ f | CannotCloneGroupField f | FrameLevelGroupField f
  | SecondGroupField f | InvalidFieldName f _ | ModifyingFilteredRoot f => n = f
  | FieldsDoNotExist _ paths => n ∈ paths
  | CannotInferType _ root path | NotAnEmbeddedField _ path root
  | CannotAddEmbedded _ path root => n = root ∨ n = path
  | FieldsDoNotMatch path _ | EmbeddedMergeFailed path _ => n = path
  | NotEnoughValuesToUnpack | InvalidLiteralForInt _ | NoneTypeHasNoAttribute _ => False
  end.

Definition error_names (e : PyError) (n : string) : Prop :=
  match e with
  | ValueError m | AttributeError m => msg_names m n
  | KeyError k => n = k
  | IndexError | TypeError => False
  end.

Section BatchChecks.
Context {types : FieldTypeSystem}.
Variable cls : DocClass.

(** The checks of a rename for one pair, in the spec's words and order:
    the old name is not a default field, the old name exists, the new
    name does not already exist, the new name passes naming validation.
    [None] when the pair passes all four. *)
Definition rename_violation (w : World) (pair : string * string) : option PyError :=
  let '(old, new) := pair in
  if decide (old ∈ base_fields_ordered cls) then
    Some (ValueError (CannotRenameDefault (PyStr.lower (_doc_name cls)) old))
  else if decide (_fields w !! old = None) then
    Some (AttributeError (FieldDoesNotExist (_doc_name cls) old))
  else if decide (is_Some (_fields w !! new)) then
    Some (ValueError (FieldAlreadyExists (_doc_name cls) new))
  else
    match validate_field_name new (media_type (dataset_doc w)) (_is_frames_doc cls) with
    | Some reason => Some (ValueError (InvalidFieldName new reason))
    | None => None
    end.

(** The checks of a clone for one pair: the old name exists, the new
    name does not already exist, the old field is not the group field,
    the new name passes naming validation. *)
Definition clone_violation (w : World) (pair : string * string) : option PyError :=
  let '(old, new) := pair in
  match _fields w !! old with
  | None => Some (AttributeError (FieldDoesNotExist (_doc_name cls) old))
  | Some existing =>
      if decide (is_Some (_fields w !! new)) then
        Some (ValueError (FieldAlreadyExists (_doc_name cls) new))
      else if is_group_field existing then
        Some (ValueError (CannotCloneGroupField old))
      else
        match validate_field_name new (media_type (dataset_doc w)) (_is_frames_doc cls) with
        | Some reason => Some (ValueError (InvalidFieldName new reason))
        | None => None
        end
  end.

(** The first violated check of a batch, pairs taken in order. *)
Fixpoint first_violation (check : string * string → option PyError)
    (pairs : list (string * string)) : option (string * string * PyError) :=
  match pairs with
  | [] => None
  | p :: rest =>
      match check p with
      | Some e => Some (p, e)
      | None => first_violation check rest
      end
  end.
End BatchChecks.

(** [w'] is [w] up to the group-field designation of the in-memory
    dataset document. *)
Definition same_but_group_field (w w' : World) : Prop :=
  ∃ g, w' = set_dataset_doc (set_group_field g (dataset_doc w)) w.

(** Storage, the field registry and the persisted dataset document are
    those of [w], and so are the field lists and the application config
    of the in-memory dataset document. *)
Definition nothing_applied (w w' : World) : Prop :=
  storage w' = storage w
  ∧ _fields w' = _fields w
  ∧ _fields_ordered w' = _fields_ordered w
  ∧ saved w' = saved w
  ∧ sample_fields (dataset_doc w') = sample_fields (dataset_doc w)
  ∧ frame_fields (dataset_doc w') = frame_fields (dataset_doc w)
  ∧ app_config (dataset_doc w') = app_config (dataset_doc w).

Definition group_field_g : Field :=
  MkField "group" (Some "group") false true (EmbeddedDocumentField "Group" []).

(** A grouped dataset: fields [a], [b] and the group field [group]. *)
Definition grouped_doc : DatasetDocument :=
  MkDatasetDocument (Some "group") (Some "group") [int_a; int_b; group_field_g] [] [].

Definition grouped_world : World := world_of [int_a; int_b; group_field_g] grouped_doc.

Definition world_ab : World := world_of [int_a; int_b] (doc_of [int_a; int_b] None).

(** ** Merging *)

Section MergeSpecs.
Context {types : FieldTypeSystem}.
Variable cls : DocClass.

(** The name [_merge_field] looks the leaf of a path up under: the
leaf itself, without its leading underscore when the descriptor is an
[ObjectIdField]. *)
Definition merge_name (path : string) (field : Field) : string :=
  let last := (split_path path).2 in
  if is_ObjectIdField field && PyStr.startswith last "_" then PyStr.drop 1 last else last.

(** [path] is present in the schema with descriptor [F]: its embedded
segments resolve and the document that holds the leaf has [F] under the
leaf's name. *)
Definition present (w : World) (path : string) (F : Field) : Prop :=
  ∃ schema,
    walk_chunks (_doc_name cls) path None (split_path path).1 (λ n, _fields w !! n)
    = inr schema
    ∧ schema (split_path path).2 = Some F.

(** [path] names a new field: its embedded segments resolve, the
document that holds the leaf has nothing under the name looked up, that
name is not [id] and passes the naming rules. *)
Definition names_new_field (w : World) (path : string) (field : Field) : Prop :=
  ∃ schema,
    walk_chunks (_doc_name cls) path None (split_path path).1 (λ n, _fields w !! n)
    = inr schema
    ∧ schema (merge_name path field) = None
    ∧ merge_name path field ≠ "id"
    ∧ validate_field_name (merge_name path field) (media_type (dataset_doc w))
        (_is_frames_doc cls) = None.
End MergeSpecs.

Definition frame_sample_id : Field :=
  MkField "_sample_id" (Some "_sample_id") true false ObjectIdField.

(** A frame class registry that holds the private identifier
[_sample_id]. *)
Definition frames_world : World :=
  MkWorld (<["_sample_id" := frame_sample_id]> ∅) ["_sample_id"]
    (MkDatasetDocument None None [] [frame_sample_id] [])
    (MkDatasetDocument None None [] [frame_sample_id] []) [] [].

Definition int_c : Field := scalar "c" "IntField".

Definition new_group_field (n : string) : Field :=
  MkField n (Some n) false true (EmbeddedDocumentField "Group" []).

Definition label_field : Field := scalar "label" "StringField".

Definition dets_field : Field :=
  MkField "dets" (Some "dets") false true (EmbeddedDocumentField "Detections" [label_field]).

(** A registry with the embedded document [dets] and its field [label]. *)
Definition dets_world : World := world_of [int_a; dets_field] (doc_of [int_a; dets_field] None).

(** ** Deleting *)

Section DeleteSpecs.
Context {types : FieldTypeSystem}.
Variable cls : DocClass.

(** The default fields [_delete_fields] protects: the fields of the base
class and, on the sample class of a grouped dataset, the group field. *)
Definition delete_defaults (w : World) : gset string :=
  list_to_set (base_fields_ordered cls)
  ∪ (if bool_decide (media_type (dataset_doc w) = Some GROUP) && negb (_is_frames_doc cls)
     then match group_field (dataset_doc w) with Some g => {[ g ]} | None => ∅ end
     else ∅).

(** A requested name can be deleted: it is not a default field and it
exists. *)
Definition deletable (w : World) (field_name : string) : Prop :=
  (field_name ∉ delete_defaults w) ∧ (_fields w !! field_name) ≠ None.

#[global] Instance deletable_dec w field_name : Decision (deletable w field_name).
Proof. unfold deletable. apply _. Defined.

(** The error [_delete_fields] hands to [handle_error] for a name that
cannot be deleted. *)
Definition delete_violation (w : World) (field_name : string) : option PyError :=
  if decide (field_name ∈ delete_defaults w) then
    Some (ValueError (CannotDeleteDefault (PyStr.lower (_doc_name cls)) field_name))
  else if decide (_fields w !! field_name = None) then
    Some (AttributeError (FieldDoesNotExist (_doc_name cls) field_name))
  else None.
End DeleteSpecs.

(** [w'] is [w] up to the warnings logged. *)
Definition same_but_warnings (w w' : World) : Prop :=
  ∃ ws, w' = set_warnings ws w.

(** ** The update extractor *)

(** A sample in memory: [dets.detections] holds two detections with
their identifiers. *)
Definition detection (i label : string) : Element string string :=
  EDocument (Some i) [("label", EValue label)].

Definition demo_sample : Element string string :=
  EDocument (Some "sample-0")
    [("filepath", EValue "a.png");
     ("dets", EDocument (Some "dets-0")
                [("detections", EList [detection "det-0" "cat"; detection "det-1" "dog"])])].

(** ** Specifications of the further properties *)

(** The database name [_to_db_fields] reports for a descriptor
registered as [n]: [db_field or n]. *)
Definition db_name_or (n : string) (f : Field) : string :=
  match db_field f with
  | Some d => if decide (d = "") then n else d
  | None => n
  end.

(** The descriptor [_declare_field] stores for [field]: [field] itself,
with the [required] and [null] flags of the descriptor it replaces. *)
Definition declared_as (prev : option Field) (field : Field) : Field :=
  match prev with
  | Some p => set_null (null p) (set_required (required p) field)
  | None => field
  end.

(** No field document of the class is named [n]. *)
Definition no_field_doc (cls : DocClass) (w : World) (n : string) : Prop :=
  Forall (λ d, name d ≠ n) (fields_attr cls (dataset_doc w)).

(** The keys [to_dict] stores the values of [_data] under, in order. *)
Definition stored_keys {V S : Type} `{!ValueCodec V S} (_data : list (string * option V))
    : list string :=
  (λ kv, to_dict_key kv.1 kv.2) <$> _data.

(** An item that [from_dict] gives back under its own name: its key is
not ["_id"], and it is not an [ObjectId] held under a private name. *)
Definition restorable {V S : Type} `{!ValueCodec V S} (kv : string * option V) : Prop :=
  kv.1 ≠ "_id" ∧ holds_object_id kv.2 && PyStr.startswith kv.1 "_" = false.

(** Values and a codec for the examples: serialization keeps the value. *)
Inductive DemoValue :=
  | VInt (n : Z)
  | VObjectId (hex : string).

#[export] Instance demo_codec : ValueCodec DemoValue (option DemoValue) := {
  is_object_id v := match v with VObjectId _ => true | VInt _ => false end;
  serialize_value v _ := v;
  deserialize_value s := s
}.

Definition demo_data : list (string * option DemoValue) :=
  [("id", Some (VObjectId "5f2062bf27c024654f5286a0"));
   ("filepath", None);
   ("frame_id", Some (VObjectId "5f2062bf27c024654f5286a1"));
   ("_rand", Some (VInt 7))].

(** Default fields for the examples: [filepath] may be [None], [tags]
is created by a factory. *)
Definition demo_defaults : list (string * DefaultField (option DemoValue)) :=
  [("filepath", MkDefaultField "StringField" true NoDefaultValue);
   ("tags", MkDefaultField "ListField" false (DefaultFactory (Some (VInt 0))))].

(** [w'] extends the schema of [w] and leaves the storage engine
alone: no field is removed from the registry, the ordered names only
gain names at the end, and storage, the warnings and the persisted
dataset document are those of [w]. *)
Definition schema_extended (w w' : World) : Prop :=
  dom (_fields w) ⊆ dom (_fields w')
  ∧ _fields_ordered w `prefix_of` _fields_ordered w'
  ∧ storage w' = storage w
  ∧ warnings w' = warnings w
  ∧ saved w' = saved w.

(** The registry invariant: the keys of [_fields] are the names of
[_fields_ordered], each name once. *)
Definition registry_ok (w : World) : Prop :=
  keys_match w ∧ NoDup (_fields_ordered w).

(** The descriptor [_add_field_schema] registers for a copy of [f]
under the top-level name [b]. *)
Definition clone_of (f : Field) (b : string) : Field :=
  set_name b (set_db_field (_get_db_field f b) f).

(** The registry and the field documents of [w'] are those of [w]. *)
Definition registry_untouched (w w' : World) : Prop :=
  _fields w' = _fields w
  ∧ _fields_ordered w' = _fields_ordered w
  ∧ sample_fields (dataset_doc w') = sample_fields (dataset_doc w)
  ∧ frame_fields (dataset_doc w') = frame_fields (dataset_doc w).

(** A field factory for the examples: the keyword arguments are the
name of a scalar field class, implied from the kind of the value. *)
#[export] Instance demo_factory : FieldFactory string DemoValue := {
  create_field n k := inr (scalar n k);
  get_implied_field_kwargs v _ :=
    match v with
    | Some (VInt _) => inr "IntField"
    | Some (VObjectId _) => inr "ObjectIdField"
    | None => inl "cannot infer a field type from None"
    end;
  validate_value _ _ := None
}.

(** The items [get_field_schema] returns for the names listed: each
registered name whose descriptor matches the type constraints, with its
descriptor. *)
Definition matching_fields {C : Type} `{!TypeConstraints C} (c : C)
    (fields : gmap string Field) (names : list string) : list (string * Field) :=
  omap (λ n, match fields !! n with
             | Some f => if matches_type_constraints f c then Some (n, f) else None
             | None => None
             end) names.

(** Type constraints for the examples: an optional field class name
that the descriptor's class must equal. *)
#[export] Instance demo_constraints : TypeConstraints (option string) := {
  validate_type_constraints _ := None;
  matches_type_constraints f c :=
    match c with
    | Some t => bool_decide (ftype_class f = t)
    | None => true
    end
}.

(** The keys of [$set] that [_extract_extra_updates] takes out: those
whose first matching filtered field, in the order given, is not the
empty string. *)
Definition extracted (filtered_fields : list string) (k : string) : bool :=
  match List.find (λ ff, PyStr.startswith k ff) filtered_fields with
  | Some ff => bool_decide (ff ≠ "")
  | None => false
  end.

(** ** Decimal numerals

    The text of a natural number: [numeral [1; 2]] is ["12"], and its
    value is [12]. *)
Definition digit_char (d : nat) : ascii := ascii_of_nat (48 + d).

Definition numeral (ds : list nat) : string :=
  foldr (λ d s, String (digit_char d) s) "" ds.

Definition numeral_value (ds : list nat) : nat :=
  foldl (λ acc d, (10 * acc + d)%nat) 0%nat ds.

Definition decimal_digits (ds : list nat) : Prop :=
  ds ≠ [] ∧ Forall (λ d, (d < 10)%nat) ds.

(** The characters of which [int] can make something: the decimal
    digits, the signs, the underscore, the ASCII whitespace, and every
    character outside ASCII, among which Python knows further digits and
    whitespace. An ASCII string that holds any other character is not an
    integer literal. *)
Definition may_be_in_int_literal (c : ascii) : bool :=
  let n := nat_of_ascii c in
  ((128 <=? n) || ((48 <=? n) && (n <=? 57)) || (n =? 43) || (n =? 45) || (n =? 95)
   || ((9 <=? n) && (n <=? 13)) || (n =? 32))%nat.

(** [l[n]] for [n >= 0] and [l[-n]]: the element, if the index is in
    range. *)
Definition py_index {A} (l : list A) (n : nat) : option A := l !! n.

Definition py_index_neg {A} (l : list A) (n : nat) : option A :=
  if decide (n = 0) then l !! 0
  else if decide (n ≤ length l)%nat then l !! (length l - n)%nat
  else None.
(** * Properties *)

(** ** The field registry *)

Lemma for_each_cons {A} (x : A) (l : list A) (body : A → M unit) (w : World) :
  for_each (x :: l) body w =
  match body x w with
  | (inl e, w') => (inl e, w')
  | (inr _, w') => for_each l body w'
  end.
Proof. reflexivity. Qed.

Lemma list_to_set_rename (a b : string) (l : list string) :
  a ∈ l →
  list_to_set ((λ fn, if decide (fn ≠ a) then fn else b) <$> l)
  =@{gset string} {[ b ]} ∪ (list_to_set l ∖ {[ a ]}).
Proof.
  intros Ha. apply set_eq. intros x.
  rewrite elem_of_list_to_set, list_elem_of_fmap, elem_of_union,
    elem_of_singleton, elem_of_difference, elem_of_list_to_set, elem_of_singleton.
  split.
  - intros (y & -> & Hy). case_decide; [right | left]; done.
  - intros [-> | [Hx Hne]].
    + exists a. split; [|done]. case_decide; congruence.
    + exists x. split; [|done]. case_decide; congruence.
Qed.

Lemma list_to_set_remove (a : string) (l : list string) :
  list_to_set (filter (λ fn, fn ≠ a) l) =@{gset string} list_to_set l ∖ {[ a ]}.
Proof.
  apply set_eq. intros x.
  rewrite elem_of_list_to_set, list_elem_of_filter, elem_of_difference,
    elem_of_list_to_set, elem_of_singleton. tauto.
Qed.

Lemma keys_match_elem (w : World) (k : string) :
  keys_match w → (k ∈ _fields_ordered w ↔ is_Some (_fields w !! k)).
Proof.
  unfold keys_match. intros Hk.
  rewrite <- elem_of_dom, Hk, elem_of_list_to_set. done.
Qed.

(** One operation preserves the agreement of keys and names. *)
Lemma run_op_keys_match cls op w r w' :
  keys_match w → run_op cls op w = (r, w') → keys_match w'.
Proof.
  intros Hk Hrun. destruct op as [field | a b | a]; simpl in Hrun.
  - unfold bind, _declare_field, ret in Hrun.
    destruct (_fields w !! name field) as [p|] eqn:Hp;
      inversion Hrun; subst; clear Hrun; unfold keys_match in *; simpl.
    + rewrite dom_insert_L, dom_delete_L, Hk.
      assert (name field ∈ dom (_fields w)) as Hin by (apply elem_of_dom; eauto).
      rewrite Hk in Hin. apply set_eq. intros x.
      destruct (decide (x = name field)) as [->|]; set_solver.
    + rewrite dom_insert_L, dom_delete_L, Hk, list_to_set_app_L. simpl.
      apply set_eq. intros x.
      destruct (decide (x = name field)) as [->|]; set_solver.
  - unfold _rename_field_schema in Hrun.
    destruct (_fields w !! a) as [f|] eqn:Hf;
      inversion Hrun; subst; clear Hrun; [|done].
    unfold keys_match in *; simpl.
    rewrite dom_insert_L, dom_delete_L, Hk. symmetry. apply list_to_set_rename.
    apply (keys_match_elem w a Hk). eauto.
  - unfold _delete_field_schema in Hrun.
    destruct (_fields w !! a) as [f|] eqn:Hf;
      inversion Hrun; subst; clear Hrun; [|done].
    unfold keys_match in *; simpl.
    rewrite dom_delete_L, Hk. symmetry. apply list_to_set_remove.
Qed.

(** One operation whose rename target is free preserves the absence of
    duplicates. *)
Lemma run_op_NoDup cls op w r w' :
  keys_match w → NoDup (_fields_ordered w) →
  match op with
  | RenameFieldSchema a b => b = a ∨ _fields w !! b = None
  | _ => True
  end →
  run_op cls op w = (r, w') → NoDup (_fields_ordered w').
Proof.
  intros Hk Hnd Hfresh Hrun. destruct op as [field | a b | a]; simpl in Hrun.
  - unfold bind, _declare_field, ret in Hrun.
    destruct (_fields w !! name field) as [p|] eqn:Hp;
      inversion Hrun; subst; clear Hrun; simpl; [done|].
    apply NoDup_app. split; [done|]. split; [|apply NoDup_singleton].
    intros x Hx ->%list_elem_of_singleton.
    apply (keys_match_elem w _ Hk) in Hx. rewrite Hp in Hx. by destruct Hx.
  - unfold _rename_field_schema in Hrun.
    destruct (_fields w !! a) as [f|] eqn:Hf;
      inversion Hrun; subst; clear Hrun; [|done]. simpl.
    apply NoDup_fmap_2_strong; [|done].
    intros x y Hx Hy. repeat case_decide; try congruence.
    + intros ->. destruct Hfresh as [->|Hnone]; [congruence|].
      apply (keys_match_elem w _ Hk) in Hx. rewrite Hnone in Hx. by destruct Hx.
    + intros <-. destruct Hfresh as [->|Hnone]; [congruence|].
      apply (keys_match_elem w _ Hk) in Hy. rewrite Hnone in Hy. by destruct Hy.
  - unfold _delete_field_schema in Hrun.
    destruct (_fields w !! a) as [f|] eqn:Hf;
      inversion Hrun; subst; clear Hrun; [|done]. simpl.
    by apply NoDup_filter.
Qed.

Lemma for_each_keys_match cls ops w r w' :
  keys_match w → for_each ops (run_op cls) w = (r, w') → keys_match w'.
Proof.
  revert w. induction ops as [|op ops IH]; intros w Hk Hrun.
  - inversion Hrun; by subst.
  - rewrite for_each_cons in Hrun.
    destruct (run_op cls op w) as [[e|[]] w1] eqn:Hop.
    + inversion Hrun; subst. eauto using run_op_keys_match.
    + eauto using run_op_keys_match.
Qed.

Lemma for_each_NoDup cls ops w r w' :
  keys_match w → NoDup (_fields_ordered w) → renames_fresh cls ops w →
  for_each ops (run_op cls) w = (r, w') → NoDup (_fields_ordered w').
Proof.
  revert w. induction ops as [|op ops IH]; intros w Hk Hnd Hfresh Hrun.
  - inversion Hrun; by subst.
  - rewrite for_each_cons in Hrun. destruct Hfresh as [Hop1 Hrest].
    destruct (run_op cls op w) as [[e|[]] w1] eqn:Hop.
    + inversion Hrun; subst. eapply run_op_NoDup; eauto.
    + eapply IH; [| |exact Hrest|exact Hrun].
      * eauto using run_op_keys_match.
      * eapply run_op_NoDup; eauto.
Qed.

Lemma rename_positions_kept cls a b w w' :
  _rename_field_schema cls a b w = (inr tt, w') → positions_kept a b w w'.
Proof.
  unfold _rename_field_schema. intros Hrun.
  destruct (_fields w !! a) as [f|]; inversion Hrun; subst; clear Hrun.
  split; simpl.
  - by rewrite length_fmap.
  - intros i fn Hi. rewrite list_lookup_fmap, Hi. simpl.
    repeat case_decide; congruence.
Qed.

(** Every operation keeps each descriptor registered under its own
name. *)
Lemma run_op_names_match cls op w r w' :
  names_match w → run_op cls op w = (r, w') → names_match w'.
Proof.
  intros Hn Hrun k f. destruct op as [field | a b | a]; simpl in Hrun.
  - unfold bind, _declare_field, ret in Hrun.
    destruct (_fields w !! name field) as [p|] eqn:Hp;
      inversion Hrun; subst; clear Hrun; simpl;
      (destruct (decide (k = name field)) as [->|Hne];
       [rewrite lookup_insert_eq; by intros [= <-]
       |rewrite lookup_insert_ne, lookup_delete_ne by done; apply Hn]).
  - unfold _rename_field_schema in Hrun.
    destruct (_fields w !! a) as [fa|] eqn:Hf;
      inversion Hrun; subst; clear Hrun; [|apply Hn]. simpl.
    destruct (decide (k = b)) as [->|Hne].
    + rewrite lookup_insert_eq. by intros [= <-].
    + rewrite lookup_insert_ne by done. intros Hk.
      apply lookup_delete_Some in Hk as [_ Hk]. by apply Hn.
  - unfold _delete_field_schema in Hrun.
    destruct (_fields w !! a) as [fa|] eqn:Hf;
      inversion Hrun; subst; clear Hrun; [|apply Hn]. simpl.
    intros Hk. apply lookup_delete_Some in Hk as [_ Hk]. by apply Hn.
Qed.

(** C4 (as amended): after every sequence of registry operations run on
    a registry whose keys are the names of its ordered sequence, the keys
    of [_fields] are again the names of [_fields_ordered]; the sequence
    stays free of duplicates provided every rename targets a name that is
    free when it runs; and a rename keeps every position of the ordered
    sequence, the renamed field's included. *)
Theorem registry_invariant_preserved cls ops w r w' :
  keys_match w → NoDup (_fields_ordered w) →
  for_each ops (run_op cls) w = (r, w') →
  keys_match w'
  ∧ (renames_fresh cls ops w → NoDup (_fields_ordered w'))
  ∧ (∀ a b v v', _rename_field_schema cls a b v = (inr tt, v') → positions_kept a b v v').
Proof.
  intros Hk Hnd Hrun. split; [|split].
  - eauto using for_each_keys_match.
  - intros Hfresh. eauto using for_each_NoDup.
  - intros a b v v'. apply rename_positions_kept.
Qed.

Lemma registry_invariant_preserved_witness :
  let w' := (for_each ops_rename_to_free (run_op demo_cls) empty_world).2 in
  _fields_ordered w' = ["c"] ∧ keys_match w' ∧ NoDup (_fields_ordered w').
Proof.
  destruct (registry_invariant_preserved demo_cls ops_rename_to_free empty_world
              (inr tt) (for_each ops_rename_to_free (run_op demo_cls) empty_world).2)
    as (Hk & Hnd & _).
  - reflexivity.
  - constructor.
  - vm_compute. reflexivity.
  - split; [vm_compute; reflexivity|]. split; [exact Hk|].
    apply Hnd. vm_compute. repeat split; right; reflexivity.
Defined.

(** C4, counterexample: renaming [a] onto the existing name [b] leaves
    the name [b] twice in [_fields_ordered]. *)
Lemma registry_rename_onto_existing_counterexample :
  let res := for_each ops_rename_onto_existing (run_op demo_cls) empty_world in
  keys_match empty_world ∧ NoDup (_fields_ordered empty_world)
  ∧ res.1 = inr tt
  ∧ _fields_ordered res.2 = ["b"; "b"]
  ∧ ¬ NoDup (_fields_ordered res.2).
Proof.
  split; [reflexivity|]. split; [constructor|]. split; [vm_compute; reflexivity|].
  split; [vm_compute; reflexivity|].
  change (_fields_ordered _) with ["b"; "b"].
  intros Hnd. apply NoDup_cons in Hnd as [Hnin _]. apply Hnin. left.
Qed.

(** ** Renaming there and back *)

Lemma underscore_prefix_ne (s : string) : s ≠ "_" +:+ s.
Proof.
  intros Heq. change ("_" +:+ s) with (String "_"%char s) in Heq.
  apply (f_equal String.length) in Heq. simpl in Heq. lia.
Qed.

Lemma cls_rename_field_schema_lookup cls a b s f :
  _fields (world s) !! a = Some f → a ∈ attributes s →
  ∃ s1, cls_rename_field_schema cls true a b s = (inr tt, s1)
        ∧ _fields (world s1) !! b
          = Some (set_db_field (_get_db_field f b) (set_name b f))
        ∧ b ∈ attributes s1.
Proof.
  intros Hf Ha. unfold cls_rename_field_schema. rewrite Hf.
  rewrite decide_True by exact Ha.
  eexists. split; [reflexivity|]. simpl.
  split; [apply lookup_insert_eq|]. apply elem_of_union_l, elem_of_singleton. reflexivity.
Qed.




(** ** Batch operations validate before they apply *)

Lemma same_but_group_field_refl w : same_but_group_field w w.
Proof. exists (group_field (dataset_doc w)). by destruct w as [? ? [] ? ? ?]. Qed.

Lemma same_but_group_field_set w w' g :
  same_but_group_field w w' →
  same_but_group_field w (set_dataset_doc (set_group_field g (dataset_doc w')) w').
Proof. intros [g' ->]. exists g. reflexivity. Qed.

Lemma same_but_group_field_nothing_applied w w' :
  same_but_group_field w w' → nothing_applied w w'.
Proof. intros [g ->]. repeat split. Qed.

Section BatchProofs.
Context {types : FieldTypeSystem}.
Variable cls : DocClass.

Lemma get_default_fields_None :
  _get_default_fields cls None = inr (list_to_set (base_fields_ordered cls)).
Proof. reflexivity. Qed.

Lemma rename_violation_same w0 w p :
  same_but_group_field w0 w → rename_violation cls w p = rename_violation cls w0 p.
Proof. intros [g ->]. reflexivity. Qed.

(** One iteration of the first loop of [_rename_fields] raises exactly
    the pair's violation and otherwise touches the group-field
    designation only. *)
Lemma rename_check_spec w p :
  ∃ w', same_but_group_field w w'
    ∧ rename_check cls (list_to_set (base_fields_ordered cls))
        (media_type (dataset_doc w)) p w
      = (match rename_violation cls w p with Some e => inl e | None => inr tt end, w').
Proof.
  destruct p as [old new]. unfold rename_check, rename_violation, bind, get_world, raise.
  destruct (decide (old ∈ base_fields_ordered cls)) as [Hd|Hd].
  { rewrite decide_True by (by apply elem_of_list_to_set).
    eexists; split; [apply same_but_group_field_refl|reflexivity]. }
  rewrite decide_False by (by rewrite elem_of_list_to_set).
  destruct (_fields w !! old) as [ef|] eqn:Hold.
  2:{ destruct (decide (None = None)) as [_|?]; [|done].
      eexists; split; [apply same_but_group_field_refl|reflexivity]. }
  destruct (decide (Some ef = None)) as [?|_]; [done|].
  destruct (decide (is_Some (_fields w !! new))).
  { eexists; split; [apply same_but_group_field_refl|reflexivity]. }
  destruct (validate_field_name new _ _).
  { eexists; split; [apply same_but_group_field_refl|reflexivity]. }
  destruct (is_group_field ef).
  - eexists; split; [|reflexivity].
    apply same_but_group_field_set, same_but_group_field_refl.
  - eexists; split; [apply same_but_group_field_refl|reflexivity].
Qed.

Lemma clone_check_spec w p :
  clone_check cls (media_type (dataset_doc w)) p w
  = (match clone_violation cls w p with Some e => inl e | None => inr tt end, w).
Proof.
  destruct p as [old new]. unfold clone_check, clone_violation, bind, get_world, raise.
  destruct (_fields w !! old) as [ef|]; [|done].
  destruct (decide (is_Some (_fields w !! new))); [done|].
  destruct (is_group_field ef); [done|].
  by destruct (validate_field_name new _ _).
Qed.

Lemma rename_checks_spec pairs w0 w :
  same_but_group_field w0 w →
  ∃ w', same_but_group_field w0 w'
    ∧ for_each pairs
        (rename_check cls (list_to_set (base_fields_ordered cls))
           (media_type (dataset_doc w0))) w
      = (match first_violation (rename_violation cls w0) pairs with
         | Some (_, e) => inl e
         | None => inr tt
         end, w').
Proof.
  revert w. induction pairs as [|p pairs IH]; intros w Hw.
  { exists w. split; [done|reflexivity]. }
  rewrite for_each_cons. simpl.
  destruct (rename_check_spec w p) as (w1 & Hw1 & Hcheck).
  assert (media_type (dataset_doc w) = media_type (dataset_doc w0)) as Hmt
    by (by destruct Hw as [g ->]).
  rewrite Hmt in Hcheck. rewrite Hcheck.
  rewrite (rename_violation_same w0 w p Hw).
  assert (same_but_group_field w0 w1) as Hw01.
  { destruct Hw as [g ->]. destruct Hw1 as [g1 ->]. by exists g1. }
  destruct (rename_violation cls w0 p) as [e|].
  - exists w1. split; [done|reflexivity].
  - apply IH, Hw01.
Qed.

Lemma clone_checks_spec pairs w :
  for_each pairs (clone_check cls (media_type (dataset_doc w))) w
  = (match first_violation (clone_violation cls w) pairs with
     | Some (_, e) => inl e
     | None => inr tt
     end, w).
Proof.
  induction pairs as [|p pairs IH]; [reflexivity|].
  rewrite for_each_cons, clone_check_spec. simpl.
  destruct (clone_violation cls w p); [reflexivity|apply IH].
Qed.

Lemma first_violation_In check pairs p e :
  first_violation check pairs = Some (p, e) → p ∈ pairs ∧ check p = Some e.
Proof.
  induction pairs as [|q pairs IH]; simpl; [done|].
  destruct (check q) eqn:Hq.
  - intros [= -> ->]. split; [left|done].
  - intros Hf. destruct (IH Hf). split; [by right|done].
Qed.

Lemma rename_violation_names w old new e :
  rename_violation cls w (old, new) = Some e → error_names e old ∨ error_names e new.
Proof.
  unfold rename_violation. repeat case_decide; try (intros [= <-]; simpl; by auto).
  destruct (validate_field_name new _ _); intros [= <-]; simpl; by auto.
Qed.

Lemma clone_violation_names w old new e :
  clone_violation cls w (old, new) = Some e → error_names e old ∨ error_names e new.
Proof.
  unfold clone_violation. destruct (_fields w !! old); [|intros [= <-]; simpl; by auto].
  case_decide; [intros [= <-]; simpl; by auto|].
  destruct (is_group_field _); [intros [= <-]; simpl; by auto|].
  destruct (validate_field_name new _ _); intros [= <-]; simpl; by auto.
Qed.
End BatchProofs.

Lemma first_violation_None check pairs :
  first_violation check pairs = None → ∀ p, p ∈ pairs → check p = None.
Proof.
  induction pairs as [|q pairs IH]; simpl; intros Hf p Hp.
  - by apply elem_of_nil in Hp.
  - destruct (check q) eqn:Hq; [done|].
    apply elem_of_cons in Hp as [->|Hp]; [done|by apply IH].
Qed.

Lemma rename_fields_unfold {types : FieldTypeSystem} cls field_names new_field_names w :
  ∃ w0, same_but_group_field w w0
    ∧ _rename_fields cls field_names new_field_names w
      = match first_violation (rename_violation cls w) (zip field_names new_field_names) with
        | Some (_, e) => (inl e, w0)
        | None => rename_apply cls field_names new_field_names w0
        end.
Proof.
  destruct (rename_checks_spec cls (zip field_names new_field_names) w w
              (same_but_group_field_refl w)) as (w0 & Hw0 & Hloop).
  exists w0. split; [done|].
  unfold _rename_fields, bind, get_world, lift.
  rewrite get_default_fields_None, Hloop.
  by destruct (first_violation _ _) as [[p e]|].
Qed.

Lemma clone_fields_unfold {types : FieldTypeSystem} cls field_names new_field_names sc w :
  _clone_fields cls field_names new_field_names sc w
  = match first_violation (clone_violation cls w) (zip field_names new_field_names) with
    | Some (_, e) => (inl e, w)
    | None => clone_apply cls field_names new_field_names sc w
    end.
Proof.
  unfold _clone_fields, bind, get_world. rewrite clone_checks_spec.
  by destruct (first_violation _ _) as [[p e]|].
Qed.

(** A batch with a violated check raises the first one and applies
nothing. *)
Lemma rename_fields_violation {types : FieldTypeSystem} cls field_names new_field_names
    w p e :
  first_violation (rename_violation cls w) (zip field_names new_field_names)
  = Some (p, e) →
  ∃ w', _rename_fields cls field_names new_field_names w = (inl e, w')
    ∧ nothing_applied w w'.
Proof.
  intros Hf.
  destruct (rename_fields_unfold cls field_names new_field_names w) as (w0 & Hw0 & Hren).
  exists w0. rewrite Hren, Hf. split; [done|].
  by apply same_but_group_field_nothing_applied.
Qed.

(** C1: in [_rename_fields] and in [_clone_fields] the checks of all
    pairs run before anything is applied. When some pair violates a check,
    the call raises the error of the first violated check, which names
    that pair's old or new field, and storage, the field registry and the
    persisted dataset document are unchanged; when no pair does, the call
    is the apply phase (storage first, then the schema). Hence a call that
    changed storage or the registry found every pair valid. *)
Theorem batch_validates_before_applying {types : FieldTypeSystem} cls
    field_names new_field_names sample_collection w :
  let pairs := zip field_names new_field_names in
  (∀ p e, first_violation (rename_violation cls w) pairs = Some (p, e) →
     ∃ w', _rename_fields cls field_names new_field_names w = (inl e, w')
       ∧ nothing_applied w w'
       ∧ p ∈ pairs ∧ (error_names e p.1 ∨ error_names e p.2))
  ∧ (first_violation (rename_violation cls w) pairs = None →
     ∃ w0, same_but_group_field w w0
       ∧ _rename_fields cls field_names new_field_names w
         = rename_apply cls field_names new_field_names w0)
  ∧ (∀ r w', _rename_fields cls field_names new_field_names w = (r, w') →
     ¬ nothing_applied w w' → ∀ p, p ∈ pairs → rename_violation cls w p = None)
  ∧ (∀ p e, first_violation (clone_violation cls w) pairs = Some (p, e) →
     _clone_fields cls field_names new_field_names sample_collection w = (inl e, w)
     ∧ p ∈ pairs ∧ (error_names e p.1 ∨ error_names e p.2))
  ∧ (first_violation (clone_violation cls w) pairs = None →
     _clone_fields cls field_names new_field_names sample_collection w
     = clone_apply cls field_names new_field_names sample_collection w)
  ∧ (∀ r w', _clone_fields cls field_names new_field_names sample_collection w = (r, w') →
     w' ≠ w → ∀ p, p ∈ pairs → clone_violation cls w p = None).
Proof.
  intros pairs.
  destruct (rename_fields_unfold cls field_names new_field_names w) as (w0 & Hw0 & Hren).
  pose proof (clone_fields_unfold cls field_names new_field_names sample_collection w)
    as Hclo.
  fold pairs in Hren, Hclo.
  split; [|split; [|split; [|split; [|split]]]].
  - intros p e Hf. exists w0. rewrite Hren, Hf. split; [done|].
    split; [by apply same_but_group_field_nothing_applied|].
    apply first_violation_In in Hf as [Hin Hv]. split; [done|].
    destruct p. by eapply rename_violation_names.
  - intros Hnone. exists w0. by rewrite Hren, Hnone.
  - intros r w' Hrun Hchanged.
    destruct (first_violation (rename_violation cls w) pairs) as [[q e]|] eqn:Hf.
    + rewrite Hren in Hrun. inversion Hrun; subst.
      destruct Hchanged. by apply same_but_group_field_nothing_applied.
    + by apply first_violation_None.
  - intros p e Hf. rewrite Hclo, Hf. split; [done|].
    apply first_violation_In in Hf as [Hin Hv]. split; [done|].
    destruct p. by eapply clone_violation_names.
  - intros Hnone. by rewrite Hclo, Hnone.
  - intros r w' Hrun Hchanged.
    destruct (first_violation (clone_violation cls w) pairs) as [[q e]|] eqn:Hf.
    + rewrite Hclo in Hrun. inversion Hrun; by subst.
    + by apply first_violation_None.
Qed.

Lemma batch_validates_before_applying_witness :
  (∃ w', _rename_fields (types := demo_types) demo_cls ["a"; "id"] ["c"; "x"] world_ab
         = (inl (ValueError (CannotRenameDefault "sample" "id")), w')
       ∧ nothing_applied world_ab w')
  ∧ _clone_fields (types := demo_types) demo_cls ["a"] ["c"] None world_ab
    = clone_apply demo_cls ["a"] ["c"] None world_ab.
Proof.
  split.
  - destruct (batch_validates_before_applying (types := demo_types) demo_cls
                ["a"; "id"] ["c"; "x"] None world_ab) as (Hfail & _).
    destruct (Hfail ("id", "x") (ValueError (CannotRenameDefault "sample" "id")))
      as (w' & Hrun & Hframe & _); [vm_compute; reflexivity|].
    exists w'. split; [exact Hrun|exact Hframe].
  - destruct (batch_validates_before_applying (types := demo_types) demo_cls
                ["a"] ["c"] None world_ab) as (_ & _ & _ & _ & Hpass & _).
    apply Hpass. vm_compute. reflexivity.
Defined.

(** What a failed rename can still change: the checks of [_rename_fields]
    move the group-field designation of the in-memory dataset document as
    they go, so a batch that renames the group field and then fails on a
    later pair leaves the designation on the new name, with no field
    renamed and nothing saved. *)
Example rename_failure_moves_group_designation :
  let res := _rename_fields (types := demo_types) demo_cls
               ["group"; "missing"] ["g2"; "x"] grouped_world in
  res.1 = inl (AttributeError (FieldDoesNotExist "Sample" "missing"))
  ∧ group_field (dataset_doc grouped_world) = Some "group"
  ∧ group_field (dataset_doc res.2) = Some "g2"
  ∧ group_field (saved res.2) = Some "group"
  ∧ _fields_ordered res.2 = ["a"; "b"; "group"].
Proof. repeat split; vm_compute; reflexivity. Qed.

(** ** Merging a schema *)

Lemma PyDict_keys_set {V} (k : string) (v : V) (d : list (string * V)) (x : string) :
  x ∈ PyDict.keys (PyDict.set k v d) ↔ x = k ∨ x ∈ PyDict.keys d.
Proof.
  unfold PyDict.keys. induction d as [|[k' v'] d IH]; simpl.
  - rewrite list_elem_of_singleton. set_solver.
  - case_decide; subst; simpl; rewrite !elem_of_cons; [|rewrite IH]; tauto.
Qed.

Lemma PyDict_keys_update {V} (d d2 : list (string * V)) (x : string) :
  x ∈ PyDict.keys (PyDict.update d d2) ↔ x ∈ PyDict.keys d ∨ x ∈ PyDict.keys d2.
Proof.
  unfold PyDict.update. revert d. induction d2 as [|[k v] d2 IH]; intros d; simpl.
  - unfold PyDict.keys. simpl. rewrite elem_of_nil. tauto.
  - rewrite IH, PyDict_keys_set. unfold PyDict.keys. simpl.
    rewrite elem_of_cons. tauto.
Qed.

Section MergeProofs.
Context {types : FieldTypeSystem}.
Variable cls : DocClass.

(** What the first loop collects contains what every path contributed
and what was there before. *)
Lemma collect_new_schema_keys schema acc validate recursive w new_schema :
  collect_new_schema cls schema acc validate recursive w = inr new_schema →
  (∀ k, k ∈ PyDict.keys acc → k ∈ PyDict.keys new_schema)
  ∧ ∀ path field, (path, field) ∈ schema →
      ∃ new_fields, _merge_field cls path field validate recursive w = inr new_fields
        ∧ ∀ k, k ∈ PyDict.keys new_fields → k ∈ PyDict.keys new_schema.
Proof.
  revert acc. induction schema as [|[p f] schema IH]; intros acc; simpl.
  - intros [= ->]. split; [done|]. intros path field Hin. by apply elem_of_nil in Hin.
  - destruct (_merge_field cls p f validate recursive w) as [e|nf] eqn:Hm; simpl; [done|].
    intros Hc. destruct (IH _ Hc) as [Hacc Hrest]. split.
    + intros k Hk. apply Hacc, PyDict_keys_update. by left.
    + intros path field [[= -> ->]|Hin]%elem_of_cons.
      * exists nf. split; [done|]. intros k Hk. apply Hacc, PyDict_keys_update. by right.
      * by apply Hrest.
Qed.

Lemma collect_new_schema_fails schema acc validate recursive w e :
  collect_new_schema cls schema acc validate recursive w = inl e →
  ∃ path field, (path, field) ∈ schema
    ∧ _merge_field cls path field validate recursive w = inl e.
Proof.
  revert acc. induction schema as [|[p f] schema IH]; intros acc; simpl; [done|].
  destruct (_merge_field cls p f validate recursive w) as [e'|nf] eqn:Hm; simpl.
  - intros [= ->]. exists p, f. split; [left|done].
  - intros Hc. destruct (IH _ Hc) as (path & field & Hin & Hm').
    exists path, field. split; [by right|done].
Qed.

Lemma merge_field_schema_unfold schema expand_schema recursive validate w :
  merge_field_schema cls schema expand_schema recursive validate w
  = match collect_new_schema cls schema [] validate recursive w with
    | inl e => (inl e, w)
    | inr [] => (inr false, w)
    | inr new_schema =>
        if negb expand_schema
        then (inl (ValueError (FieldsDoNotExist (_doc_name cls) (PyDict.keys new_schema))), w)
        else (exec for_each new_schema (λ pf, _add_field_schema cls pf.1 pf.2);
              exec save; ret true) w
    end.
Proof.
  unfold merge_field_schema, bind, get_world, lift.
  destruct (collect_new_schema cls schema [] validate recursive w) as [e|[|? ?]]; try done.
  by destruct expand_schema.
Qed.

(** C5 (as amended): a call of [merge_field_schema] with
[expand_schema=False] never changes anything: no field is added to the
registry or to the dataset document and nothing is saved. If some path
of the input resolves to a new field, the call fails; the error is the
one raised by the merge of a path when one raises, and otherwise the
error that lists every new path. *)
Theorem merge_without_expansion schema recursive validate w :
  let res := merge_field_schema cls schema false recursive validate w in
  res.2 = w
  ∧ res.1 ≠ inr true
  ∧ (∀ path field new_fields,
       (path, field) ∈ schema →
       _merge_field cls path field validate recursive w = inr new_fields →
       new_fields ≠ [] → ∃ e, res.1 = inl e)
  ∧ (∀ new_schema,
       collect_new_schema cls schema [] validate recursive w = inr new_schema →
       new_schema ≠ [] →
       res.1 = inl (ValueError (FieldsDoNotExist (_doc_name cls) (PyDict.keys new_schema)))
       ∧ ∀ path field new_fields,
           (path, field) ∈ schema →
           _merge_field cls path field validate recursive w = inr new_fields →
           ∀ k, k ∈ PyDict.keys new_fields → k ∈ PyDict.keys new_schema)
  ∧ (∀ e, collect_new_schema cls schema [] validate recursive w = inl e →
       res.1 = inl e
       ∧ ∃ path field, (path, field) ∈ schema
           ∧ _merge_field cls path field validate recursive w = inl e).
Proof.
  intros res. subst res. rewrite merge_field_schema_unfold.
  destruct (collect_new_schema cls schema [] validate recursive w)
    as [e|new_schema] eqn:Hc.
  - split; [done|]. split; [done|]. split; [eauto|]. split; [done|].
    intros e' [= <-]. split; [done|]. by eapply collect_new_schema_fails.
  - destruct (collect_new_schema_keys _ _ _ _ _ _ Hc) as [_ Hpaths].
    assert (∀ path field new_fields, (path, field) ∈ schema →
              _merge_field cls path field validate recursive w = inr new_fields →
              ∀ k, k ∈ PyDict.keys new_fields → k ∈ PyDict.keys new_schema) as Hsub.
    { intros path field nf Hin Hm k Hk.
      destruct (Hpaths path field Hin) as (nf' & Hm' & Hk').
      rewrite Hm in Hm'. injection Hm' as <-. by apply Hk'. }
    destruct new_schema as [|kv new_schema]; simpl.
    + split; [done|]. split; [done|].
      split; [|split; [by intros ns [= <-] Hne|done]].
      intros path field [|[k v] nf] Hin Hm Hne; [done|].
      specialize (Hsub path field _ Hin Hm k). unfold PyDict.keys in Hsub. simpl in Hsub.
      exfalso. eapply not_elem_of_nil, Hsub. left.
    + split; [done|]. split; [done|]. split; [eauto|]. split; [|done].
      intros ns [= <-] _. split; [done|]. exact Hsub.
Qed.
End MergeProofs.

Lemma merge_without_expansion_witness :
  let schema := [("c", int_c); ("a", int_a)] in
  (merge_field_schema (types := demo_types) demo_cls schema false true true world_ab).1
  = inl (ValueError (FieldsDoNotExist "Sample" ["c"]))
  ∧ (merge_field_schema (types := demo_types) demo_cls schema false true true world_ab).2
    = world_ab.
Proof.
  destruct (merge_without_expansion (types := demo_types) demo_cls
              [("c", int_c); ("a", int_a)] true true world_ab)
    as (Hframe & _ & _ & Hlist & _).
  split; [|exact Hframe].
  destruct (Hlist [("c", int_c)]) as [Herr _];
    [vm_compute; reflexivity|discriminate|exact Herr].
Defined.

(** C5, counterexample: [c] resolves to a new field, but the path [x.y]
does not resolve, so the error of the call is the one raised for [x.y]
and does not list [c]. *)
Lemma merge_without_expansion_preempted_counterexample :
  let schema := [("c", int_c); ("x.y", int_b)] in
  let res := merge_field_schema (types := demo_types) demo_cls schema false true true
               world_ab in
  _merge_field (types := demo_types) demo_cls "c" int_c true true world_ab
  = inr [("c", int_c)]
  ∧ res.1 = inl (ValueError (CannotInferType "Sample" "x" "x.y"))
  ∧ ¬ error_names (ValueError (CannotInferType "Sample" "x" "x.y")) "c".
Proof.
  split; [vm_compute; reflexivity|]. split; [vm_compute; reflexivity|].
  simpl. intros [?|?]; discriminate.
Qed.

Section MergeFieldProofs.
Context {types : FieldTypeSystem}.
Variable cls : DocClass.

Lemma merge_field_schema_single path field expand_schema recursive validate w :
  merge_field_schema cls [(path, field)] expand_schema recursive validate w
  = match _merge_field cls path field validate recursive w with
    | inl e => (inl e, w)
    | inr [] => (inr false, w)
    | inr new_schema =>
        if negb expand_schema
        then (inl (ValueError (FieldsDoNotExist (_doc_name cls)
                                 (PyDict.keys (PyDict.update [] new_schema)))), w)
        else (exec for_each (PyDict.update [] new_schema)
                     (λ pf, _add_field_schema cls pf.1 pf.2);
              exec save; ret true) w
    end.
Proof.
  rewrite merge_field_schema_unfold. unfold collect_new_schema, rbind.
  destruct (_merge_field cls path field validate recursive w) as [e|[|[k v] nf]];
    [done|done|].
  destruct (PyDict.update [] ((k, v) :: nf)) as [|kv rest] eqn:Hu; [|done].
  pose proof (proj2 (PyDict_keys_update [] ((k, v) :: nf) k)) as Hk.
  rewrite Hu in Hk. exfalso. eapply not_elem_of_nil, Hk. right. left.
Qed.

(** C3 (as amended): for every path present in the schema with
descriptor [F], unless [F] is an identifier field whose leaf name
begins with an underscore, merging [{path: F}] returns [False] and
changes nothing, the registry mapping and the ordered names included.
The two collaborators are taken to accept an identical descriptor:
[validate_fields_match] passes on [F] against itself and the embedded
merge of [F] into itself reports no new field. *)
Theorem merge_existing_is_idempotent w path F expand_schema recursive validate :
  present cls w path F →
  is_ObjectIdField F && PyStr.startswith (split_path path).2 "_" = false →
  (validate = true → validate_fields_match path F F = None) →
  (recursive = true → is_EmbeddedDocumentField F = true →
   _merge_fields F path F validate recursive = inr []) →
  merge_field_schema cls [(path, F)] expand_schema recursive validate w = (inr false, w).
Proof.
  intros (schema & Hwalk & Hleaf) Hname Hmatch Hself.
  rewrite merge_field_schema_single.
  assert (_merge_field cls path F validate recursive w = inr []) as ->; [|done].
  unfold _merge_field. destruct (split_path path) as [chunks last]. simpl in *.
  rewrite Hwalk. simpl. rewrite Hname.
  case_decide; [done|]. rewrite Hleaf.
  destruct recursive, (is_EmbeddedDocumentField F); simpl.
  - by rewrite Hself.
  - destruct validate; [by rewrite Hmatch|done].
  - destruct validate; [by rewrite Hmatch|done].
  - destruct validate; [by rewrite Hmatch|done].
Qed.

Lemma merge_field_new w path field validate recursive :
  names_new_field cls w path field →
  _merge_field cls path field validate recursive w
  = if is_group_field field then
      if _is_frames_doc cls
      then inl (ValueError (FrameLevelGroupField (merge_name path field)))
      else match group_field (dataset_doc w) with
           | Some g =>
               if decide (g = merge_name path field) then inr [(path, field)]
               else inl (ValueError (SecondGroupField (merge_name path field)))
           | None => inr [(path, field)]
           end
    else inr [(path, field)].
Proof.
  intros (schema & Hwalk & Hnone & Hid & Hvalid).
  unfold _merge_field, merge_name in *.
  destruct (split_path path) as [chunks last]. simpl in *.
  rewrite Hwalk. simpl. rewrite decide_False by done. by rewrite Hnone, Hvalid.
Qed.

(** C7 (as amended): merging a group-typed field under a new name (its
path resolves, the name is not in the schema yet and passes the naming
rules) fails on the frame-level class; on the sample-level class it
fails with the one-group-field conflict whenever the dataset document
designates a different group field, and succeeds when it designates
this name or none, in which case a top-level field is added by
[merge_field_schema]. *)
Theorem merge_group_field w path field validate recursive :
  names_new_field cls w path field → is_group_field field = true →
  let field_name := merge_name path field in
  (_is_frames_doc cls = true →
     ∀ expand_schema,
       merge_field_schema cls [(path, field)] expand_schema recursive validate w
       = (inl (ValueError (FrameLevelGroupField field_name)), w))
  ∧ (_is_frames_doc cls = false →
     ∀ g expand_schema, group_field (dataset_doc w) = Some g → g ≠ field_name →
       merge_field_schema cls [(path, field)] expand_schema recursive validate w
       = (inl (ValueError (SecondGroupField field_name)), w))
  ∧ (_is_frames_doc cls = false →
     group_field (dataset_doc w) = None ∨ group_field (dataset_doc w) = Some field_name →
     _merge_field cls path field validate recursive w = inr [(path, field)]
     ∧ ((split_path path).1 = [] →
        ∃ w', merge_field_schema cls [(path, field)] true recursive validate w
              = (inr true, w')
          ∧ is_Some (_fields w' !! (split_path path).2))).
Proof.
  intros Hnew Hgroup field_name.
  pose proof (merge_field_new w path field validate recursive Hnew) as Hm.
  rewrite Hgroup in Hm. fold field_name in Hm.
  split; [|split].
  - intros Hframes expand_schema. rewrite merge_field_schema_single, Hm, Hframes. done.
  - intros Hsamples g expand_schema Hg Hne.
    rewrite merge_field_schema_single, Hm, Hsamples, Hg.
    by rewrite decide_False.
  - intros Hsamples Hfree.
    assert (_merge_field cls path field validate recursive w = inr [(path, field)])
      as Hok.
    { rewrite Hm, Hsamples. destruct Hfree as [-> | ->]; [done|].
      by rewrite decide_True. }
    split; [exact Hok|]. intros Htop.
    rewrite merge_field_schema_single, Hok. simpl.
    unfold bind, _add_field_schema. simpl.
    destruct (split_path path) as [chunks last]. simpl in Htop. subst chunks. simpl.
    destruct (_declare_field _ w) as [[e|f2] w1] eqn:Hdecl.
    + unfold _declare_field in Hdecl.
      destruct (_fields w !! _); inversion Hdecl.
    + unfold for_each, bind, ret, save, modify. simpl.
      eexists. split; [reflexivity|]. simpl.
      unfold _declare_field in Hdecl.
      destruct (_fields w !! _); inversion Hdecl; subst; simpl;
        rewrite lookup_insert_eq; eauto.
Qed.
End MergeFieldProofs.

Lemma merge_existing_is_idempotent_witness :
  merge_field_schema (types := demo_types) demo_cls [("dets.label", label_field)]
    true true true dets_world
  = (inr false, dets_world)
  ∧ merge_field_schema (types := demo_types) demo_cls [("dets", dets_field)]
      false true true dets_world
    = (inr false, dets_world).
Proof.
  split.
  - apply (merge_existing_is_idempotent (types := demo_types) demo_cls dets_world
             "dets.label" label_field true true true).
    + eexists. split; [vm_compute; reflexivity|]. vm_compute. reflexivity.
    + reflexivity.
    + reflexivity.
    + discriminate.
  - apply (merge_existing_is_idempotent (types := demo_types) demo_cls dets_world
             "dets" dets_field false true true).
    + eexists. split; [vm_compute; reflexivity|]. vm_compute. reflexivity.
    + reflexivity.
    + reflexivity.
    + reflexivity.
Defined.

(** C3, counterexample: the frame registry holds the identifier field
[_sample_id]; merging it again under the same path looks up [sample_id],
finds nothing, and adds the field once more: the call returns [True] and
the dataset document lists the field twice. *)
Lemma merge_existing_private_id_counterexample :
  let res := merge_field_schema (types := demo_types) demo_frames_cls
               [("_sample_id", frame_sample_id)] true true true frames_world in
  present demo_frames_cls frames_world "_sample_id" frame_sample_id
  ∧ validate_fields_match (FieldTypeSystem := demo_types)
      "_sample_id" frame_sample_id frame_sample_id = None
  ∧ res.1 = inr true
  ∧ frame_fields (dataset_doc res.2) = [frame_sample_id; frame_sample_id]
  ∧ frame_fields (dataset_doc frames_world) = [frame_sample_id].
Proof.
  split.
  { eexists. split; [vm_compute; reflexivity|]. vm_compute. reflexivity. }
  repeat split; vm_compute; reflexivity.
Qed.

Lemma merge_group_field_witness :
  (∀ expand_schema,
     merge_field_schema (types := demo_types) demo_frames_cls
       [("g", new_group_field "g")] expand_schema true true frames_world
     = (inl (ValueError (FrameLevelGroupField "g")), frames_world))
  ∧ (∀ expand_schema,
     merge_field_schema (types := demo_types) demo_cls
       [("g", new_group_field "g")] expand_schema true true grouped_world
     = (inl (ValueError (SecondGroupField "g")), grouped_world))
  ∧ _merge_field (types := demo_types) demo_cls "g" (new_group_field "g") true true world_ab
    = inr [("g", new_group_field "g")].
Proof.
  split; [|split].
  - destruct (merge_group_field (types := demo_types) demo_frames_cls frames_world
                "g" (new_group_field "g") true true) as (Hframes & _).
    + eexists. split; [vm_compute; reflexivity|].
      split; [vm_compute; reflexivity|]. split; [discriminate|reflexivity].
    + reflexivity.
    + apply Hframes. reflexivity.
  - destruct (merge_group_field (types := demo_types) demo_cls grouped_world
                "g" (new_group_field "g") true true) as (_ & Hconflict & _).
    + eexists. split; [vm_compute; reflexivity|].
      split; [vm_compute; reflexivity|]. split; [discriminate|reflexivity].
    + reflexivity.
    + intros expand_schema. apply (Hconflict eq_refl "group"); [reflexivity|discriminate].
  - destruct (merge_group_field (types := demo_types) demo_cls world_ab
                "g" (new_group_field "g") true true) as (_ & _ & Hok).
    + eexists. split; [vm_compute; reflexivity|].
      split; [vm_compute; reflexivity|]. split; [discriminate|reflexivity].
    + reflexivity.
    + apply Hok; [reflexivity|left; reflexivity].
Defined.

(** C7, counterexample: the dataset designates [group] as its group
field; merging a group-typed descriptor under the existing name [a]
(without validation) takes the existing-field branch and raises
nothing. *)
Lemma merge_group_field_existing_name_counterexample :
  let res := merge_field_schema (types := demo_types) demo_cls
               [("a", new_group_field "a")] true false false grouped_world in
  is_group_field (FieldTypeSystem := demo_types) (new_group_field "a") = true
  ∧ group_field (dataset_doc grouped_world) = Some "group"
  ∧ res = (inr false, grouped_world).
Proof. repeat split; vm_compute; reflexivity. Qed.

(** ** Deleting fields *)

Section DeleteProofs.
Context {types : FieldTypeSystem}.
Variable cls : DocClass.

Lemma get_default_fields_Some w :
  _get_default_fields cls (Some (dataset_doc w)) = inr (delete_defaults cls w).
Proof.
  unfold _get_default_fields, delete_defaults, get_default_fields, _get_fields_ordered.
  simpl. f_equal.
  destruct (bool_decide _ && negb _); [|set_solver].
  destruct (group_field (dataset_doc w)); set_solver.
Qed.

Lemma delete_violation_None w n :
  delete_violation cls w n = None ↔ deletable cls w n.
Proof.
  unfold delete_violation, deletable. repeat case_decide; split; try done; tauto.
Qed.

Lemma same_but_warnings_refl w : same_but_warnings w w.
Proof. exists (warnings w). by destruct w. Qed.

(** With a tolerant error level the first loop of [_delete_fields]
never raises: it keeps exactly the deletable names, in order, and only
logs. *)
Lemma select_del_fields_tolerant level names acc w0 w :
  level ≠ RaiseError → same_but_warnings w0 w →
  ∃ w', same_but_warnings w0 w'
    ∧ (level = IgnoreError → w' = w)
    ∧ select_del_fields cls (delete_defaults cls w0) level names acc w
      = (inr (acc ++ filter (deletable cls w0) names), w').
Proof.
  intros Hlevel. revert acc w.
  induction names as [|n names IH]; intros acc w Hw; simpl.
  { exists w. rewrite app_nil_r. done. }
  unfold bind at 1. unfold get_world at 1.
  assert (_fields w = _fields w0) as Hf by (by destruct Hw as [ws ->]).
  rewrite Hf.
  destruct (decide (n ∈ delete_defaults cls w0)) as [Hd|Hd].
  { rewrite filter_cons_False by (unfold deletable; tauto).
    destruct level; [done| |]; unfold bind, handle_error, modify, ret.
    - destruct (IH acc (set_warnings (warnings w ++
                  [ValueError (CannotDeleteDefault (PyStr.lower (_doc_name cls)) n)]) w))
        as (w' & Hw' & _ & Hsel).
      { destruct Hw as [ws ->]. eexists. reflexivity. }
      exists w'. split; [done|]. split; [done|]. exact Hsel.
    - destruct (IH acc w Hw) as (w' & Hw' & Hsame & Hsel).
      exists w'. split; [done|]. split; [done|]. exact Hsel. }
  destruct (decide (_fields w0 !! n = None)) as [Hn|Hn].
  { rewrite filter_cons_False by (unfold deletable; tauto).
    destruct level; [done| |]; unfold bind, handle_error, modify, ret.
    - destruct (IH acc (set_warnings (warnings w ++
                  [AttributeError (FieldDoesNotExist (_doc_name cls) n)]) w))
        as (w' & Hw' & _ & Hsel).
      { destruct Hw as [ws ->]. eexists. reflexivity. }
      exists w'. split; [done|]. split; [done|]. exact Hsel.
    - destruct (IH acc w Hw) as (w' & Hw' & Hsame & Hsel).
      exists w'. split; [done|]. split; [done|]. exact Hsel. }
  rewrite filter_cons_True by (unfold deletable; tauto).
  destruct (IH (acc ++ [n]) w Hw) as (w' & Hw' & Hsame & Hsel).
  exists w'. split; [done|]. split; [done|].
  rewrite Hsel. by rewrite <- app_assoc.
Qed.

(** With error level 0 the first loop raises the error of the first
name that cannot be deleted and changes nothing. *)
Lemma select_del_fields_raise names acc w :
  select_del_fields cls (delete_defaults cls w) RaiseError names acc w
  = (match list_find (λ n, ¬ deletable cls w n) names with
     | Some (_, n) =>
         match delete_violation cls w n with
         | Some e => inl e
         | None => inr (acc ++ names)
         end
     | None => inr (acc ++ names)
     end, w).
Proof.
  revert acc. induction names as [|n names IH]; intros acc; simpl.
  { by rewrite app_nil_r. }
  unfold bind at 1. unfold get_world at 1.
  destruct (decide (n ∈ delete_defaults cls w)) as [Hd|Hd].
  { rewrite decide_True by (unfold deletable; tauto). simpl.
    unfold delete_violation. by rewrite decide_True. }
  destruct (decide (_fields w !! n = None)) as [Hn|Hn].
  { rewrite decide_True by (unfold deletable; tauto). simpl.
    unfold delete_violation. rewrite decide_False by done. by rewrite decide_True. }
  rewrite decide_False by (unfold deletable; tauto).
  rewrite IH. destruct (list_find _ names) as [[i m]|]; simpl.
  - destruct (delete_violation cls w m); [done|]. by rewrite <- app_assoc.
  - by rewrite <- app_assoc.
Qed.
End DeleteProofs.

Lemma first_violation_exists check (pairs : list (string * string)) p e :
  p ∈ pairs → check p = Some e → ∃ q e', first_violation check pairs = Some (q, e').
Proof.
  induction pairs as [|q pairs IH]; intros Hin Hp; [by apply elem_of_nil in Hin|].
  simpl. destruct (check q) as [e'|] eqn:Hq; [eauto|].
  apply elem_of_cons in Hin as [->|Hin]; [congruence|by apply IH].
Qed.

Lemma first_violation_app check (pre rest : list (string * string)) p e :
  (∀ q, q ∈ pre → check q = None) → check p = Some e →
  first_violation check (pre ++ p :: rest) = Some (p, e).
Proof.
  intros Hpre Hp. induction pre as [|q pre IH]; simpl; [by rewrite Hp|].
  rewrite Hpre by left. apply IH. intros q' Hq'. apply Hpre. by right.
Qed.

Lemma filter_all {A} (P : A → Prop) `{∀ x, Decision (P x)} (l : list A) :
  (∀ x, P x) → filter P l = l.
Proof.
  intros HP. induction l as [|x l IH]; [done|].
  rewrite filter_cons_True by done. by rewrite IH.
Qed.

Section DeleteApply.
Context {types : FieldTypeSystem}.
Variable cls : DocClass.

(** The schema deletions touch the registry and the field documents
only, however they end. *)
Lemma delete_schema_loop_frame l w r w' :
  for_each l (_delete_field_schema cls) w = (r, w') →
  storage w' = storage w ∧ saved w' = saved w
  ∧ app_config (dataset_doc w') = app_config (dataset_doc w).
Proof.
  revert w. induction l as [|x l IH]; intros w Hrun.
  { by inversion Hrun. }
  rewrite for_each_cons in Hrun. unfold _delete_field_schema at 1 in Hrun.
  destruct (_fields w !! x).
  - apply IH in Hrun as (-> & -> & ->). repeat split.
    unfold set_fields_attr. simpl. by destruct (_is_frames_doc cls).
  - by inversion Hrun.
Qed.

(** Deleting distinct existing fields succeeds and removes them. *)
Lemma delete_schema_loop_ok l w :
  NoDup l → (∀ x, x ∈ l → _fields w !! x ≠ None) →
  ∃ w', for_each l (_delete_field_schema cls) w = (inr tt, w')
    ∧ (∀ x, x ∈ l → _fields w' !! x = None)
    ∧ (∀ x, x ∉ l → _fields w' !! x = _fields w !! x)
    ∧ _fields_ordered w' = filter (λ fn, fn ∉ l) (_fields_ordered w).
Proof.
  revert w. induction l as [|x l IH]; intros w Hnd Hex.
  { exists w. split; [done|]. split; [by intros x ?%elem_of_nil|]. split; [done|].
    symmetry. apply filter_all. intros x. apply not_elem_of_nil. }
  apply NoDup_cons in Hnd as [Hx Hnd].
  rewrite for_each_cons. unfold _delete_field_schema at 1.
  destruct (_fields w !! x) as [f|] eqn:Hf; [|by destruct (Hex x); [left|]].
  match goal with |- context [for_each l _ ?w1] => set (w1' := w1) end.
  destruct (IH w1' Hnd) as (w' & Hrun & Hgone & Hkept & Hord).
  { intros y Hy. subst w1'. simpl. rewrite lookup_delete_ne by set_solver.
    apply Hex. by right. }
  exists w'. split; [done|]. split; [|split].
  - intros y [->|Hy]%elem_of_cons; [|by apply Hgone].
    rewrite Hkept by done. subst w1'. simpl. apply lookup_delete_eq.
  - intros y Hy. rewrite Hkept by set_solver. subst w1'. simpl.
    apply lookup_delete_ne. set_solver.
  - rewrite Hord. subst w1'. simpl. rewrite list_filter_filter.
    apply list_filter_iff. intros y. set_solver.
Qed.

Lemma delete_fields_unfold_tolerant field_names level w :
  level ≠ RaiseError →
  ∃ w0, same_but_warnings w w0 ∧ (level = IgnoreError → w0 = w)
    ∧ _delete_fields cls field_names level w
      = match filter (deletable cls w) field_names with
        | [] => (inr tt, w0)
        | del_fields =>
            (exec _delete_fields_simple cls del_fields;
             exec for_each del_fields (_delete_field_schema cls);
             exec modify (λ w,
                    set_dataset_doc
                      (set_app_config
                         (app_config (dataset_doc w) ++ [DeletePaths field_names])
                         (dataset_doc w)) w);
             save) w0
        end.
Proof.
  intros Hlevel.
  destruct (select_del_fields_tolerant cls level field_names [] w w Hlevel
              (same_but_warnings_refl w)) as (w0 & Hw0 & Hsame & Hsel).
  exists w0. split; [done|]. split; [done|].
  unfold _delete_fields. unfold bind at 1. unfold get_world at 1.
  unfold bind at 1. unfold lift. rewrite get_default_fields_Some.
  unfold bind at 1. rewrite Hsel. simpl.
  by destruct (filter (deletable cls w) field_names).
Qed.

Lemma delete_fields_unfold_raise field_names w :
  _delete_fields cls field_names RaiseError w
  = match list_find (λ n, ¬ deletable cls w n) field_names with
    | Some (_, n) =>
        (match delete_violation cls w n with Some e => inl e | None => inr tt end, w)
    | None =>
        match field_names with
        | [] => (inr tt, w)
        | del_fields =>
            (exec _delete_fields_simple cls del_fields;
             exec for_each del_fields (_delete_field_schema cls);
             exec modify (λ w,
                    set_dataset_doc
                      (set_app_config
                         (app_config (dataset_doc w) ++ [DeletePaths field_names])
                         (dataset_doc w)) w);
             save) w
        end
    end.
Proof.
  unfold _delete_fields. unfold bind at 1. unfold get_world at 1.
  unfold bind at 1. unfold lift. rewrite get_default_fields_Some.
  unfold bind at 1. rewrite select_del_fields_raise. simpl.
  destruct (list_find _ field_names) as [[i n]|] eqn:Hfind.
  - apply list_find_Some in Hfind as (_ & Hn & _).
    destruct (delete_violation cls w n) eqn:Hv; [done|].
    by apply delete_violation_None in Hv.
  - by destruct field_names.
Qed.
End DeleteApply.

Section DeleteTheorems.
Context {types : FieldTypeSystem}.
Variable cls : DocClass.

Lemma filter_deletable_fields w (field_names : list string) x :
  x ∈ filter (deletable cls w) field_names → _fields w !! x ≠ None.
Proof. intros [[_ Hx] _]%list_elem_of_filter. exact Hx. Qed.

(** What the apply phase of [_delete_fields] leaves in storage, however
the schema deletions end. *)
Lemma delete_apply_storage del_fields field_names w r w' :
  del_fields ≠ [] →
  (exec _delete_fields_simple cls del_fields;
   exec for_each del_fields (_delete_field_schema cls);
   exec modify (λ w,
          set_dataset_doc
            (set_app_config
               (app_config (dataset_doc w) ++ [DeletePaths field_names])
               (dataset_doc w)) w);
   save) w = (r, w') →
  storage w'
  = storage w ++ [UpdateManyUnsetPipeline (__name__ cls) (_handle_db_fields w del_fields)].
Proof.
  intros Hne Hrun. destruct del_fields as [|x l]; [done|].
  unfold bind at 1 in Hrun. unfold _delete_fields_simple in Hrun.
  unfold bind at 1 in Hrun. unfold get_world, update_many, modify in Hrun.
  unfold bind at 1 in Hrun.
  destruct (for_each (x :: l) (_delete_field_schema cls) _) as [[e|[]] w2] eqn:Hloop;
    apply delete_schema_loop_frame in Hloop as (Hs & _ & _);
    unfold bind, save, modify in Hrun; inversion Hrun; subst; simpl; by rewrite Hs.
Qed.

(** C10 (as amended): with a tolerant error level, when at least one
requested field can be deleted and no deletable name is requested
twice, [_delete_fields] unsets the deletable fields in storage, removes
them from the registry, hands the full list of requested names to the
application config's path deletion, and saves the dataset document;
when no requested field can be deleted it returns with storage, the
registry, the application config and the dataset document as they
were. *)
Theorem delete_fields_tolerant_effects field_names level w :
  level ≠ RaiseError →
  let del_fields := filter (deletable cls w) field_names in
  (del_fields = [] →
     ∃ w', _delete_fields cls field_names level w = (inr tt, w')
       ∧ same_but_warnings w w')
  ∧ (del_fields ≠ [] → NoDup del_fields →
     ∃ w', _delete_fields cls field_names level w = (inr tt, w')
       ∧ app_config (dataset_doc w')
         = app_config (dataset_doc w) ++ [DeletePaths field_names]
       ∧ saved w' = dataset_doc w'
       ∧ storage w'
         = storage w
           ++ [UpdateManyUnsetPipeline (__name__ cls) (_handle_db_fields w del_fields)]
       ∧ ∀ x, x ∈ del_fields → _fields w' !! x = None).
Proof.
  intros Hlevel del_fields.
  destruct (delete_fields_unfold_tolerant cls field_names level w Hlevel)
    as (w0 & Hw0 & _ & Hrun).
  fold del_fields in Hrun. split.
  - intros Hnil. rewrite Hnil in Hrun. by exists w0.
  - intros Hne Hnd.
    assert (_fields w0 = _fields w) as Hf by (by destruct Hw0 as [ws ->]).
    destruct del_fields as [|x l] eqn:Hdel; [done|]. rewrite Hrun.
    destruct ((exec _delete_fields_simple cls (x :: l);
               exec for_each (x :: l) (_delete_field_schema cls);
               exec modify (λ w,
                      set_dataset_doc
                        (set_app_config
                           (app_config (dataset_doc w) ++ [DeletePaths field_names])
                           (dataset_doc w)) w);
               save) w0) as [r w'] eqn:Happly.
    pose proof (delete_apply_storage (x :: l) field_names w0 r w' Hne Happly) as Hstorage.
    unfold bind at 1 in Happly. unfold _delete_fields_simple in Happly.
    unfold bind at 1 in Happly. unfold get_world, update_many, modify in Happly.
    unfold bind at 1 in Happly.
    match type of Happly with context [for_each (x :: l) _ ?w1] =>
      destruct (delete_schema_loop_ok cls (x :: l) w1 Hnd)
        as (w2 & Hloop & Hgone & _ & _)
    end.
    { intros y Hy. simpl. rewrite Hf.
      apply (filter_deletable_fields w field_names). fold del_fields. by rewrite Hdel. }
    rewrite Hloop in Happly.
    pose proof (delete_schema_loop_frame cls _ _ _ _ Hloop) as (_ & _ & Happ).
    unfold bind, save, modify in Happly. simpl in Happly.
    inversion Happly; subst r w'; clear Happly.
    eexists. split; [reflexivity|]. simpl.
    split; [|split; [done|split]].
    + rewrite Happ. simpl. by destruct Hw0 as [ws ->].
    + simpl in Hstorage. rewrite Hstorage.
      destruct Hw0 as [ws ->]. reflexivity.
    + exact Hgone.
Qed.
End DeleteTheorems.

Section DefaultFields.
Context {types : FieldTypeSystem}.
Variable cls : DocClass.

Lemma rename_violation_default w d n :
  d ∈ base_fields_ordered cls →
  rename_violation cls w (d, n)
  = Some (ValueError (CannotRenameDefault (PyStr.lower (_doc_name cls)) d)).
Proof. intros Hd. unfold rename_violation. by rewrite decide_True. Qed.

Lemma delete_violation_default w d :
  d ∈ delete_defaults cls w →
  delete_violation cls w d
  = Some (ValueError (CannotDeleteDefault (PyStr.lower (_doc_name cls)) d)).
Proof. intros Hd. unfold delete_violation. by rewrite decide_True. Qed.

Lemma delete_schema_loop_error l w e w' :
  for_each l (_delete_field_schema cls) w = (inl e, w') → ∃ k, e = KeyError k.
Proof.
  revert w. induction l as [|x l IH]; intros w Hrun; [by inversion Hrun|].
  rewrite for_each_cons in Hrun. unfold _delete_field_schema at 1 in Hrun.
  destruct (_fields w !! x); [by eapply IH|]. inversion Hrun. eauto.
Qed.

Lemma delete_apply_result del_fields field_names w r w' :
  (exec _delete_fields_simple cls del_fields;
   exec for_each del_fields (_delete_field_schema cls);
   exec modify (λ w,
          set_dataset_doc
            (set_app_config
               (app_config (dataset_doc w) ++ [DeletePaths field_names])
               (dataset_doc w)) w);
   save) w = (r, w') →
  r = inr tt ∨ ∃ k, r = inl (KeyError k).
Proof.
  intros Hrun. unfold bind at 1 in Hrun.
  destruct (_delete_fields_simple cls del_fields w) as [[e|[]] w1] eqn:Hsimple.
  { unfold _delete_fields_simple in Hsimple. destruct del_fields; inversion Hsimple. }
  unfold bind at 1 in Hrun.
  destruct (for_each del_fields (_delete_field_schema cls) w1) as [[e|[]] w2] eqn:Hloop.
  - apply delete_schema_loop_error in Hloop as [k ->]. inversion Hrun. eauto.
  - unfold bind, save, modify in Hrun. inversion Hrun. by left.
Qed.

(** C6 (as amended): a rename request with a default field (a field of
the base class) at a position paired with a new name always fails and
applies nothing ([_rename_fields] takes no error level); the error is
the immutable-field error for that field when no earlier pair violates
a check. A delete request naming a default field (a field of the base
class or the group field of a grouped dataset) raises at error level 0
(the immutable-field error for that field when every earlier name can
be deleted) and changes nothing; at levels 1 and 2 the field is skipped,
no immutable-field error is raised, and the other requested fields that
can be deleted are exactly those unset in storage. *)
Theorem default_fields_are_immutable field_names new_field_names w :
  (∀ d n, (d, n) ∈ zip field_names new_field_names → d ∈ base_fields_ordered cls →
     ∃ e w', _rename_fields cls field_names new_field_names w = (inl e, w')
       ∧ nothing_applied w w')
  ∧ (∀ pre pre' d n rest rest',
       field_names = pre ++ d :: rest → new_field_names = pre' ++ n :: rest' →
       length pre = length pre' → d ∈ base_fields_ordered cls →
       (∀ p, p ∈ zip pre pre' → rename_violation cls w p = None) →
       ∃ w', _rename_fields cls field_names new_field_names w
             = (inl (ValueError (CannotRenameDefault (PyStr.lower (_doc_name cls)) d)), w')
         ∧ nothing_applied w w')
  ∧ (∀ d, d ∈ field_names → d ∈ delete_defaults cls w →
       (∃ e, _delete_fields cls field_names RaiseError w = (inl e, w))
       ∧ (∀ pre rest, field_names = pre ++ d :: rest → Forall (deletable cls w) pre →
            _delete_fields cls field_names RaiseError w
            = (inl (ValueError (CannotDeleteDefault (PyStr.lower (_doc_name cls)) d)), w))
       ∧ ∀ level, level ≠ RaiseError →
           let del_fields := filter (deletable cls w) field_names in
           (d ∉ del_fields)
           ∧ (∀ x, x ∈ field_names → deletable cls w x → x ∈ del_fields)
           ∧ ∀ r w', _delete_fields cls field_names level w = (r, w') →
               (r = inr tt ∨ ∃ k, r = inl (KeyError k))
               ∧ (del_fields ≠ [] →
                  storage w'
                  = storage w
                    ++ [UpdateManyUnsetPipeline (__name__ cls)
                          (_handle_db_fields w del_fields)])
               ∧ (del_fields = [] → r = inr tt ∧ same_but_warnings w w')).
Proof.
  split; [|split].
  - intros d n Hin Hd.
    destruct (first_violation_exists (rename_violation cls w) _ (d, n) _ Hin
                (rename_violation_default w d n Hd)) as (q & e & Hfirst).
    destruct (rename_fields_violation cls field_names new_field_names w q e Hfirst)
      as (w' & Hrun & Hframe). eauto.
  - intros pre pre' d n rest rest' -> -> Hlen Hd Hpre.
    destruct (rename_fields_violation cls (pre ++ d :: rest) (pre' ++ n :: rest') w (d, n)
                (ValueError (CannotRenameDefault (PyStr.lower (_doc_name cls)) d)))
      as (w' & Hrun & Hframe); [|eauto].
    rewrite zip_with_app by done. simpl.
    apply first_violation_app; [exact Hpre|by apply rename_violation_default].
  - intros d Hin Hd. split; [|split].
    + rewrite delete_fields_unfold_raise.
      destruct (list_find (λ n, ¬ deletable cls w n) field_names) as [[i m]|] eqn:Hfind.
      * apply list_find_Some in Hfind as (_ & Hm & _).
        destruct (delete_violation cls w m) eqn:Hv; [eauto|].
        by apply delete_violation_None in Hv.
      * exfalso. eapply list_find_None in Hfind. rewrite Forall_forall in Hfind.
        apply (Hfind d Hin). unfold deletable. tauto.
    + intros pre rest -> Hpre. rewrite delete_fields_unfold_raise.
      assert (list_find (λ n, ¬ deletable cls w n) (pre ++ d :: rest)
              = Some (length pre, d)) as ->.
      { apply list_find_Some. split; [by rewrite list_lookup_middle|].
        split; [unfold deletable; tauto|].
        intros j y Hj Hlt. rewrite lookup_app_l in Hj by done.
        rewrite Forall_forall in Hpre. intros Hny. apply Hny, Hpre.
        by eapply list_elem_of_lookup_2. }
      by rewrite delete_violation_default.
    + intros level Hlevel del_fields. split; [|split].
      * subst del_fields. rewrite list_elem_of_filter. unfold deletable. tauto.
      * intros x Hx Hdel. subst del_fields. by apply list_elem_of_filter.
      * intros r w' Hrun.
        destruct (delete_fields_unfold_tolerant cls field_names level w Hlevel)
          as (w0 & Hw0 & _ & Hunfold).
        fold del_fields in Hunfold. rewrite Hunfold in Hrun.
        destruct del_fields as [|x l] eqn:Hdel.
        { inversion Hrun; subst. split; [by left|]. split; [done|]. done. }
        cbv zeta in Hrun.
        split; [by eapply delete_apply_result|]. split; [|done]. intros _.
        rewrite (delete_apply_storage cls (x :: l) field_names w0 r w' ltac:(done) Hrun).
        destruct Hw0 as [ws ->]. reflexivity.
Qed.
End DefaultFields.

Lemma default_fields_are_immutable_witness :
  (∃ w', _rename_fields (types := demo_types) demo_cls ["a"; "id"] ["c"; "x"] world_ab
         = (inl (ValueError (CannotRenameDefault "sample" "id")), w')
       ∧ nothing_applied world_ab w')
  ∧ _delete_fields (types := demo_types) demo_cls ["a"; "id"] RaiseError world_ab
    = (inl (ValueError (CannotDeleteDefault "sample" "id")), world_ab)
  ∧ ∀ r w', _delete_fields (types := demo_types) demo_cls ["a"; "id"] IgnoreError world_ab
            = (r, w') →
      storage w' = [UpdateManyUnsetPipeline "samples.demo" ["a"]].
Proof.
  destruct (default_fields_are_immutable (types := demo_types) demo_cls
              ["a"; "id"] ["c"; "x"] world_ab) as (_ & Hrename & Hdelete).
  split; [|split].
  - apply (Hrename ["a"] ["c"] "id" "x" [] []); try reflexivity.
    + apply list_elem_of_In. simpl. tauto.
    + intros p ->%list_elem_of_singleton. vm_compute. reflexivity.
  - destruct (Hdelete "id") as (_ & Hfirst & _).
    + apply list_elem_of_In. simpl. tauto.
    + apply elem_of_union_l, elem_of_list_to_set, list_elem_of_In. simpl. tauto.
    + apply (Hfirst ["a"] []); [reflexivity|].
      apply Forall_singleton. split; [|vm_compute; discriminate].
      intros Hd. unfold delete_defaults in Hd. apply elem_of_union in Hd as [Hd|Hd].
      * apply elem_of_list_to_set, list_elem_of_In in Hd. simpl in Hd.
        destruct Hd as [Hd|[Hd|[]]]; discriminate.
      * vm_compute in Hd. discriminate.
  - intros r w' Hrun. destruct (Hdelete "id") as (_ & _ & Htolerant).
    + apply list_elem_of_In. simpl. tauto.
    + apply elem_of_union_l, elem_of_list_to_set, list_elem_of_In. simpl. tauto.
    + destruct (Htolerant IgnoreError ltac:(discriminate)) as (_ & _ & Heffects).
      destruct (Heffects r w' Hrun) as (_ & Hstorage & _).
      rewrite Hstorage; [vm_compute; reflexivity|vm_compute; discriminate].
Defined.

(** C6, counterexample: the request renames the default field [id], but
the pair before it names a field that does not exist, so the error
raised is the not-found error for [missing]. *)
Lemma rename_default_after_missing_counterexample :
  let res := _rename_fields (types := demo_types) demo_cls
               ["missing"; "id"] ["x"; "y"] world_ab in
  "id" ∈ base_fields_ordered demo_cls
  ∧ res.1 = inl (AttributeError (FieldDoesNotExist "Sample" "missing"))
  ∧ ∀ l n, res.1 ≠ inl (ValueError (CannotRenameDefault l n)).
Proof.
  split; [apply list_elem_of_In; simpl; tauto|].
  split; [vm_compute; reflexivity|].
  intros l n. vm_compute. discriminate.
Qed.

(** The default fields of a rename are those of the base class: the group
field of a grouped dataset is not among them. Renaming it succeeds and
moves the designation, while deleting it is refused. *)
Example rename_group_field_is_allowed :
  let res := _rename_fields (types := demo_types) demo_cls ["group"] ["g2"] grouped_world in
  res.1 = inr tt
  ∧ _fields_ordered res.2 = ["a"; "b"; "g2"]
  ∧ group_field (saved res.2) = Some "g2"
  ∧ _delete_fields (types := demo_types) demo_cls ["group"] RaiseError grouped_world
    = (inl (ValueError (CannotDeleteDefault "sample" "group")), grouped_world).
Proof. repeat split; vm_compute; reflexivity. Qed.

(** Only paired positions are checked: [zip] stops at the shorter
list, so a default field beyond the last new name is never looked at and
the request goes through for the pairs that exist. *)
Example rename_unpaired_default_is_not_checked :
  let res := _rename_fields (types := demo_types) demo_cls ["a"; "id"] ["c"] world_ab in
  res.1 = inr tt
  ∧ _fields_ordered res.2 = ["c"; "b"]
  ∧ storage res.2 = [UpdateManyRename "samples.demo" [("a", "c")]]
  ∧ app_config (dataset_doc res.2) = [RenamePaths ["a"; "id"] ["c"]].
Proof. repeat split; vm_compute; reflexivity. Qed.

Lemma delete_fields_tolerant_effects_witness :
  ∃ w', _delete_fields (types := demo_types) demo_cls ["a"; "id"; "nope"] IgnoreError
          world_ab = (inr tt, w')
    ∧ app_config (dataset_doc w') = [DeletePaths ["a"; "id"; "nope"]]
    ∧ saved w' = dataset_doc w'
    ∧ storage w' = [UpdateManyUnsetPipeline "samples.demo" ["a"]]
    ∧ _fields w' !! "a" = None.
Proof.
  destruct (delete_fields_tolerant_effects (types := demo_types) demo_cls
              ["a"; "id"; "nope"] IgnoreError world_ab ltac:(discriminate))
    as (_ & Happly).
  destruct Happly as (w' & Hrun & Happ & Hsaved & Hstorage & Hgone).
  - vm_compute. discriminate.
  - vm_compute. apply NoDup_singleton.
  - exists w'. split; [exact Hrun|]. split; [exact Happ|]. split; [exact Hsaved|].
    split; [rewrite Hstorage; vm_compute; reflexivity|].
    apply Hgone. vm_compute. left.
Defined.

(** C10, counterexample: [a] can be deleted and is requested twice; the
second schema deletion raises [KeyError], so the path deletion of the
application config is never called and the dataset document is not
saved, although storage was already rewritten. *)
Lemma delete_fields_duplicate_name_counterexample :
  let res := _delete_fields (types := demo_types) demo_cls ["a"; "a"; "id"] IgnoreError
               world_ab in
  deletable (types := demo_types) demo_cls world_ab "a"
  ∧ res.1 = inl (KeyError "a")
  ∧ app_config (dataset_doc res.2) = []
  ∧ saved res.2 = saved world_ab
  ∧ storage res.2 = [UpdateManyUnsetPipeline "samples.demo" ["a"; "a"]].
Proof.
  split.
  { split; [|vm_compute; discriminate].
    intros Hd. unfold delete_defaults in Hd. apply elem_of_union in Hd as [Hd|Hd].
    - apply elem_of_list_to_set, list_elem_of_In in Hd. simpl in Hd.
      destruct Hd as [Hd|[Hd|[]]]; discriminate.
    - vm_compute in Hd. discriminate. }
  repeat split; vm_compute; reflexivity.
Qed.

(** ** The update extractor *)

Section ExtractProofs.
Context {V ObjectId : Type}.
Implicit Types (self : Element V ObjectId) (update_doc : UpdateDoc V).

Lemma check_keys_Some keys ffs k :
  check_keys keys ffs = Some k → k ∈ keys ∧ ∃ ff, ff ∈ ffs ∧ modifies_root k ff = true.
Proof.
  induction keys as [|k' keys IH]; simpl; [done|].
  destruct (existsb (modifies_root k') ffs) eqn:Hex.
  - intros [= <-]. split; [left|].
    apply existsb_exists in Hex as (ff & Hin & Hff). exists ff.
    split; [by apply list_elem_of_In|done].
  - intros Hk. destruct (IH Hk) as [Hin Hff]. split; [by right|done].
Qed.

Lemma check_keys_hit keys ffs k ff :
  k ∈ keys → ff ∈ ffs → modifies_root k ff = true →
  ∃ k', check_keys keys ffs = Some k'.
Proof.
  intros Hk Hff Hm. induction keys as [|k' keys IH]; [by apply elem_of_nil in Hk|].
  simpl. destruct (existsb (modifies_root k') ffs) eqn:Hex; [eauto|].
  apply elem_of_cons in Hk as [->|Hk]; [|by apply IH].
  assert (existsb (modifies_root k') ffs = true) as Hex'; [|congruence].
  apply existsb_exists. exists ff. split; [by apply list_elem_of_In|done].
Qed.

Lemma check_update_doc_Some update_doc ffs k :
  check_update_doc update_doc ffs = Some k →
  ∃ ff, ff ∈ ffs ∧ modifies_root k ff = true.
Proof.
  induction update_doc as [|[op d] update_doc IH]; simpl; [done|].
  destruct (check_keys (PyDict.keys d) ffs) as [k'|] eqn:Hd.
  - intros [= <-]. by apply check_keys_Some in Hd as [_ Hff].
  - exact IH.
Qed.

Lemma check_update_doc_hit update_doc ffs op d k ff :
  (op, d) ∈ update_doc → k ∈ PyDict.keys d → ff ∈ ffs → modifies_root k ff = true →
  ∃ k', check_update_doc update_doc ffs = Some k'.
Proof.
  intros Hd Hk Hff Hm.
  induction update_doc as [|[op' d'] update_doc IH]; [by apply elem_of_nil in Hd|].
  simpl. destruct (check_keys (PyDict.keys d') ffs) as [k'|] eqn:Hcheck; [eauto|].
  apply elem_of_cons in Hd as [[= <- <-]|Hd]; [|by apply IH].
  destruct (check_keys_hit _ _ _ _ Hk Hff Hm) as [k' Hk']. congruence.
Qed.

Lemma root_check_raises self update_doc ffs op d k ff :
  (op, d) ∈ update_doc → k ∈ PyDict.keys d → ff ∈ ffs → modifies_root k ff = true →
  ∃ k' ff', _extract_extra_updates self update_doc (Some ffs)
            = inl (ValueError (ModifyingFilteredRoot k'))
    ∧ ff' ∈ ffs ∧ modifies_root k' ff' = true.
Proof.
  intros Hd Hk Hff Hm.
  destruct (check_update_doc_hit _ _ _ _ _ _ Hd Hk Hff Hm) as [k' Hk'].
  destruct (check_update_doc_Some _ _ _ Hk') as (ff' & Hff' & Hm').
  exists k', ff'. split; [|done].
  unfold _extract_extra_updates. destruct ffs as [|f fs]; [by apply elem_of_nil in Hff|].
  by rewrite Hk'.
Qed.

(** C9: the check for illegal modifications matches a filtered field by
string prefix. Whenever some key [k] of the update starts with the
characters of a filtered field [ff] and what follows, leading dots
dropped, holds no further dot, [_extract_extra_updates] raises the
validation error (for the first such key of the update, which matches
the same way). The key [dets.detections2], a sibling of the filtered
list [dets.detections], is such a key. *)
Theorem root_check_matches_by_prefix self update_doc ffs op d k ff :
  (op, d) ∈ update_doc → k ∈ PyDict.keys d → ff ∈ ffs →
  PyStr.startswith k ff = true →
  PyStr.count dot (PyStr.lstrip dot (PyStr.drop (String.length ff) k)) = 0 →
  (∃ k' ff', _extract_extra_updates self update_doc (Some ffs)
             = inl (ValueError (ModifyingFilteredRoot k'))
     ∧ ff' ∈ ffs ∧ modifies_root k' ff' = true)
  ∧ ∀ v : V,
      _extract_extra_updates self [("$set", [("dets.detections2", v)])]
        (Some ["dets.detections"])
      = inl (ValueError (ModifyingFilteredRoot "dets.detections2")).
Proof.
  intros Hd Hk Hff Hprefix Hdots. split; [|reflexivity].
  apply (root_check_raises self update_doc ffs op d k ff Hd Hk Hff).
  unfold modifies_root. rewrite Hprefix, Hdots. reflexivity.
Qed.
End ExtractProofs.

Lemma root_check_matches_by_prefix_witness :
  ∃ k' ff',
    _extract_extra_updates demo_sample
      [("$unset", [("filepath", "")]); ("$set", [("dets.detections2", "x")])]
      (Some ["uniq"; "dets.detections"])
    = inl (ValueError (ModifyingFilteredRoot k'))
    ∧ ff' ∈ ["uniq"; "dets.detections"] ∧ modifies_root k' ff' = true.
Proof.
  apply (root_check_matches_by_prefix demo_sample
           [("$unset", [("filepath", "")]); ("$set", [("dets.detections2", "x")])]
           ["uniq"; "dets.detections"] "$set" [("dets.detections2", "x")]
           "dets.detections2" "dets.detections").
  - right. left.
  - left.
  - right. left.
  - reflexivity.
  - reflexivity.
Defined.

Section ExtractElementUpdates.
Context {V ObjectId : Type}.
Implicit Types (self : Element V ObjectId) (update_doc : UpdateDoc V).

(** Keys that do not start with a filtered field pass the check and are
left in the update. *)
Lemma check_keys_unrelated (others : list (string * V)) ffs :
  Forall (λ kv, ∀ ff, ff ∈ ffs → PyStr.startswith kv.1 ff = false) others →
  check_keys (PyDict.keys others) ffs = None.
Proof.
  induction 1 as [|[k v] others Hk _ IH]; [done|]. simpl.
  assert (existsb (modifies_root k) ffs = false) as ->; [|exact IH].
  apply not_true_is_false. intros (ff & Hin & Hm)%existsb_exists.
  unfold modifies_root in Hm. simpl in Hk.
  rewrite (Hk ff) in Hm by (by apply list_elem_of_In). done.
Qed.

Lemma extract_items_unrelated self (others : list (string * V)) ffs :
  Forall (λ kv, ∀ ff, ff ∈ ffs → PyStr.startswith kv.1 ff = false) others →
  extract_items self ffs others = inr ([], []).
Proof.
  induction 1 as [|[k v] others Hk _ IH]; [done|]. simpl.
  destruct (find (λ ff, PyStr.startswith k ff) ffs) as [ff|] eqn:Hfind; [|exact IH].
  apply find_some in Hfind as [Hin Hstart]. simpl in Hk.
  rewrite (Hk ff) in Hstart by (by apply list_elem_of_In). done.
Qed.

Lemma parse_detections_1_label self items el_id el_data :
  getitems self ["dets"; "detections"] = inr (EList items) →
  items !! 1 = Some (EDocument (Some el_id) el_data) →
  _parse_id_and_array_filter self "dets.detections.1.label" "dets.detections"
  = inr (el_id, "dets.detections.$[element].label").
Proof.
  intros Hnav Hitem. unfold _parse_id_and_array_filter.
  change (PyStr.split dot "dets.detections") with ["dets"; "detections"].
  rewrite Hnav. cbn [rbind].
  change (PyStr.split dot _) with ["1"; "label"]. cbv beta iota.
  change (PyInt.int "1") with (Some 1%Z). cbv beta iota.
  unfold getitem_int. change (1 <? 0)%Z with false. cbv beta iota.
  change (1 <? 0)%Z with false. cbv beta iota.
  change (Z.to_nat 1) with 1. rewrite Hitem. reflexivity.
Qed.

End ExtractElementUpdates.


(** * Further properties *)

(** ** Strings and dictionaries *)

Lemma str_app_cons (a : ascii) (s t : string) : String a s +:+ t = String a (s +:+ t).
Proof. reflexivity. Qed.

Lemma str_app_nil_l (s : string) : "" +:+ s = s.
Proof. reflexivity. Qed.

Lemma str_app_nil_r (s : string) : s +:+ "" = s.
Proof. induction s as [|a s IH]; [done|]. by rewrite str_app_cons, IH. Qed.

Lemma str_app_assoc (s t u : string) : (s +:+ t) +:+ u = s +:+ (t +:+ u).
Proof. induction s as [|a s IH]; [done|]. by rewrite !str_app_cons, IH. Qed.

Lemma str_length_app (s t : string) :
  String.length (s +:+ t) = String.length s + String.length t.
Proof. induction s as [|a s IH]; [done|]. rewrite str_app_cons. simpl. by rewrite IH. Qed.

Lemma str_drop_app (s t : string) : PyStr.drop (String.length s) (s +:+ t) = t.
Proof. induction s as [|a s IH]; [by destruct t|]. rewrite str_app_cons. simpl. exact IH. Qed.

Lemma str_startswith_app (s t : string) : PyStr.startswith (s +:+ t) s = true.
Proof.
  unfold PyStr.startswith. induction s as [|a s IH]; [by destruct t|].
  rewrite str_app_cons. simpl. destruct (ascii_dec a a); [exact IH|done].
Qed.

(** A string without the separator is one chunk. *)
Lemma split_aux_no_sep (c : ascii) (cur s : string) :
  PyStr.count c s = 0 → PyStr.split_aux c cur s = [cur +:+ s].
Proof.
  revert cur. induction s as [|a s IH]; intros cur Hc; simpl.
  - by rewrite str_app_nil_r.
  - simpl in Hc. destruct (Ascii.eqb a c); [done|].
    rewrite IH by done. by rewrite str_app_assoc.
Qed.

(** Splitting stops at the first separator. *)
Lemma split_aux_app (c : ascii) (cur s t : string) :
  PyStr.count c s = 0 →
  PyStr.split_aux c cur (s +:+ String c t) = (cur +:+ s) :: PyStr.split_aux c "" t.
Proof.
  revert cur. induction s as [|a s IH]; intros cur Hc.
  - rewrite str_app_nil_l, str_app_nil_r. simpl. by rewrite Ascii.eqb_refl.
  - rewrite str_app_cons. simpl. simpl in Hc. destruct (Ascii.eqb a c); [done|].
    rewrite IH by done. by rewrite str_app_assoc.
Qed.

Lemma split_aux_nonempty (c : ascii) (cur s : string) : PyStr.split_aux c cur s ≠ [].
Proof.
  revert cur. induction s as [|a s IH]; intros cur; simpl; [done|].
  destruct (Ascii.eqb a c); [done|apply IH].
Qed.

Lemma join_cons (sep x : string) (l : list string) :
  l ≠ [] → PyStr.join sep (x :: l) = x +:+ sep +:+ PyStr.join sep l.
Proof. by destruct l. Qed.

(** Joining what [split] returns gives the string back. *)
Lemma join_split_aux (c : ascii) (cur s : string) :
  PyStr.join (String c "") (PyStr.split_aux c cur s) = cur +:+ s.
Proof.
  revert cur. induction s as [|a s IH]; intros cur; simpl.
  - by rewrite str_app_nil_r.
  - destruct (Ascii.eqb a c) eqn:Heq.
    + apply Ascii.eqb_eq in Heq as ->.
      rewrite join_cons by apply split_aux_nonempty. by rewrite IH.
    + rewrite IH. by rewrite str_app_assoc.
Qed.

Lemma join_split (s : string) : PyStr.join "." (PyStr.split dot s) = s.
Proof. apply (join_split_aux dot "" s). Qed.

Lemma split_path_no_dot (path : string) :
  PyStr.count dot path = 0 → split_path path = ([], path).
Proof.
  intros Hc. unfold split_path, PyStr.split. by rewrite split_aux_no_sep.
Qed.

Lemma lstrip_no_lead (c : ascii) (a : ascii) (s : string) :
  a ≠ c → PyStr.lstrip c (String a s) = String a s.
Proof. intros Hne. simpl. by apply Ascii.eqb_neq in Hne as ->. Qed.

Section DictLemmas.
Context {V : Type}.
Implicit Types (d : list (string * V)) (k : string) (v : V).

Lemma PyDict_get_set_eq d k v : PyDict.get k (PyDict.set k v d) = Some v.
Proof.
  induction d as [|[k' v'] d IH]; simpl; [by rewrite decide_True|].
  destruct (decide (k' = k)) as [->|Hne]; simpl.
  - by rewrite decide_True.
  - by rewrite decide_False.
Qed.

Lemma PyDict_get_set_ne d k k' v :
  k' ≠ k → PyDict.get k' (PyDict.set k v d) = PyDict.get k' d.
Proof.
  intros Hne. induction d as [|[k0 v0] d IH]; simpl.
  - by rewrite decide_False.
  - destruct (decide (k0 = k)) as [->|Hne0]; simpl.
    + rewrite !decide_False by done. done.
    + destruct (decide (k0 = k')); [done|exact IH].
Qed.

Lemma PyDict_get_None d k : PyDict.get k d = None ↔ k ∉ PyDict.keys d.
Proof.
  unfold PyDict.keys. induction d as [|[k' v'] d IH]; simpl.
  - split; [intros _; apply not_elem_of_nil|done].
  - rewrite not_elem_of_cons. destruct (decide (k' = k)) as [->|Hne].
    + split; [done|]. intros [? _]. done.
    + rewrite IH. split; [by intros ?; split|by intros [_ ?]].
Qed.

Lemma PyDict_get_Some_In d k v : PyDict.get k d = Some v → (k, v) ∈ d.
Proof.
  induction d as [|[k' v'] d IH]; simpl; [done|].
  destruct (decide (k' = k)) as [->|Hne]; [intros [= ->]; left|right; auto].
Qed.

Lemma PyDict_get_In d k v : NoDup (PyDict.keys d) → (k, v) ∈ d → PyDict.get k d = Some v.
Proof.
  unfold PyDict.keys. induction d as [|[k' v'] d IH]; simpl; intros Hnd Hin.
  - by apply elem_of_nil in Hin.
  - apply NoDup_cons in Hnd as [Hk' Hnd].
    apply elem_of_cons in Hin as [[= -> ->]|Hin]; [by rewrite decide_True|].
    rewrite decide_False; [by apply IH|].
    intros ->. apply Hk'. apply list_elem_of_fmap. by exists (k, v).
Qed.

(** Setting an absent key appends it. *)
Lemma PyDict_set_fresh d k v : k ∉ PyDict.keys d → PyDict.set k v d = d ++ [(k, v)].
Proof.
  unfold PyDict.keys. induction d as [|[k' v'] d IH]; simpl; [done|].
  rewrite not_elem_of_cons. intros [Hne Hk].
  rewrite decide_False by done. by rewrite IH.
Qed.

(** Deleting a key of a dictionary keeps the other items in order. *)
Lemma PyDict_del_filter d k :
  NoDup (PyDict.keys d) → PyDict.del k d = filter (λ kv, kv.1 ≠ k) d.
Proof.
  unfold PyDict.keys. induction d as [|[k' v'] d IH]; simpl; intros Hnd; [done|].
  apply NoDup_cons in Hnd as [Hk' Hnd].
  destruct (decide (k' = k)) as [->|Hne].
  - rewrite filter_cons_False by (simpl; tauto).
    symmetry. clear IH. induction d as [|[k0 v0] d IH]; [done|].
    simpl in Hk'. apply not_elem_of_cons in Hk' as [Hne Hk'].
    apply NoDup_cons in Hnd as [_ Hnd].
    rewrite filter_cons_True by (simpl; congruence). by rewrite IH.
  - rewrite filter_cons_True by done. by rewrite IH.
Qed.
Lemma PyDict_get_del_ne d k k' : k' ≠ k → PyDict.get k' (PyDict.del k d) = PyDict.get k' d.
Proof.
  intros Hne. induction d as [|[k0 v0] d IH]; simpl; [done|].
  destruct (decide (k0 = k)) as [->|Hne0]; simpl.
  - by rewrite decide_False.
  - by rewrite IH.
Qed.

Lemma PyDict_get_del_eq d k : NoDup (PyDict.keys d) → PyDict.get k (PyDict.del k d) = None.
Proof.
  intros Hnd. rewrite PyDict_del_filter by done. apply PyDict_get_None.
  unfold PyDict.keys. intros ([k' v'] & -> & Hin)%list_elem_of_fmap.
  apply list_elem_of_filter in Hin as [Hne _]. by apply Hne.
Qed.

Lemma PyDict_del_absent d k : PyDict.get k d = None → PyDict.del k d = d.
Proof.
  induction d as [|[k0 v0] d IH]; simpl; [done|].
  destruct (decide (k0 = k)); [done|]. intros Hget. by rewrite IH.
Qed.

(** Setting a key that is there keeps the order of the keys. *)
Lemma PyDict_set_keys_present d k v :
  k ∈ PyDict.keys d → PyDict.keys (PyDict.set k v d) = PyDict.keys d.
Proof.
  unfold PyDict.keys. induction d as [|[k' v'] d IH]; simpl.
  - by intros ?%elem_of_nil.
  - intros Hin. destruct (decide (k' = k)) as [->|Hne]; simpl; [done|].
    apply elem_of_cons in Hin as [->|Hin]; [done|]. f_equal. by apply IH.
Qed.
End DictLemmas.

(** ** The registry, read and written *)

Lemma to_db_fields_ok (fields : gmap string Field) (names : list string) :
  Forall (λ n, is_Some (fields !! n)) names →
  ∃ out, _to_db_fields fields names = inr out
    ∧ length out = length names
    ∧ ∀ i n f, names !! i = Some n → fields !! n = Some f →
        out !! i = Some (db_name_or n f).
Proof.
  induction 1 as [|n names [f Hf] _ (out & Hout & Hlen & Hnth)]; simpl.
  - exists []. split; [done|]. split; [done|]. intros i n f Hi. by destruct i.
  - rewrite Hf, Hout. simpl. eexists. split; [reflexivity|]. split; [simpl; by rewrite Hlen|].
    intros [|i] m g Hi Hg; simpl in *.
    + injection Hi as <-. rewrite Hf in Hg. injection Hg as <-. reflexivity.
    + by eapply Hnth.
Qed.

(** X1: listing the fields of a consistent registry never fails. When
the keys of [_fields] are the names of [_fields_ordered],
[_get_fields_ordered] returns the names of [_fields_ordered] in their
order, without the names that begin with an underscore unless private
names are asked for; with [use_db_fields=True] it returns, position by
position, the database name of each of these names. *)
Theorem get_fields_ordered_listing (w : World) (include_private : bool) :
  keys_match w →
  ∃ names out,
    _get_fields_ordered (_fields w) (_fields_ordered w) include_private false = inr names
    ∧ _get_fields_ordered (_fields w) (_fields_ordered w) include_private true = inr out
    ∧ names `sublist_of` _fields_ordered w
    ∧ (∀ n, n ∈ names
         ↔ n ∈ _fields_ordered w
           ∧ (include_private = true ∨ PyStr.startswith n "_" = false))
    ∧ length out = length names
    ∧ ∀ i n f, names !! i = Some n → _fields w !! n = Some f →
        out !! i = Some (db_name_or n f).
Proof.
  intros Hk. unfold _get_fields_ordered.
  set (names := if include_private then _fields_ordered w
                else filter (λ f, PyStr.startswith f "_" = false) (_fields_ordered w)).
  assert (Hin : ∀ n, n ∈ names
            ↔ n ∈ _fields_ordered w
              ∧ (include_private = true ∨ PyStr.startswith n "_" = false)).
  { intros n. subst names. destruct include_private.
    - split; [by auto|by intros []].
    - rewrite list_elem_of_filter. split; [by intros []; auto|by intros [? [|]]]. }
  destruct (to_db_fields_ok (_fields w) names) as (out & Hout & Hlen & Hnth).
  { apply Forall_forall. intros n Hn. apply (keys_match_elem w n Hk).
    by apply Hin in Hn as [? _]. }
  exists names, out. split; [done|]. split; [done|]. split.
  { subst names. destruct include_private; [done|apply sublist_filter]. }
  done.
Qed.

Lemma get_fields_ordered_listing_witness :
  ∃ names out,
    _get_fields_ordered (_fields frames_world) (_fields_ordered frames_world) true false
    = inr names
    ∧ _get_fields_ordered (_fields frames_world) (_fields_ordered frames_world) true true
      = inr out
    ∧ names `sublist_of` _fields_ordered frames_world
    ∧ (∀ n, n ∈ names
         ↔ n ∈ _fields_ordered frames_world
           ∧ (true = true ∨ PyStr.startswith n "_" = false))
    ∧ length out = length names
    ∧ ∀ i n f, names !! i = Some n → _fields frames_world !! n = Some f →
        out !! i = Some (db_name_or n f).
Proof.
  apply (get_fields_ordered_listing frames_world true). vm_compute. reflexivity.
Defined.

(** X2: [_to_db_fields] maps every registered name to its database name
([db_field], or the name itself when there is none or it is empty),
position by position; a name that is not registered makes it raise
[KeyError] for the first such name. *)
Theorem to_db_fields_names_and_errors (fields : gmap string Field) (names : list string) :
  (Forall (λ n, is_Some (fields !! n)) names →
     ∃ out, _to_db_fields fields names = inr out
       ∧ length out = length names
       ∧ ∀ i n f, names !! i = Some n → fields !! n = Some f →
           out !! i = Some (db_name_or n f))
  ∧ (∀ pre n rest, names = pre ++ n :: rest →
       Forall (λ n, is_Some (fields !! n)) pre → fields !! n = None →
       _to_db_fields fields names = inl (KeyError n)).
Proof.
  split; [apply to_db_fields_ok|].
  intros pre n rest -> Hpre Hn.
  induction Hpre as [|m pre [f Hf] _ IH]; simpl.
  - by rewrite Hn.
  - by rewrite Hf, IH.
Qed.

Lemma to_db_fields_names_and_errors_witness :
  (∃ out, _to_db_fields (_fields (world_of [sample_id_field; int_a] empty_doc))
            ["a"; "sample_id"] = inr out
     ∧ out !! 1 = Some "_sample_id")
  ∧ _to_db_fields (_fields world_ab) ["a"; "zz"; "b"] = inl (KeyError "zz").
Proof.
  destruct (to_db_fields_names_and_errors
              (_fields (world_of [sample_id_field; int_a] empty_doc)) ["a"; "sample_id"])
    as [Hok _].
  destruct (to_db_fields_names_and_errors (_fields world_ab) ["a"; "zz"; "b"])
    as [_ Herr].
  split.
  - destruct Hok as (out & Hout & _ & Hnth).
    + repeat constructor; vm_compute; eauto.
    + exists out. split; [exact Hout|].
      apply (Hnth 1 "sample_id" sample_id_field); vm_compute; reflexivity.
  - apply (Herr ["a"] "zz" ["b"]); [reflexivity| |vm_compute; reflexivity].
    repeat constructor. vm_compute. eauto.
Defined.

(** X3: after [_declare_field] the descriptor is found under its name,
with the [required] and [null] flags of the descriptor it replaced, every
other name is untouched, a new name is appended to the ordered names and
a known one keeps its place; declaring the stored descriptor again
changes nothing. *)
Theorem declare_field_lookup (field : Field) (w : World) :
  let prev := _fields w !! name field in
  let stored := declared_as prev field in
  let w' := (_declare_field field w).2 in
  (_declare_field field w).1 = inr stored
  ∧ _fields w' !! name field = Some stored
  ∧ (∀ k, k ≠ name field → _fields w' !! k = _fields w !! k)
  ∧ _fields_ordered w'
    = match prev with
      | Some _ => _fields_ordered w
      | None => _fields_ordered w ++ [name field]
      end
  ∧ _declare_field stored w' = (inr stored, w')
  ∧ _declare_field field w' = (inr stored, w').
Proof.
  unfold _declare_field. destruct (_fields w !! name field) as [p|] eqn:Hp; simpl.
  - split; [done|]. split; [apply lookup_insert_eq|]. split.
    { intros k Hk. by rewrite lookup_insert_ne, lookup_delete_ne. }
    split; [done|].
    rewrite lookup_insert_eq. unfold set_fields. simpl.
    rewrite !insert_delete_eq, !insert_insert_eq. by destruct field.
  - split; [done|]. split; [apply lookup_insert_eq|]. split.
    { intros k Hk. by rewrite lookup_insert_ne, lookup_delete_ne. }
    split; [done|].
    rewrite lookup_insert_eq. unfold set_fields, set_fields_ordered. simpl.
    rewrite !insert_delete_eq, !insert_insert_eq. by destruct field.
Qed.

Lemma get_db_field_twice (f : Field) (b c : string) :
  _get_db_field (set_db_field (_get_db_field f b) (set_name b f)) c = _get_db_field f c.
Proof.
  unfold _get_db_field. destruct f as [n [d|] rq nl t]; simpl; [|done].
  destruct (decide (d = "_" +:+ n)); simpl.
  - by rewrite decide_True.
  - by rewrite decide_False by apply underscore_prefix_ne.
Qed.

Lemma set_fields_attr_twice cls l l' d :
  set_fields_attr cls l (set_fields_attr cls l' d) = set_fields_attr cls l d.
Proof. unfold set_fields_attr. by destruct (_is_frames_doc cls). Qed.

Lemma fields_attr_set cls l d : fields_attr cls (set_fields_attr cls l d) = l.
Proof. unfold set_fields_attr, fields_attr. by destruct (_is_frames_doc cls). Qed.

Lemma set_fields_attr_id cls d : set_fields_attr cls (fields_attr cls d) d = d.
Proof. unfold set_fields_attr, fields_attr. by destruct (_is_frames_doc cls), d. Qed.





Lemma filter_Forall_id {A} (P : A → Prop) `{∀ x, Decision (P x)} (l : list A) :
  Forall P l → filter P l = l.
Proof.
  induction 1 as [|x l Hx _ IH]; [done|].
  rewrite filter_cons_True by done. by rewrite IH.
Qed.

Lemma filter_ext_Forall {A} (P Q : A → Prop) `{∀ x, Decision (P x)} `{∀ x, Decision (Q x)}
    (l : list A) :
  Forall (λ x, P x ↔ Q x) l → filter P l = filter Q l.
Proof.
  induction 1 as [|x l Hx _ IH]; [done|].
  destruct (decide (P x)) as [HP|HP].
  - rewrite !filter_cons_True by tauto. by rewrite IH.
  - rewrite !filter_cons_False by tauto. exact IH.
Qed.

Lemma delete_first_app_new (n : string) (docs : list SampleFieldDocument) (f : Field) :
  Forall (λ d, name d ≠ n) docs → name f = n → delete_first n (docs ++ [f]) = docs.
Proof.
  intros Hdocs Hf. induction Hdocs as [|d docs Hd _ IH]; simpl.
  - by rewrite decide_True.
  - rewrite decide_False by done. by rewrite IH.
Qed.

(** X5: adding a top-level field and deleting it again is a round trip.
When the name is not in the registry, in the ordered names or among the
field documents, [_add_field_schema] followed by [_delete_field_schema]
gives back the registry and the dataset document one started from. *)
Theorem add_then_delete_field_schema cls (path : string) (field : Field) (w : World) :
  PyStr.count dot path = 0 → _fields w !! path = None →
  path ∉ _fields_ordered w → no_field_doc cls w path →
  (exec _add_field_schema cls path field; _delete_field_schema cls path) w = (inr tt, w).
Proof.
  intros Hdot Hnew Hord Hdocs. unfold bind, _add_field_schema.
  rewrite (split_path_no_dot path Hdot). unfold _declare_field. simpl. rewrite Hnew.
  unfold _delete_field_schema. simpl. rewrite lookup_insert_eq.
  unfold no_field_doc in Hdocs.
  destruct w as [m l d s st ws]; simpl in *.
  unfold set_dataset_doc, set_fields_ordered, set_fields; simpl.
  rewrite fields_attr_set, set_fields_attr_twice. f_equal. f_equal.
  - rewrite delete_insert_eq, delete_delete_eq. by apply delete_id.
  - rewrite filter_app, filter_cons_False, filter_nil, app_nil_r by (by intros ?).
    apply filter_Forall_id, Forall_forall. by intros x Hx ->.
  - rewrite delete_first_app_new by done. apply set_fields_attr_id.
Qed.

Lemma add_then_delete_field_schema_witness :
  (exec _add_field_schema demo_cls "c" int_c; _delete_field_schema demo_cls "c") world_ab
  = (inr tt, world_ab).
Proof.
  apply (add_then_delete_field_schema demo_cls "c" int_c world_ab).
  - reflexivity.
  - vm_compute. reflexivity.
  - intros Hin. apply list_elem_of_In in Hin. simpl in Hin.
    destruct Hin as [?|[?|[]]]; discriminate.
  - repeat constructor; discriminate.
Defined.

(** X6: the keys a rename writes to storage are the database names the
schema reports. For a field [a] whose storage name is not the empty
string, the pair [_handle_db_fields] builds for the [$rename] of [a] to
[b] is the database name [_to_db_fields] gives [a] before
[_rename_field_schema] and the one it gives [b] after. *)
Theorem rename_storage_keys_match_schema cls (a b : string) (f : Field) (w w' : World) :
  _fields w !! a = Some f → db_field f ≠ Some "" →
  _rename_field_schema cls a b w = (inr tt, w') →
  _to_db_fields (_fields w) [a] = inr [(_handle_db_field2 w a b).1]
  ∧ _to_db_fields (_fields w') [b] = inr [(_handle_db_field2 w a b).2].
Proof.
  intros Hf Hne Hrun. unfold _rename_field_schema in Hrun. rewrite Hf in Hrun.
  injection Hrun as <-. unfold _handle_db_field2. rewrite Hf. simpl.
  rewrite Hf, lookup_insert_eq. simpl. unfold _get_db_field.
  destruct (db_field f) as [d|]; simpl; [|done].
  destruct (decide (d = "")) as [->|_]; [done|]. split; [done|].
  destruct (decide (d = "_" +:+ name f)); simpl.
  - change ("_" +:+ b) with (String "_" b). by destruct (decide (String "_" b = "")).
  - destruct (decide (b = "")); by subst.
Qed.

Lemma rename_storage_keys_match_schema_witness :
  let w := world_of [sample_id_field] (doc_of [sample_id_field] None) in
  _to_db_fields (_fields w) ["sample_id"] = inr ["_sample_id"]
  ∧ _to_db_fields (_fields (_rename_field_schema demo_cls "sample_id" "source_id" w).2)
      ["source_id"] = inr ["_source_id"].
Proof.
  apply (rename_storage_keys_match_schema demo_cls "sample_id" "source_id"
           sample_id_field
           (world_of [sample_id_field] (doc_of [sample_id_field] None))).
  - vm_compute. reflexivity.
  - discriminate.
  - vm_compute. reflexivity.
Defined.

(** ** [NoDatasetMixin] *)

(** A loop that sets pairwise distinct fresh keys appends its items. *)
Lemma foldl_set_fresh {A B} (key : A → string) (val : A → B) (l : list A)
    (acc : list (string * B)) :
  NoDup (PyDict.keys acc ++ (key <$> l)) →
  foldl (λ d x, PyDict.set (key x) (val x) d) acc l = acc ++ ((λ x, (key x, val x)) <$> l).
Proof.
  revert acc. induction l as [|x l IH]; intros acc Hnd; simpl.
  - by rewrite app_nil_r.
  - simpl in Hnd. apply NoDup_app in Hnd as (Hacc & Hdisj & Hl).
    apply NoDup_cons in Hl as [Hx Hl].
    rewrite PyDict_set_fresh by (intros Hin; eapply Hdisj; [done|left]).
    rewrite IH; [by rewrite <- app_assoc|].
    unfold PyDict.keys. rewrite fmap_app. simpl. rewrite <- app_assoc. simpl.
    apply NoDup_app. split_and!; [done| |by apply NoDup_cons].
    intros k Hk. apply Hdisj in Hk. exact Hk.
Qed.

Section NoDatasetProofs.
Context {types : FieldTypeSystem}.
Context {V S : Type} {codec : ValueCodec V S}.
Implicit Types (data : list (string * option V)) (v : option V).

Lemma to_dict_items data extended :
  NoDup (stored_keys data) →
  to_dict data extended
  = (λ kv, (to_dict_key kv.1 kv.2, serialize_value kv.2 extended)) <$> data.
Proof.
  intros Hnd. unfold to_dict.
  by rewrite (foldl_set_fresh (λ kv, to_dict_key kv.1 kv.2)
                (λ kv, serialize_value kv.2 extended)).
Qed.

Lemma from_dict_key_to_dict_key k v :
  restorable (k, v) → from_dict_key (to_dict_key k v) v = k.
Proof.
  intros [Hid Hpriv]. simpl in *. unfold to_dict_key, from_dict_key.
  destruct (decide (k = "id")) as [->|Hk]; [done|].
  destruct (holds_object_id v) eqn:Hv; simpl in *.
  - rewrite Hpriv. cbn [negb andb]. change ("_" +:+ k) with (String "_" k).
    destruct (decide (String "_" k = "_id")) as [[=]|_]; [congruence|].
    unfold PyStr.startswith. cbn [String.prefix PyStr.drop].
    destruct (ascii_dec "_" "_"); [by destruct k|done].
  - by rewrite decide_False.
Qed.

(** X7: [from_dict] inverts [to_dict]. For attribute values [_data]
with distinct names that are stored under distinct keys, every value
surviving the codec and every item being restorable (no field named
[_id], no [ObjectId] held under a private name), [from_dict] applied to
[to_dict] constructs the document from the same names and values, in
the same order. *)
Theorem from_dict_to_dict data extended :
  NoDup (PyDict.keys data) → NoDup (stored_keys data) →
  Forall (λ kv, deserialize_value (serialize_value kv.2 extended) = kv.2) data →
  Forall restorable data →
  from_dict (to_dict data extended) = data.
Proof.
  intros Hkeys Hstored Hcodec Hrest. rewrite to_dict_items by done.
  assert (Hback : (λ kv : string * S, (from_dict_key kv.1 (deserialize_value kv.2),
                                       deserialize_value kv.2))
                  <$> ((λ kv, (to_dict_key kv.1 kv.2, serialize_value kv.2 extended))
                       <$> data) = data).
  { rewrite <- list_fmap_compose. rewrite <- (list_fmap_id data) at 2.
    apply Forall_fmap_ext. rewrite Forall_forall in Hcodec, Hrest.
    apply Forall_forall. intros [k v] Hin.
    specialize (Hcodec _ Hin). specialize (Hrest _ Hin). simpl in *.
    rewrite Hcodec. by rewrite from_dict_key_to_dict_key. }
  unfold from_dict.
  rewrite (foldl_set_fresh (λ kv : string * S, from_dict_key kv.1 (deserialize_value kv.2))
             (λ kv, deserialize_value kv.2)).
  - simpl. exact Hback.
  - apply (f_equal (fmap fst)) in Hback. rewrite <- list_fmap_compose in Hback.
    unfold PyDict.keys in *. rewrite <- Hback in Hkeys. exact Hkeys.
Qed.

(** X8: the database names of a document are the keys it is stored
under. For attribute values with distinct names that are stored under
distinct keys, [_get_field_names(include_private=True,
use_db_fields=True)] lists the keys of [to_dict()], in the same order. *)
Theorem nd_db_field_names_are_stored_keys data extended :
  NoDup (PyDict.keys data) → NoDup (stored_keys data) →
  nd_get_field_names data true true = PyDict.keys (to_dict data extended).
Proof.
  intros Hkeys Hstored. rewrite to_dict_items by done.
  unfold nd_get_field_names, nd_to_db_fields, PyDict.keys.
  rewrite <- !list_fmap_compose. apply Forall_fmap_ext, Forall_forall.
  intros [k v] Hin. simpl. by rewrite (PyDict_get_In data k v).
Qed.

Variable is_frames_doc : bool.

(** X9: what [set_field] of a document without a dataset leaves. When
the call returns, the field reads back as the value set, every other
field reads as before, and the names keep their order: a field the
document had stays in place, a new one (only with [create]) goes last. *)
Theorem nd_set_field_then_get data n v create data' :
  nd_set_field is_frames_doc data n v create = inr data' →
  nd_get_field is_frames_doc data' n = inr v
  ∧ (∀ m, m ≠ n → nd_get_field is_frames_doc data' m = nd_get_field is_frames_doc data m)
  ∧ (if nd_has_field data n then PyDict.keys data' = PyDict.keys data
     else create = true ∧ PyDict.keys data' = PyDict.keys data ++ [n]).
Proof.
  unfold nd_set_field, nd_get_field, nd_has_field.
  destruct (bool_decide (is_Some (PyDict.get n data))) eqn:Hhas.
  - rewrite andb_false_r.
    destruct (validate_field_name n None false); [done|]. intros [= <-].
    rewrite PyDict_get_set_eq. split; [done|]. split.
    + intros m Hm. by rewrite PyDict_get_set_ne.
    + apply bool_decide_eq_true in Hhas. apply PyDict_set_keys_present.
      destruct (decide (n ∈ PyDict.keys data)) as [|Hn]; [done|].
      apply PyDict_get_None in Hn. rewrite Hn in Hhas. by destruct Hhas.
  - destruct create; simpl; [|done].
    destruct (validate_field_name n None false); [done|]. intros [= <-].
    rewrite PyDict_get_set_eq. split; [done|]. split.
    + intros m Hm. by rewrite PyDict_get_set_ne.
    + split; [done|]. apply bool_decide_eq_false in Hhas.
      rewrite PyDict_set_fresh.
      * unfold PyDict.keys. by rewrite fmap_app.
      * apply PyDict_get_None. destruct (PyDict.get n data) eqn:Hg; [|done].
        exfalso. apply Hhas. by eexists.
Qed.

Variable as_builtin : V → V.

(** X10: what [clear_field] of a document without a dataset leaves.
It returns only for a field the document has. Every other field then
reads as before; a default field reads as its default value, whereas any
other field is gone from the document. *)
Theorem nd_clear_field_result (defaults : list (string * DefaultField (option V)))
    data n data' :
  NoDup (PyDict.keys data) →
  nd_clear_field is_frames_doc as_builtin defaults data n = inr data' →
  nd_has_field data n = true
  ∧ (∀ m, m ≠ n → nd_get_field is_frames_doc data' m = nd_get_field is_frames_doc data m)
  ∧ match PyDict.get n defaults with
    | Some field =>
        ∃ dv, _get_default as_builtin field = inr dv
              ∧ nd_get_field is_frames_doc data' n = inr dv
    | None => nd_has_field data' n = false
    end.
Proof.
  intros Hnd. unfold nd_clear_field.
  destruct (PyDict.get n defaults) as [field|].
  - destruct (_get_default as_builtin field) as [e|dv]; [done|]. intros Hset.
    unfold nd_set_field in Hset. simpl in Hset.
    destruct (nd_has_field data n) eqn:Hhas; [|done]. simpl in Hset.
    destruct (validate_field_name n None false); [done|]. injection Hset as <-.
    split; [done|]. split.
    + intros m Hm. unfold nd_get_field. by rewrite PyDict_get_set_ne.
    + exists dv. split; [done|]. unfold nd_get_field. by rewrite PyDict_get_set_eq.
  - destruct (nd_has_field data n) eqn:Hhas; simpl; [|done]. intros [= <-].
    split; [done|]. split.
    + intros m Hm. unfold nd_get_field. by rewrite PyDict_get_del_ne.
    + unfold nd_has_field. rewrite PyDict_get_del_eq by done.
      apply bool_decide_eq_false. by intros [? ?].
Qed.

End NoDatasetProofs.

Lemma from_dict_to_dict_witness : from_dict (to_dict demo_data false) = demo_data.
Proof.
  apply (from_dict_to_dict demo_data false).
  - vm_compute. repeat (constructor; [set_solver|]). constructor.
  - vm_compute. repeat (constructor; [set_solver|]). constructor.
  - repeat constructor.
  - repeat constructor; discriminate.
Defined.

Lemma nd_db_field_names_are_stored_keys_witness :
  nd_get_field_names demo_data true true = ["_id"; "filepath"; "_frame_id"; "_rand"].
Proof.
  rewrite (nd_db_field_names_are_stored_keys demo_data false).
  - reflexivity.
  - vm_compute. repeat (constructor; [set_solver|]). constructor.
  - vm_compute. repeat (constructor; [set_solver|]). constructor.
Defined.

Lemma nd_set_field_then_get_witness :
  let data' := PyDict.set "frame_id" (Some (VInt 3)) demo_data in
  nd_get_field false data' "frame_id" = inr (Some (VInt 3))
  ∧ (∀ m, m ≠ "frame_id" → nd_get_field false data' m = nd_get_field false demo_data m)
  ∧ PyDict.keys data' = PyDict.keys demo_data.
Proof.
  apply (nd_set_field_then_get (types := demo_types) false demo_data "frame_id"
           (Some (VInt 3)) false).
  vm_compute. reflexivity.
Defined.

Lemma nd_clear_field_result_witness :
  let data' := PyDict.del "_rand" demo_data in
  nd_has_field demo_data "_rand" = true
  ∧ (∀ m, m ≠ "_rand" → nd_get_field false data' m = nd_get_field false demo_data m)
  ∧ nd_has_field data' "_rand" = false.
Proof.
  apply (nd_clear_field_result (types := demo_types) false id demo_defaults demo_data "_rand").
  - vm_compute. repeat (constructor; [set_solver|]). constructor.
  - vm_compute. reflexivity.
Defined.

(** ** Merging and adding fields *)

Lemma schema_extended_refl w : schema_extended w w.
Proof. by repeat split. Qed.

Lemma schema_extended_trans w1 w2 w3 :
  schema_extended w1 w2 → schema_extended w2 w3 → schema_extended w1 w3.
Proof.
  intros (Hd1 & Ho1 & Hs1 & Hw1 & Hv1) (Hd2 & Ho2 & Hs2 & Hw2 & Hv2).
  split_and!; [set_solver|by etrans|congruence..].
Qed.

(** A loop keeps what every run of its body keeps. *)
Lemma for_each_preserves {A} (P : World → Prop) (body : A → M unit) (l : list A) w r w' :
  (∀ x w r w', body x w = (r, w') → P w → P w') →
  for_each l body w = (r, w') → P w → P w'.
Proof.
  intros Hbody. revert w. induction l as [|x l IH]; intros w Hrun HP.
  - by inversion Hrun; subst.
  - rewrite for_each_cons in Hrun. destruct (body x w) as [[e|[]] w1] eqn:Hx.
    + inversion Hrun; subst. eauto.
    + eauto.
Qed.

Section AddProofs.
Context {types : FieldTypeSystem}.
Variable cls : DocClass.

Lemma declare_field_extends field w r w1 :
  _declare_field field w = (r, w1) →
  schema_extended w w1 ∧ dataset_doc w1 = dataset_doc w
  ∧ is_Some (_fields w1 !! name field) ∧ (registry_ok w → registry_ok w1).
Proof.
  intros Hrun.
  assert (Hop : run_op cls (DeclareField field) w = (inr tt, w1)).
  { simpl. unfold bind. rewrite Hrun.
    unfold _declare_field in Hrun. by destruct (_fields w !! name field); inversion Hrun. }
  assert (Hreg : registry_ok w → registry_ok w1).
  { intros [Hk Hnd]. split; [by eapply run_op_keys_match|].
    by apply (run_op_NoDup cls (DeclareField field) w (inr tt) w1). }
  unfold _declare_field in Hrun.
  destruct (_fields w !! name field) as [p|] eqn:Hp; inversion Hrun; subst; clear Hrun;
    (split; [|split; [done|split; [simpl; rewrite lookup_insert_eq; by eexists|done]]]);
    (split_and!; simpl; [|by (done || apply prefix_app_r)|done..]);
    rewrite dom_insert, dom_delete; intros x Hx;
    destruct (decide (x = name field)); set_solver.
Qed.

Lemma add_field_schema_extends path field w r w' :
  _add_field_schema cls path field w = (r, w') →
  schema_extended w w' ∧ (registry_ok w → registry_ok w').
Proof.
  unfold _add_field_schema. destruct (split_path path) as [chunks name'].
  destruct chunks as [|chunk rest].
  - destruct (_declare_field _ w) as [r1 w1] eqn:Hd.
    apply declare_field_extends in Hd as (Hext & _ & _ & Hreg).
    destruct r1 as [e|f2]; intros [= <- <-]; [done|].
    split; [exact Hext|]. intros Hr. exact (Hreg Hr).
  - destruct (lookup_field chunk _); [|intros [= <- <-]; split; [apply schema_extended_refl|done]].
    destruct (_fields w !! chunk) as [doc|] eqn:Hdoc;
      [|intros [= <- <-]; split; [apply schema_extended_refl|done]].
    destruct (embedded_fields doc);
      [|intros [= <- <-]; split; [apply schema_extended_refl|done]].
    destruct (add_embedded_field_schema _ _ _ _ _ _ _ _) as [[r1 sub_docs'] sub'].
    intros [= <- <-].
    assert (Hdom : dom (<[chunk := with_embedded_fields sub' doc]> (_fields w))
                   = dom (_fields w)).
    { rewrite dom_insert_L. apply set_eq. intros x.
      assert (chunk ∈ dom (_fields w)) by (apply elem_of_dom; eauto). set_solver. }
    split.
    + split_and!; simpl; [by rewrite Hdom|done..].
    + intros [Hk Hnd]. split; [|done]. unfold keys_match in *. simpl. by rewrite Hdom.
Qed.

Lemma add_loop_extends (new_schema : list (string * Field)) w r w' :
  for_each new_schema (λ pf, _add_field_schema cls pf.1 pf.2) w = (r, w') →
  schema_extended w w' ∧ (registry_ok w → registry_ok w').
Proof.
  intros Hrun.
  apply (for_each_preserves
           (λ w1, schema_extended w w1 ∧ (registry_ok w → registry_ok w1))
           _ _ _ _ _) in Hrun; [done| |split; [apply schema_extended_refl|done]].
  intros [p f] w1 r1 w2 Hadd [Hext Hreg].
  apply add_field_schema_extends in Hadd as [Hext2 Hreg2].
  split; [by eapply schema_extended_trans|auto].
Qed.

Lemma merge_field_schema_extends (schema : list (string * Field))
    (expand_schema recursive validate : bool) w r w' :
  merge_field_schema cls schema expand_schema recursive validate w = (r, w') →
  dom (_fields w) ⊆ dom (_fields w').
Proof.
  rewrite merge_field_schema_unfold.
  destruct (collect_new_schema cls schema [] validate recursive w) as [e|[|pf new_schema]];
    [by intros [= <- <-]..|].
  destruct expand_schema; cbn [negb]; [|by intros [= <- <-]].
  unfold bind at 1.
  destruct (for_each (pf :: new_schema) _ w) as [[e|[]] w1] eqn:Hloop;
    apply add_loop_extends in Hloop as [(Hdom & _) _].
  - by intros [= <- <-].
  - unfold bind, save, modify, ret. by intros [= <- <-].
Qed.

(** Merging a new, public, top-level name reports exactly that field. *)
Lemma merge_field_top_new (n : string) (F : Field) (validate recursive : bool) w new_fields :
  PyStr.count dot n = 0 → PyStr.startswith n "_" = false → n ≠ "id" →
  _fields w !! n = None →
  _merge_field cls n F validate recursive w = inr new_fields → new_fields = [(n, F)].
Proof.
  intros Hdot Hpriv Hid Hnone. unfold _merge_field.
  rewrite (split_path_no_dot n Hdot). cbn [walk_chunks rbind].
  rewrite Hpriv, andb_false_r. rewrite decide_False by done. rewrite Hnone.
  destruct (validate_field_name _ _ _); [done|].
  destruct (is_group_field F); [|by intros [= <-]].
  destruct (_is_frames_doc cls); [done|].
  destruct (group_field (dataset_doc w)); [|by intros [= <-]].
  case_decide; [by intros [= <-]|done].
Qed.

(** X11: what [merge_field_schema] does to the class and the database.
Whatever the schema merged and whatever the outcome, no field leaves the
registry, the ordered names only gain names at the end, the registry
invariant is kept, and storage is not written. A call that returns
[False] changes nothing at all; the dataset document is saved exactly by
the calls that return [True], as the last thing they do, and these are
calls with [expand_schema=True]. *)
Theorem merge_field_schema_effects (schema : list (string * Field))
    (expand_schema recursive validate : bool) w r w' :
  merge_field_schema cls schema expand_schema recursive validate w = (r, w') →
  dom (_fields w) ⊆ dom (_fields w')
  ∧ _fields_ordered w `prefix_of` _fields_ordered w'
  ∧ storage w' = storage w
  ∧ (registry_ok w → registry_ok w')
  ∧ match r with
    | inr true => expand_schema = true ∧ saved w' = dataset_doc w'
    | inr false => w' = w
    | inl _ => saved w' = saved w
    end.
Proof.
  unfold merge_field_schema, bind, get_world, lift.
  destruct (collect_new_schema cls schema [] validate recursive w) as [e|new_schema].
  { intros [= <- <-]. split_and!; by (done || reflexivity || (intros; congruence)). }
  destruct new_schema as [|pf new_schema].
  { intros [= <- <-]. split_and!; by (done || reflexivity || (intros; congruence)). }
  destruct expand_schema; cbn [negb]; cbv beta.
  2: { intros [= <- <-]. split_and!; by (done || reflexivity || (intros; congruence)). }
  destruct (for_each (pf :: new_schema) _ w) as [[e|[]] w1] eqn:Hloop.
  - intros [= <- <-].
    apply add_loop_extends in Hloop as [(? & ? & ? & ? & ?) ?]. split_and!; by (done || reflexivity || (intros; congruence)).
  - unfold save, modify, ret. intros [= <- <-].
    apply add_loop_extends in Hloop as [(? & ? & ? & ? & ?) ?]. split_and!; by (done || reflexivity || (intros; congruence)).
Qed.

End AddProofs.

Lemma merge_field_schema_effects_witness :
  ∃ w', merge_field_schema (types := demo_types) demo_cls [("c", int_c)] true true true
          world_ab = (inr true, w')
        ∧ dom (_fields world_ab) ⊆ dom (_fields w')
        ∧ saved w' = dataset_doc w'.
Proof.
  eexists. split; [vm_compute; reflexivity|].
  pose proof (merge_field_schema_effects (types := demo_types) demo_cls [("c", int_c)]
                true true true world_ab _ _ eq_refl) as (Hdom & _ & _ & _ & _ & Hsaved).
  split; [exact Hdom|exact Hsaved].
Defined.

(** ** Batch renames that pass the checks *)

Section RenameProofs.
Context {types : FieldTypeSystem}.
Variable cls : DocClass.

Lemma rename_violation_None_inv w a b :
  rename_violation cls w (a, b) = None →
  is_Some (_fields w !! a) ∧ _fields w !! b = None.
Proof.
  unfold rename_violation. repeat case_decide; try done. intros _. split.
  - by destruct (_fields w !! a); [eexists|].
  - destruct (_fields w !! b) eqn:Hb; [|done]. exfalso. eauto.
Qed.

Lemma rename_fields_simple_ok field_names new_field_names w :
  length field_names = length new_field_names →
  ∃ ops, _rename_fields_simple cls field_names new_field_names w
         = (inr tt, set_storage (storage w ++ ops) w)
    ∧ length ops = (if field_names is [] then 0 else 1).
Proof.
  intros Hlen. unfold _rename_fields_simple.
  destruct field_names as [|a l]; [exists []; by destruct w; simpl; rewrite app_nil_r|].
  destruct new_field_names as [|b l']; [done|].
  unfold bind, get_world, lift, _handle_db_fields2. simpl. eexists [_]. split; reflexivity.
Qed.

(** The [$rename] of [_rename_fields_simple]. *)
Lemma rename_fields_simple_op field_names new_field_names w :
  length field_names = length new_field_names →
  _rename_fields_simple cls field_names new_field_names w
  = (inr tt,
     set_storage
       (storage w ++
          (if field_names is [] then []
           else [UpdateManyRename (__name__ cls)
                   (PyDict.of_pairs
                      ((λ p, _handle_db_field2 w p.1 p.2)
                         <$> zip field_names new_field_names))])) w).
Proof.
  intros Hlen. unfold _rename_fields_simple.
  destruct field_names as [|a l]; [by destruct w; simpl; rewrite app_nil_r|].
  destruct new_field_names as [|b l']; [done|].
  unfold bind, get_world, lift, _handle_db_fields2.
  cbn [zip_with fmap list_fmap fst snd]. unfold update_many, modify.
  rewrite zip_fst_snd. by destruct (_handle_db_field2 w a b).
Qed.

Lemma rename_loop_ok (ps : list (string * string)) w :
  registry_ok w → NoDup ps.*1 → NoDup ps.*2 →
  (∀ a b, (a, b) ∈ ps → is_Some (_fields w !! a) ∧ _fields w !! b = None) →
  ∃ w', for_each ps (λ p, _rename_field_schema cls p.1 p.2) w = (inr tt, w')
    ∧ registry_ok w'
    ∧ dom (_fields w') = dom (_fields w) ∖ list_to_set ps.*1 ∪ list_to_set ps.*2
    ∧ length (_fields_ordered w') = length (_fields_ordered w)
    ∧ storage w' = storage w
    ∧ app_config (dataset_doc w') = app_config (dataset_doc w).
Proof.
  revert w. induction ps as [|[a b] ps IH]; intros w Hreg Ha Hb Hps.
  { exists w. split; [done|]. split; [done|]. split; [set_solver|done]. }
  simpl in Ha, Hb. apply NoDup_cons in Ha as [Ha Has]. apply NoDup_cons in Hb as [Hb Hbs].
  destruct (Hps a b ltac:(left)) as [[f Hf] Hnone].
  rewrite for_each_cons. simpl.
  destruct (_rename_field_schema cls a b w) as [r1 w1] eqn:Hren.
  assert (r1 = inr tt ∧ dom (_fields w1) = {[ b ]} ∪ dom (_fields w) ∖ {[ a ]}
          ∧ length (_fields_ordered w1) = length (_fields_ordered w)
          ∧ storage w1 = storage w
          ∧ app_config (dataset_doc w1) = app_config (dataset_doc w))
    as (-> & Hdom1 & Hlen1 & Hst1 & Happ1).
  { unfold _rename_field_schema in Hren. rewrite Hf in Hren.
    injection Hren as <- <-. simpl.
    rewrite dom_insert_L, dom_delete_L, length_fmap. split_and!; try done.
    unfold set_fields_attr. by destruct (_is_frames_doc cls). }
  assert (registry_ok w1) as Hreg1.
  { destruct Hreg as [Hk Hnd]. split.
    - by apply (run_op_keys_match cls (RenameFieldSchema a b) w (inr tt) w1).
    - apply (run_op_NoDup cls (RenameFieldSchema a b) w (inr tt) w1); auto. }
  destruct (IH w1 Hreg1 Has Hbs) as (w' & Hloop & Hreg' & Hdom' & Hlen' & Hst' & Happ').
  { intros a' b' Hin. destruct (Hps a' b' ltac:(by right)) as [Ha' Hb'].
    assert (a' ≠ a).
    { intros ->. apply Ha. apply list_elem_of_fmap. by exists (a, b'). }
    assert (b' ≠ b).
    { intros ->. apply Hb. apply list_elem_of_fmap. by exists (a', b). }
    rewrite <- !elem_of_dom, <- not_elem_of_dom, Hdom1.
    apply elem_of_dom in Ha'. apply not_elem_of_dom in Hb'. set_solver. }
  exists w'. split; [done|]. split; [done|].
  split; [|split; [congruence|split; congruence]].
  rewrite Hdom', Hdom1. simpl.
  assert (b ∉ (list_to_set ps.*1 : gset string)).
  { rewrite elem_of_list_to_set. intros ([a' b'] & -> & Hin)%list_elem_of_fmap.
    destruct (Hps a' b' ltac:(by right)) as [[? Hx] _]. simpl in *. congruence. }
  apply not_elem_of_dom in Hnone.
  apply set_eq. intros x. destruct (decide (x = a)), (decide (x = b)); set_solver.
Qed.

(** X12: a batch rename that passes the checks. For lists of equal
length, old names without repetition, new names without repetition and
every pair passing the four checks, [_rename_fields] returns, the
registry invariant still holds, the registered names are the former ones
with each old name replaced by its new name, the ordered names keep
their number, storage receives exactly one operation (none for an empty
batch), the [$rename] on the collection of the class that maps, for each
pair in the order of the request, the storage name of the old field to
the storage name [_get_db_field] derives for the new name, the
application config is told of the renamed paths, and the dataset
document is saved. *)
Theorem rename_fields_applies field_names new_field_names w :
  registry_ok w →
  length field_names = length new_field_names →
  NoDup field_names → NoDup new_field_names →
  first_violation (rename_violation cls w) (zip field_names new_field_names) = None →
  ∃ w', _rename_fields cls field_names new_field_names w = (inr tt, w')
    ∧ registry_ok w'
    ∧ dom (_fields w')
      = dom (_fields w) ∖ list_to_set field_names ∪ list_to_set new_field_names
    ∧ length (_fields_ordered w') = length (_fields_ordered w)
    ∧ storage w'
      = storage w ++
          (if field_names is [] then []
           else [UpdateManyRename (__name__ cls)
                   (PyDict.of_pairs
                      ((λ p, _handle_db_field2 w p.1 p.2)
                         <$> zip field_names new_field_names))])
    ∧ app_config (dataset_doc w')
      = app_config (dataset_doc w) ++ [RenamePaths field_names new_field_names]
    ∧ saved w' = dataset_doc w'.
Proof.
  intros Hreg Hlen Ha Hb Hnone.
  destruct (rename_fields_unfold cls field_names new_field_names w) as (w0 & Hw0 & Hrun).
  rewrite Hnone in Hrun. rewrite Hrun. clear Hrun.
  destruct Hw0 as [g ->]. unfold rename_apply. unfold bind at 1.
  rewrite rename_fields_simple_op by exact Hlen.
  unfold bind at 1.
  match goal with |- context [for_each _ _ ?w1] =>
    destruct (rename_loop_ok (zip field_names new_field_names) w1)
      as (w2 & -> & Hreg2 & Hdom2 & Hlen2 & Hst2 & Happ2)
  end.
  - exact Hreg.
  - by rewrite fst_zip by lia.
  - by rewrite snd_zip by lia.
  - intros a b Hin. simpl.
    apply (rename_violation_None_inv w), (first_violation_None _ _ Hnone). exact Hin.
  - rewrite fst_zip, snd_zip in Hdom2 by lia. simpl in *.
    unfold bind, modify, save. eexists. split; [reflexivity|]. simpl.
    split; [exact Hreg2|]. split; [exact Hdom2|]. split; [exact Hlen2|].
    split; [by rewrite Hst2|]. split; [by rewrite Happ2|done].
Qed.

(** X27: two renames onto one new name in the same batch. The checks
of [_rename_fields] look at the registry as it is before anything is
renamed, so a batch that renames two distinct fields [a] and [b] to the
same free name [c] passes them. The call returns; afterwards [c] holds
the descriptor of [b] (renamed), [a] and [b] are gone and the descriptor
of [a] with them, every other field is as before, and [_fields_ordered]
lists [c] at the positions of both [a] and [b]. *)
Theorem rename_fields_same_target (a b c : string) (fa fb : Field) w :
  a ≠ b → _fields w !! a = Some fa → _fields w !! b = Some fb →
  first_violation (rename_violation cls w) [(a, c); (b, c)] = None →
  ∃ w', _rename_fields cls [a; b] [c; c] w = (inr tt, w')
    ∧ _fields w' !! a = None ∧ _fields w' !! b = None
    ∧ _fields w' !! c = Some (set_db_field (_get_db_field fb c) (set_name c fb))
    ∧ (∀ n, n ≠ a → n ≠ b → n ≠ c → _fields w' !! n = _fields w !! n)
    ∧ _fields_ordered w'
      = (λ n, if decide (n = a ∨ n = b) then c else n) <$> _fields_ordered w.
Proof.
  intros Hab Ha Hb Hnone.
  pose proof (first_violation_None _ _ Hnone (a, c) ltac:(left)) as Hac.
  apply rename_violation_None_inv in Hac as [_ Hc].
  assert (c ≠ a) as Hca by congruence. assert (c ≠ b) as Hcb by congruence.
  destruct (rename_fields_unfold cls [a; b] [c; c] w) as (w0 & [g ->] & Hrun).
  cbn [zip_with] in Hrun. rewrite Hnone in Hrun. rewrite Hrun. clear Hrun.
  unfold rename_apply. unfold bind at 1.
  match goal with |- context [_rename_fields_simple cls _ _ ?w0] =>
    destruct (rename_fields_simple_ok [a; b] [c; c] w0 eq_refl) as (ops & -> & _)
  end.
  unfold bind at 1. cbn [zip_with]. rewrite for_each_cons. cbn [fst snd].
  unfold _rename_field_schema at 1. cbn [_fields set_storage set_dataset_doc]. rewrite Ha.
  rewrite for_each_cons. cbn [fst snd].
  unfold _rename_field_schema at 1.
  cbn [_fields set_dataset_doc set_fields_ordered set_fields].
  rewrite lookup_insert_ne, lookup_delete_ne, Hb by done.
  unfold for_each, ret, bind, modify, save. eexists. split; [reflexivity|]. simpl.
  split_and!.
  - rewrite lookup_insert_ne, lookup_delete_ne, lookup_insert_ne by done.
    apply lookup_delete_eq.
  - rewrite lookup_insert_ne by done. apply lookup_delete_eq.
  - apply lookup_insert_eq.
  - intros n Hna Hnb Hnc.
    by rewrite lookup_insert_ne, lookup_delete_ne, lookup_insert_ne, lookup_delete_ne.
  - rewrite <- list_fmap_compose. apply list_fmap_ext. intros i n _. simpl.
    repeat case_decide; try done; try tauto; congruence.
Qed.

End RenameProofs.

Lemma rename_fields_same_target_witness :
  ∃ w', _rename_fields (types := demo_types) demo_cls ["a"; "b"] ["c"; "c"] world_ab
        = (inr tt, w')
    ∧ _fields w' !! "a" = None ∧ _fields w' !! "b" = None
    ∧ _fields w' !! "c" = Some (set_db_field (_get_db_field int_b "c") (set_name "c" int_b))
    ∧ (∀ n, n ≠ "a" → n ≠ "b" → n ≠ "c" → _fields w' !! n = _fields world_ab !! n)
    ∧ _fields_ordered w' = ["c"; "c"].
Proof.
  apply (rename_fields_same_target (types := demo_types) demo_cls "a" "b" "c" int_a int_b
           world_ab); try (vm_compute; reflexivity).
  discriminate.
Defined.

Lemma rename_fields_applies_witness :
  ∃ w', _rename_fields (types := demo_types) demo_cls ["a"; "b"] ["x"; "y"] world_ab
        = (inr tt, w')
    ∧ registry_ok w'
    ∧ dom (_fields w') = dom (_fields world_ab) ∖ list_to_set ["a"; "b"] ∪ list_to_set ["x"; "y"]
    ∧ length (_fields_ordered w') = 2
    ∧ storage w' = [UpdateManyRename "samples.demo" [("a", "x"); ("b", "y")]]
    ∧ app_config (dataset_doc w') = [RenamePaths ["a"; "b"] ["x"; "y"]]
    ∧ saved w' = dataset_doc w'.
Proof.
  apply (rename_fields_applies (types := demo_types) demo_cls ["a"; "b"] ["x"; "y"] world_ab).
  - split; [vm_compute; reflexivity|].
    vm_compute. repeat (constructor; [set_solver|]). constructor.
  - reflexivity.
  - repeat (constructor; [set_solver|]). constructor.
  - repeat (constructor; [set_solver|]). constructor.
  - vm_compute. reflexivity.
Defined.

(** ** Batch clones that pass the checks *)

Section CloneProofs.
Context {types : FieldTypeSystem}.
Variable cls : DocClass.

Lemma clone_violation_None_inv w a b :
  clone_violation cls w (a, b) = None →
  is_Some (_fields w !! a) ∧ _fields w !! b = None.
Proof.
  unfold clone_violation. destruct (_fields w !! a) as [f|]; [|done].
  case_decide as Hb; [done|]. intros _. split; [by eexists|].
  destruct (_fields w !! b) eqn:Hb'; [|done]. exfalso. eauto.
Qed.

Lemma clone_storage_ok field_names new_field_names sample_collection w :
  length field_names = length new_field_names →
  ∃ ops, match sample_collection with
         | None => _clone_fields_simple cls field_names new_field_names
         | Some frames_prefix =>
             _clone_fields_collection cls field_names new_field_names frames_prefix
         end w = (inr tt, set_storage (storage w ++ ops) w)
    ∧ length ops = (if field_names is [] then 0 else 1).
Proof.
  intros Hlen. unfold _clone_fields_simple, _clone_fields_collection.
  destruct field_names as [|a l].
  { exists []. destruct sample_collection, w; simpl; by rewrite app_nil_r. }
  destruct new_field_names as [|b l']; [done|].
  unfold bind, get_world, lift, _handle_db_fields2.
  destruct sample_collection; simpl; eexists [_]; split; reflexivity.
Qed.

(** Adding a top-level field that is not registered. *)
Lemma add_field_schema_new (b : string) (f : Field) w :
  PyStr.count dot b = 0 → _fields w !! b = None →
  _add_field_schema cls b f w
  = (inr tt,
     set_dataset_doc
       (set_fields_attr cls (fields_attr cls (dataset_doc w) ++ [clone_of f b]) (dataset_doc w))
       (set_fields_ordered (_fields_ordered w ++ [b])
          (set_fields (<[b := clone_of f b]> (_fields w)) w))).
Proof.
  intros Hdot Hnew. unfold _add_field_schema.
  rewrite (split_path_no_dot b Hdot). unfold _declare_field. simpl. rewrite Hnew.
  by rewrite delete_id.
Qed.

Lemma clone_loop_ok (ps : list (string * string)) w :
  NoDup ps.*2 → Forall (λ b, PyStr.count dot b = 0) ps.*2 →
  (∀ a b, (a, b) ∈ ps → is_Some (_fields w !! a) ∧ _fields w !! b = None) →
  ∃ w', for_each ps (λ p, _clone_field_schema cls p.1 p.2) w = (inr tt, w')
    ∧ (∀ a b f, (a, b) ∈ ps → _fields w !! a = Some f →
         _fields w' !! b = Some (clone_of f b))
    ∧ (∀ n, n ∉ ps.*2 → _fields w' !! n = _fields w !! n)
    ∧ _fields_ordered w' = _fields_ordered w ++ ps.*2
    ∧ storage w' = storage w
    ∧ (registry_ok w → registry_ok w').
Proof.
  revert w. induction ps as [|[a b] ps IH]; intros w Hnd Hdots Hps.
  { exists w. split; [done|]. split; [by intros ??? ?%elem_of_nil|].
    split; [done|]. by rewrite app_nil_r. }
  simpl in Hnd, Hdots. apply NoDup_cons in Hnd as [Hb Hnd].
  apply Forall_cons in Hdots as [Hdot Hdots].
  destruct (Hps a b ltac:(left)) as [[f Hf] Hnone].
  rewrite for_each_cons. simpl. unfold _clone_field_schema at 1. rewrite Hf.
  pose proof (add_field_schema_new b f w Hdot Hnone) as Hadd.
  pose proof (add_field_schema_extends cls b f w _ _ Hadd) as [_ Hreg1].
  rewrite Hadd.
  match goal with |- context [for_each ps _ ?w1] =>
    destruct (IH w1 Hnd Hdots) as (w' & Hloop & Hnew & Hold & Hord & Hst & Hreg)
  end.
  { intros a' b' Hin. destruct (Hps a' b' ltac:(by right)) as [[f' Ha'] Hb'].
    assert (b' ≠ b).
    { intros ->. apply Hb. apply list_elem_of_fmap. by exists (a', b). }
    simpl. rewrite !lookup_insert_ne by congruence. eauto. }
  exists w'. split; [done|]. simpl in *. split; [|split; [|split; [|split; [done|auto]]]].
  - intros a' b' f' [[= -> ->]|Hin]%elem_of_cons Ha'.
    + rewrite Hold by done. rewrite lookup_insert_eq. congruence.
    + apply (Hnew a' b' f' Hin). rewrite lookup_insert_ne; [done|]. congruence.
  - intros n [Hn1 Hn2]%not_elem_of_cons. rewrite Hold by done.
    by rewrite lookup_insert_ne.
  - by rewrite Hord, <- app_assoc.
Qed.

(** X13: a batch clone that passes the checks. For lists of equal
length, new top-level names without repetition and every pair passing
the four checks, [_clone_fields] returns, every new name is registered
with a copy of the descriptor of its source (renamed, its storage name
following), every other field is as it was, the new names are appended
to the ordered names in the order given, the registry invariant is
kept, one write is issued to storage (none for an empty batch), and the
dataset document is saved. *)
Theorem clone_fields_applies field_names new_field_names sample_collection w :
  length field_names = length new_field_names →
  NoDup new_field_names →
  Forall (λ b, PyStr.count dot b = 0) new_field_names →
  first_violation (clone_violation cls w) (zip field_names new_field_names) = None →
  ∃ w', _clone_fields cls field_names new_field_names sample_collection w = (inr tt, w')
    ∧ (∀ a b f, (a, b) ∈ zip field_names new_field_names → _fields w !! a = Some f →
         _fields w' !! b = Some (clone_of f b))
    ∧ (∀ n, n ∉ new_field_names → _fields w' !! n = _fields w !! n)
    ∧ _fields_ordered w' = _fields_ordered w ++ new_field_names
    ∧ (registry_ok w → registry_ok w')
    ∧ length (storage w') = length (storage w) + (if field_names is [] then 0 else 1)
    ∧ saved w' = dataset_doc w'.
Proof.
  intros Hlen Hnd Hdots Hnone.
  rewrite clone_fields_unfold, Hnone. unfold clone_apply. unfold bind at 1.
  destruct (clone_storage_ok field_names new_field_names sample_collection w Hlen)
    as (ops & -> & Hops).
  unfold bind at 1.
  match goal with |- context [for_each _ _ ?w1] =>
    destruct (clone_loop_ok (zip field_names new_field_names) w1)
      as (w2 & -> & Hnew & Hold & Hord & Hst & Hreg)
  end.
  - by rewrite snd_zip by lia.
  - by rewrite snd_zip by lia.
  - intros a b Hin. simpl.
    apply (clone_violation_None_inv w), (first_violation_None _ _ Hnone). exact Hin.
  - rewrite snd_zip in Hold, Hord by lia. simpl in *.
    unfold save, modify. eexists. split; [reflexivity|]. simpl.
    split; [exact Hnew|]. split; [exact Hold|]. split; [exact Hord|].
    split; [exact Hreg|]. split; [by rewrite Hst, length_app, Hops|done].
Qed.

End CloneProofs.

Lemma clone_fields_applies_witness :
  ∃ w', _clone_fields (types := demo_types) demo_cls ["a"] ["c"] None world_ab = (inr tt, w')
    ∧ (∀ a b f, (a, b) ∈ zip ["a"] ["c"] → _fields world_ab !! a = Some f →
         _fields w' !! b = Some (clone_of f b))
    ∧ (∀ n, n ∉ ["c"] → _fields w' !! n = _fields world_ab !! n)
    ∧ _fields_ordered w' = ["a"; "b"; "c"]
    ∧ (registry_ok world_ab → registry_ok w')
    ∧ length (storage w') = 1
    ∧ saved w' = dataset_doc w'.
Proof.
  apply (clone_fields_applies (types := demo_types) demo_cls ["a"] ["c"] None world_ab).
  - reflexivity.
  - repeat (constructor; [set_solver|]). constructor.
  - repeat constructor.
  - vm_compute. reflexivity.
Defined.

(** ** Clearing fields *)

Section ClearProofs.
Context {types : FieldTypeSystem}.
Variable cls : DocClass.

(** The loop of [_clear_fields] raises for the first name that is not
registered and changes nothing. *)
Lemma clear_check_loop field_names w :
  for_each field_names (λ field_name,
    let! w := get_world in
    match _fields w !! field_name with
    | None => raise (AttributeError (FieldDoesNotExist (_doc_name cls) field_name))
    | Some _ => ret tt
    end) w
  = (match list_find (λ n, _fields w !! n = None) field_names with
     | Some (_, n) => inl (AttributeError (FieldDoesNotExist (_doc_name cls) n))
     | None => inr tt
     end, w).
Proof.
  induction field_names as [|n l IH]; [done|].
  rewrite for_each_cons. unfold bind at 1. unfold get_world at 1. cbn [list_find].
  destruct (decide (_fields w !! n = None)) as [Hn|Hn].
  - by rewrite Hn.
  - destruct (_fields w !! n); [|done]. unfold ret at 1. rewrite IH.
    by destruct (list_find _ l) as [[i m]|].
Qed.

(** The keys of [{k: None for k in names}] are the names. *)
Lemma keys_of_unit_pairs (names : list string) (k : string) :
  k ∈ PyDict.keys (PyDict.of_pairs ((λ k, (k, tt)) <$> names)) ↔ k ∈ names.
Proof.
  unfold PyDict.of_pairs. rewrite PyDict_keys_update.
  unfold PyDict.keys at 2. rewrite <- list_fmap_compose.
  change (fst ∘ (λ k : string, (k, ()))) with (@id string). rewrite list_fmap_id.
  unfold PyDict.keys. simpl. rewrite elem_of_nil. tauto.
Qed.

(** X14: [_clear_fields] checks every name before it writes. If a
requested name is not registered, the call raises the error of the
first such name, the one with only registered names before it in the
request, and nothing at all is changed; otherwise it issues one
write to storage (none for an empty request) which, without a sample
collection, sets exactly the storage names of the requested fields to
[None]. In no case does it touch the registry or the dataset document. *)
Theorem clear_fields_checks_then_writes field_names sample_collection w r w' :
  _clear_fields cls field_names sample_collection w = (r, w') →
  _fields w' = _fields w ∧ _fields_ordered w' = _fields_ordered w
  ∧ dataset_doc w' = dataset_doc w ∧ saved w' = saved w
  ∧ match r with
    | inl e =>
        w' = w
        ∧ ∃ before n after,
            field_names = before ++ n :: after
            ∧ Forall (λ m, is_Some (_fields w !! m)) before
            ∧ _fields w !! n = None
            ∧ e = AttributeError (FieldDoesNotExist (_doc_name cls) n)
    | inr _ =>
        Forall (λ n, is_Some (_fields w !! n)) field_names
        ∧ ∃ ops, storage w' = storage w ++ ops
            ∧ length ops = (if field_names is [] then 0 else 1)
            ∧ (sample_collection = None →
               ∀ op, op ∈ ops →
                 ∃ keys, op = UpdateManySetNone (__name__ cls) keys
                   ∧ ∀ k, k ∈ keys ↔ k ∈ _handle_db_fields w field_names)
    end.
Proof.
  unfold _clear_fields. unfold bind at 1. rewrite clear_check_loop.
  destruct (list_find _ field_names) as [[i n]|] eqn:Hfind.
  { intros [= <- <-]. split_and!; try done.
    apply list_find_Some in Hfind as (Hi & Hn & Hbefore).
    exists (take i field_names), n, (drop (S i) field_names).
    split; [symmetry; by apply take_drop_middle|]. split; [|done].
    apply Forall_lookup. intros j y Hj.
    assert (j < i) as Hji.
    { apply lookup_lt_Some in Hj. rewrite length_take in Hj. lia. }
    rewrite lookup_take_lt in Hj by exact Hji.
    specialize (Hbefore j y Hj Hji).
    destruct (_fields w !! y); [by eexists|done]. }
  assert (Forall (λ n, is_Some (_fields w !! n)) field_names) as Hall.
  { apply list_find_None in Hfind. eapply Forall_impl; [exact Hfind|].
    intros n Hn. simpl in Hn. by destruct (_fields w !! n); [eexists|]. }
  unfold _clear_fields_simple, _clear_fields_collection.
  destruct field_names as [|n l].
  { destruct sample_collection; intros [= <- <-]; split_and!; try done;
      exists []; (split; [by rewrite app_nil_r|split; [done|by intros _ op ?%elem_of_nil]]). }
  destruct sample_collection as [frames_prefix|];
    unfold bind, get_world, update_many, modify; intros [= <- <-];
    (split_and!; try done; eexists [_]; split; [done|split; [done|]]).
  - done.
  - intros _ op ->%list_elem_of_singleton. eexists. split; [reflexivity|].
    intros k. exact (keys_of_unit_pairs (_handle_db_fields w (n :: l)) k).
Qed.

End ClearProofs.

Lemma clear_fields_checks_then_writes_witness :
  (let r := _clear_fields demo_cls ["b"; "a"] None world_ab in
   _fields r.2 = _fields world_ab ∧ _fields_ordered r.2 = _fields_ordered world_ab
   ∧ dataset_doc r.2 = dataset_doc world_ab ∧ saved r.2 = saved world_ab
   ∧ Forall (λ n, is_Some (_fields world_ab !! n)) ["b"; "a"]
   ∧ ∃ ops, storage r.2 = storage world_ab ++ ops
       ∧ length ops = 1
       ∧ (@None string = None →
          ∀ op, op ∈ ops →
            ∃ keys, op = UpdateManySetNone (__name__ demo_cls) keys
              ∧ ∀ k, k ∈ keys ↔ k ∈ _handle_db_fields world_ab ["b"; "a"]))
  ∧ (_clear_fields demo_cls ["b"; "x"; "a"; "y"] None world_ab
     = (inl (AttributeError (FieldDoesNotExist (_doc_name demo_cls) "x")), world_ab)
     ∧ ∃ before n after,
         ["b"; "x"; "a"; "y"] = before ++ n :: after
         ∧ Forall (λ m, is_Some (_fields world_ab !! m)) before
         ∧ _fields world_ab !! n = None
         ∧ AttributeError (FieldDoesNotExist (_doc_name demo_cls) "x")
           = AttributeError (FieldDoesNotExist (_doc_name demo_cls) n)).
Proof.
  split.
  - apply (clear_fields_checks_then_writes demo_cls ["b"; "a"] None world_ab (inr tt)).
    vm_compute. reflexivity.
  - assert (_clear_fields demo_cls ["b"; "x"; "a"; "y"] None world_ab
            = (inl (AttributeError (FieldDoesNotExist (_doc_name demo_cls) "x")), world_ab))
      as Hrun by (vm_compute; reflexivity).
    split; [exact Hrun|].
    apply (clear_fields_checks_then_writes demo_cls ["b"; "x"; "a"; "y"] None world_ab
             _ world_ab Hrun).
Defined.

(** ** Embedded fields *)

(** Splitting distributes over a separator. *)
Lemma split_aux_sep (c : ascii) (cur s t : string) :
  PyStr.split_aux c cur (s +:+ String c t)
  = PyStr.split_aux c cur s ++ PyStr.split_aux c "" t.
Proof.
  revert cur. induction s as [|a s IH]; intros cur.
  - rewrite str_app_nil_l. simpl. by rewrite Ascii.eqb_refl.
  - rewrite str_app_cons. simpl. destruct (Ascii.eqb a c); [|apply IH].
    simpl. f_equal. apply IH.
Qed.

Lemma init_last_snoc (x : string) (l : list string) (z : string) :
  PyStr.init_last x (l ++ [z]) = (x :: l, z).
Proof.
  revert x. induction l as [|y l IH]; intros x; [done|].
  simpl. by rewrite IH.
Qed.

(** [(p + "." + x).rsplit(".", 1)] for a last segment without a dot. *)
Lemma rsplit1_leaf (p x : string) :
  PyStr.count dot x = 0 → PyStr.rsplit1 dot (p +:+ "." +:+ x) = (p, Some x).
Proof.
  intros Hx. unfold PyStr.rsplit1, PyStr.split.
  change ("." +:+ x) with (String dot x).
  rewrite split_aux_sep, (split_aux_no_sep dot "" x Hx), str_app_nil_l.
  destruct (PyStr.split_aux dot "" p) as [|c cs] eqn:Hp;
    [by apply split_aux_nonempty in Hp|].
  pose proof (join_split_aux dot "" p) as Hj. rewrite Hp, str_app_nil_l in Hj.
  change ((c :: cs) ++ [x]) with (c :: (cs ++ [x])).
  destruct (cs ++ [x]) as [|y ys] eqn:Hcs; [by destruct cs|].
  cbv beta iota. rewrite <- Hcs, init_last_snoc. by rewrite Hj.
Qed.

Lemma str_app_inj (s t u : string) : s +:+ t = s +:+ u → t = u.
Proof. induction s as [|a s IH]; [done|]. rewrite !str_app_cons. intros [= ?]. auto. Qed.

Section EmbeddedProofs.
Variable cls : DocClass.

(** X15: the operations on embedded fields leave the schema to their
caller. Renaming, cloning, clearing and deleting embedded fields never
change the registry, the ordered names or the field documents, whatever
names they are given; clearing and deleting never raise, no name being
checked; and a rename writes the dataset document only when the
collection is the dataset itself. *)
Theorem embedded_operations_keep_registry (field_names new_field_names : list string)
    (frames_prefix : string) (is_dataset : bool) (w : World) :
  registry_untouched w
    (_rename_embedded_fields cls field_names new_field_names frames_prefix is_dataset w).2
  ∧ registry_untouched w
      (_clone_embedded_fields cls field_names new_field_names frames_prefix w).2
  ∧ (∃ w', _clear_embedded_fields cls field_names frames_prefix w = (inr tt, w')
         ∧ registry_untouched w w' ∧ dataset_doc w' = dataset_doc w ∧ saved w' = saved w)
  ∧ (∃ w', _delete_embedded_fields cls field_names w = (inr tt, w')
         ∧ registry_untouched w w' ∧ saved w' = dataset_doc w')
  ∧ (is_dataset = false →
     let w' := (_rename_embedded_fields cls field_names new_field_names frames_prefix
                  false w).2 in
     dataset_doc w' = dataset_doc w ∧ saved w' = saved w).
Proof.
  assert (Hren : ∃ ops,
            (_rename_fields_collection cls field_names new_field_names frames_prefix w).2
            = set_storage (storage w ++ ops) w).
  { unfold _rename_fields_collection. destruct field_names as [|a l].
    - exists []. destruct w. simpl. by rewrite app_nil_r.
    - unfold bind, get_world, lift, update_many, modify.
      destruct (_handle_db_fields2 w (a :: l) new_field_names).
      + exists []. destruct w. simpl. by rewrite app_nil_r.
      + by eexists [_]. }
  destruct Hren as [ops Hren].
  split_and!.
  - unfold _rename_embedded_fields, bind.
    destruct (_rename_fields_collection _ _ _ _ w) as [r w1]. simpl in Hren. subst w1.
    destruct r as [e|[]]; [done|]. by destruct is_dataset.
  - unfold _clone_embedded_fields, _clone_fields_collection.
    destruct field_names as [|a l]; [done|].
    unfold bind, get_world, lift, update_many, modify.
    by destruct (_handle_db_fields2 w (a :: l) new_field_names).
  - unfold _clear_embedded_fields, _clear_fields_collection.
    destruct field_names as [|a l]; eexists; (split; [reflexivity|done]).
  - unfold _delete_embedded_fields, _delete_fields_simple, bind.
    destruct field_names as [|a l]; eexists; (split; [reflexivity|done]).
  - intros _. unfold _rename_embedded_fields, bind.
    destruct (_rename_fields_collection _ _ _ _ w) as [r w1]. simpl in Hren. subst w1.
    by destruct r as [e|[]].
Qed.

(** X16: a rename inside one embedded document is written relative to
it. For an embedded path [p.x] that is not itself a registered field and
names [x] and [y] without a dot, renaming [p.x] to [p.y] saves a view
that sets [p.y] from the sibling expression [F(x)] and unsets [p.x],
whereas renaming it to [q.y] under another document [q] sets [q.y] from
the absolute expression [F("$p.x")]; on a frame class every path is
written behind the frames prefix. *)
Theorem rename_embedded_sibling_is_relative (p q x y frames_prefix : string) (w : World) :
  let pre (n : string) := if _is_frames_doc cls then frames_prefix +:+ n else n in
  PyStr.count dot x = 0 → PyStr.count dot y = 0 →
  _fields w !! (p +:+ "." +:+ x) = None →
  _rename_fields_collection cls [p +:+ "." +:+ x] [p +:+ "." +:+ y] frames_prefix w
  = (inr tt,
     set_storage
       (storage w ++ [ViewSave [(pre (p +:+ "." +:+ y), ViewField x)]
                        [pre (p +:+ "." +:+ x)]
                        [pre (p +:+ "." +:+ x); pre (p +:+ "." +:+ y)]]) w)
  ∧ (q ≠ p →
     _rename_fields_collection cls [p +:+ "." +:+ x] [q +:+ "." +:+ y] frames_prefix w
     = (inr tt,
        set_storage
          (storage w ++ [ViewSave [(pre (q +:+ "." +:+ y),
                                    ViewField ("$" +:+ pre (p +:+ "." +:+ x)))]
                           [pre (p +:+ "." +:+ x)]
                           [pre (p +:+ "." +:+ x); pre (q +:+ "." +:+ y)]]) w)).
Proof.
  intros pre Hx Hy Hnone.
  assert (Hdb : ∀ b, _handle_db_fields2 w [p +:+ "." +:+ x] [b]
                     = inr ([p +:+ "." +:+ x], [b])).
  { intros b. unfold _handle_db_fields2. cbn [zip_with fmap list_fmap fst snd].
    unfold _handle_db_field2. by rewrite Hnone. }
  assert (Hpre : ∀ r z, PyStr.count dot z = 0 →
            PyStr.rsplit1 dot (pre (r +:+ "." +:+ z)) = (pre r, Some z)).
  { intros r z Hz. subst pre. cbv beta. destruct (_is_frames_doc cls).
    - rewrite <- (str_app_assoc frames_prefix r). by apply rsplit1_leaf.
    - by apply rsplit1_leaf. }
  assert (Hfmap : ∀ n, (if _is_frames_doc cls
                        then (λ f, frames_prefix +:+ f) <$> [n] else [n]) = [pre n]).
  { intros n. subst pre. cbv beta. by destruct (_is_frames_doc cls). }
  assert (Hfmap2 : ∀ n m, (if _is_frames_doc cls
                           then (λ f, frames_prefix +:+ f) <$> [n; m] else [n; m])
                          = [pre n; pre m]).
  { intros n m. subst pre. cbv beta. by destruct (_is_frames_doc cls). }
  unfold _rename_fields_collection, bind, get_world, lift, update_many, modify.
  rewrite !Hdb. cbn [fst snd app]. rewrite !Hfmap.
  cbn [zip_with fmap list_fmap]. rewrite !Hpre by done. cbn [fst].
  split.
  - by rewrite decide_True.
  - intros Hne. rewrite decide_False; [done|].
    intros Heq. apply Hne. destruct (_is_frames_doc cls); [by eapply str_app_inj|done].
Qed.

End EmbeddedProofs.

Lemma rename_embedded_sibling_is_relative_witness :
  _rename_fields_collection demo_cls ["dets.label"] ["dets.name"] "frames." dets_world
  = (inr tt,
     set_storage
       [ViewSave [("dets.name", ViewField "label")] ["dets.label"]
          ["dets.label"; "dets.name"]] dets_world).
Proof.
  apply (rename_embedded_sibling_is_relative demo_cls "dets" "other" "label" "name"
           "frames." dets_world); reflexivity.
Defined.

(** ** Setting and clearing a field of a document *)

Section SetFieldProofs.
Context {types : FieldTypeSystem}.
Context {K V : Type} {factory : FieldFactory K V}.
Variable cls : DocClass.
Implicit Types (data : list (string * option V)) (value : option V).

Lemma add_implied_field_no_expand (path : string) value (dynamic recursive validate : bool)
    w r w' :
  add_implied_field cls path value false dynamic recursive validate w = (r, w') → w' = w.
Proof.
  unfold add_implied_field, bind2.
  destruct (_create_implied_field path value dynamic) as [e|F]; [by intros [= <- <-]|].
  unfold call. rewrite merge_field_schema_unfold.
  destruct (collect_new_schema cls [(path, F)] [] validate recursive w) as [e|[|pf ns]];
    by intros [= <- <-].
Qed.

(** X17: without [create], [set_field] never changes the schema, not
even with [dynamic=True]; [clear_field] is this call with the value
[None]. The call leaves the class and the database as they are; it
returns only for a field of the schema, whose attribute then holds the
value while every other attribute is as before; and for a name that
passes the naming rules but is not a field it raises the error that the
document has no such field. *)
Theorem set_field_without_create_keeps_schema data (n : string) value
    (validate dynamic : bool) (w : World) :
  ∃ r, set_field cls data n value false validate dynamic w = (r, w)
    ∧ (∀ data', r = inr data' →
         has_field n w = true
         ∧ PyDict.get n data' = Some value
         ∧ ∀ m, m ≠ n → PyDict.get m data' = PyDict.get m data)
    ∧ (validate_field_name n None false = None → has_field n w = false →
       r = inl (HasNoFieldValue (_doc_name cls) n))
    ∧ clear_field cls data n w = set_field cls data n None false true false w.
Proof.
  enough (∃ r, set_field cls data n value false validate dynamic w = (r, w)
            ∧ (∀ data', r = inr data' →
                 has_field n w = true
                 ∧ PyDict.get n data' = Some value
                 ∧ ∀ m, m ≠ n → PyDict.get m data' = PyDict.get m data)
            ∧ (validate_field_name n None false = None → has_field n w = false →
               r = inl (HasNoFieldValue (_doc_name cls) n)))
    as (r & ? & ? & ?) by (exists r; by split_and!).
  unfold set_field.
  destruct (validate_field_name n None false) as [reason|].
  { eexists. split; [reflexivity|]. by split_and!. }
  unfold bind2 at 1. unfold call at 1, get_world. unfold bind2 at 1.
  destruct (has_field n w) eqn:Hhas; cbn [negb].
  2: { eexists. split; [reflexivity|]. by split_and!. }
  match goal with |- context [let (_, _) := ?m w in _] =>
    assert ((m w).2 = w) as Hsame
  end.
  { destruct value as [v|]; [|done]. unfold bind2 at 1.
    match goal with |- context [let (_, _) := ?m w in _] =>
      assert ((m w).2 = w) as Hval
    end.
    { destruct validate; [|done].
      destruct (_fields w !! n) as [field|]; [|done].
      by destruct (validate_value field v). }
    match goal with |- context [let (_, _) := ?m w in _] =>
      destruct (m w) as [[e|[]] w2]; simpl in Hval; subst w2; [done|]
    end.
    destruct dynamic; [|done]. unfold bind2.
    destruct (add_implied_field cls n (Some v) false true true validate w)
      as [[e|b] w3] eqn:Hadd; apply add_implied_field_no_expand in Hadd; by subst. }
  match goal with |- context [let (_, _) := ?m w in _] =>
    destruct (m w) as [[e|[]] w2]; simpl in Hsame; subst w2
  end.
  - eexists. split; [reflexivity|]. by split_and!.
  - eexists. split; [reflexivity|]. split; [|done].
    intros data' [= <-]. split; [done|]. split; [apply PyDict_get_set_eq|].
    intros m Hm. by apply PyDict_get_set_ne.
Qed.

Lemma add_implied_field_extends (path : string) value
    (expand_schema dynamic recursive validate : bool) w r w' :
  add_implied_field cls path value expand_schema dynamic recursive validate w = (r, w') →
  dom (_fields w) ⊆ dom (_fields w').
Proof.
  unfold add_implied_field, bind2.
  destruct (_create_implied_field path value dynamic) as [e|F]; [by intros [= <- <-]|].
  unfold call.
  destruct (merge_field_schema cls [(path, F)] _ _ _ w) as [[e|b] w1] eqn:Hm;
    apply merge_field_schema_extends in Hm; by intros [= <- <-].
Qed.

Lemma add_implied_field_new (n : string) value (dynamic validate : bool) w b w' :
  PyStr.count dot n = 0 → PyStr.startswith n "_" = false → n ≠ "id" →
  _fields w !! n = None →
  add_implied_field cls n value true dynamic true validate w = (inr b, w') →
  is_Some (_fields w' !! n).
Proof.
  intros Hdot Hpriv Hid Hnone. unfold add_implied_field, bind2.
  destruct (_create_implied_field n value dynamic) as [e|F]; [done|].
  unfold call. rewrite merge_field_schema_single.
  destruct (_merge_field cls n F validate true w) as [e|new_fields] eqn:Hm; [done|].
  apply merge_field_top_new in Hm as ->; try done.
  cbn [negb PyDict.update foldl PyDict.set fst snd]. unfold bind at 1.
  rewrite for_each_cons. cbn [fst snd].
  rewrite (add_field_schema_new cls n F w Hdot Hnone).
  unfold for_each, ret, bind, save, modify. intros [= <- <-]. simpl.
  rewrite lookup_insert_eq. by eexists.
Qed.

(** X18: [set_field] with [create=True] leaves the field in the schema.
For a public name without a dot other than [id], when the call returns
the name is a field of the class, whether it was one before or the call
declared it from the value, and the attribute holds the value set while
every other attribute is as before. *)
Theorem set_field_creates_field data (n : string) value (validate dynamic : bool)
    w data' w' :
  PyStr.count dot n = 0 → PyStr.startswith n "_" = false → n ≠ "id" →
  set_field cls data n value true validate dynamic w = (inr data', w') →
  has_field n w' = true
  ∧ PyDict.get n data' = Some value
  ∧ ∀ m, m ≠ n → PyDict.get m data' = PyDict.get m data.
Proof.
  intros Hdot Hpriv Hid. unfold set_field.
  destruct (validate_field_name n None false) as [reason|]; [done|].
  unfold bind2 at 1. unfold call at 1, get_world. unfold bind2 at 1.
  match goal with |- context [let (_, _) := ?m w in _] =>
    destruct (m w) as [[e|[]] w1] eqn:Hrun
  end; [done|].
  unfold ret2. intros [= <- <-].
  split; [|split; [apply PyDict_get_set_eq|by intros m Hm; apply PyDict_get_set_ne]].
  unfold has_field in *. apply bool_decide_eq_true.
  destruct (bool_decide (is_Some (_fields w !! n))) eqn:Hhas; cbn [negb] in Hrun.
  - apply bool_decide_eq_true in Hhas.
    assert (dom (_fields w) ⊆ dom (_fields w1)) as Hdom.
    { destruct value as [v|]; [|by injection Hrun as <-].
      unfold bind2 at 1 in Hrun.
      match type of Hrun with context [let (_, _) := ?m w in _] =>
        assert ((m w).2 = w) as Hval
      end.
      { destruct validate; [|done].
        destruct (_fields w !! n) as [field|]; [|done].
        by destruct (validate_value field v). }
      match type of Hrun with context [let (_, _) := ?m w in _] =>
        destruct (m w) as [[e|[]] w2]; [done|]; simpl in Hval; subst w2
      end.
      destruct dynamic; [|by injection Hrun as <-].
      unfold bind2 in Hrun.
      destruct (add_implied_field cls n (Some v) true true true validate w)
        as [[e|b] w3] eqn:Hadd; [done|].
      apply add_implied_field_extends in Hadd. by injection Hrun as <-. }
    apply elem_of_dom, Hdom, elem_of_dom, Hhas.
  - apply bool_decide_eq_false in Hhas.
    assert (_fields w !! n = None) as Hnone.
    { destruct (_fields w !! n) eqn:Hn; [|done]. exfalso. apply Hhas. by eexists. }
    unfold bind2 in Hrun.
    destruct (add_implied_field cls n value true dynamic true validate w)
      as [[e|b] w3] eqn:Hadd; [done|].
    injection Hrun as <-. by eapply add_implied_field_new.
Qed.

Lemma rsplit_last_no_dot (path : string) : PyStr.count dot path = 0 → rsplit_last path = path.
Proof.
  intros Hdot. unfold rsplit_last, PyStr.rsplit1, PyStr.split.
  by rewrite split_aux_no_sep.
Qed.

(** X25: [add_field] declares a new top-level field. For a public
name without a dot, other than [id], that is not yet a field and passes
the naming rules, when [create_field] builds a descriptor that is not a
group field, [add_field] returns [True]: the descriptor is registered
under the name with the storage name [_get_db_field] derives, the name
goes last in the ordered names, one field document is appended, storage
is not written and the dataset document is saved. With
[expand_schema=False] the same call raises the error that lists the
name and changes nothing. *)
Theorem add_field_registers (path : string) (kwargs : K) (F : Field)
    (recursive validate : bool) (w : World) :
  PyStr.count dot path = 0 → PyStr.startswith path "_" = false → path ≠ "id" →
  _fields w !! path = None →
  create_field path kwargs = inr F →
  validate_field_name path (media_type (dataset_doc w)) (_is_frames_doc cls) = None →
  is_group_field F = false →
  (∃ w', add_field cls path kwargs true recursive validate w = (inr true, w')
     ∧ _fields w' = <[path := clone_of F path]> (_fields w)
     ∧ _fields_ordered w' = _fields_ordered w ++ [path]
     ∧ fields_attr cls (dataset_doc w') = fields_attr cls (dataset_doc w) ++ [clone_of F path]
     ∧ storage w' = storage w
     ∧ saved w' = dataset_doc w')
  ∧ add_field cls path kwargs false recursive validate w
    = (inl (Py (ValueError (FieldsDoNotExist (_doc_name cls) [path]))), w).
Proof.
  intros Hdot Hpriv Hid Hnone Hcreate Hvalid Hgroup.
  assert (Hmerge : _merge_field cls path F validate recursive w = inr [(path, F)]).
  { unfold _merge_field. rewrite (split_path_no_dot path Hdot). cbn [walk_chunks rbind].
    rewrite Hpriv, andb_false_r. rewrite decide_False by done.
    by rewrite Hnone, Hvalid, Hgroup. }
  unfold add_field, bind2, _create_field. rewrite (rsplit_last_no_dot path Hdot), Hcreate.
  unfold call. rewrite !merge_field_schema_single, Hmerge.
  cbn [negb PyDict.update PyDict.keys foldl PyDict.set fst snd fmap list_fmap].
  split; [|done].
  unfold bind at 1. rewrite for_each_cons. cbn [fst snd].
  rewrite (add_field_schema_new cls path F w Hdot Hnone).
  unfold for_each, ret, bind, save, modify. eexists. split; [reflexivity|]. simpl.
  split_and!; try done. apply fields_attr_set.
Qed.

End SetFieldProofs.

Lemma set_field_creates_field_witness :
  ∃ data' w',
    set_field (types := demo_types) demo_cls [] "c" (Some (VInt 1)) true true false world_ab
    = (inr data', w')
    ∧ has_field "c" w' = true
    ∧ PyDict.get "c" data' = Some (Some (VInt 1)).
Proof.
  eexists _, _. split; [vm_compute; reflexivity|].
  pose proof (set_field_creates_field (types := demo_types) demo_cls [] "c"
                (Some (VInt 1)) true false world_ab _ _ eq_refl eq_refl
                ltac:(discriminate) eq_refl) as (Hhas & Hget & _).
  split; [exact Hhas|exact Hget].
Defined.

(** ** Reading the schema *)

Section SchemaProofs.
Context {C : Type} {constraints : TypeConstraints C}.

Lemma schema_of_matching (c : C) (fields : gmap string Field) (names : list string)
    (acc : list (string * Field)) :
  NoDup (PyDict.keys acc ++ names) → Forall (λ n, is_Some (fields !! n)) names →
  schema_of fields names c acc = inr (acc ++ matching_fields c fields names).
Proof.
  revert acc. induction names as [|n names IH]; intros acc Hnd Hall; simpl.
  - by rewrite app_nil_r.
  - apply Forall_cons in Hall as [[f Hf] Hall]. rewrite Hf.
    pose proof Hnd as Hnd0.
    apply NoDup_app in Hnd as (Hacc & Hdisj & Hnames).
    apply NoDup_cons in Hnames as [Hn Hnames].
    destruct (matches_type_constraints f c).
    + rewrite PyDict_set_fresh by (intros Hin; eapply Hdisj; [done|left]).
      rewrite IH; [by rewrite <- app_assoc| |done].
      unfold PyDict.keys in *. by rewrite fmap_app, <- app_assoc.
    + apply IH; [|done]. apply NoDup_app. split_and!; [done| |done].
      intros k Hk Hin. eapply Hdisj; [done|by right].
Qed.

Lemma matching_fields_keys (c : C) (fields : gmap string Field) (names : list string) :
  PyDict.keys (matching_fields c fields names) `sublist_of` names.
Proof.
  unfold matching_fields, PyDict.keys. induction names as [|n names IH]; [done|].
  simpl. destruct (fields !! n) as [f|]; [|by apply sublist_cons].
  destruct (matches_type_constraints f c); [by apply sublist_skip|by apply sublist_cons].
Qed.

Lemma matching_fields_elem (c : C) (fields : gmap string Field) (names : list string) n f :
  (n, f) ∈ matching_fields c fields names
  ↔ n ∈ names ∧ fields !! n = Some f ∧ matches_type_constraints f c = true.
Proof.
  unfold matching_fields. rewrite list_elem_of_omap. split.
  - intros (m & Hm & Hsome). destruct (fields !! m) as [g|] eqn:Hg; [|done].
    destruct (matches_type_constraints g c) eqn:Hc; [|done].
    by injection Hsome as -> ->.
  - intros (Hn & Hf & Hc). exists n. by rewrite Hf, Hc.
Qed.

(** X19: [get_field_schema] on a consistent registry. When the keys of
[_fields] are the names of [_fields_ordered], each once, and the type
constraints are well formed, the call returns a schema: its keys follow
the order of [_fields_ordered], and it holds exactly the registered
fields that match the constraints, each under its name with its
descriptor, the names with a leading underscore only when private fields
are asked for. *)
Theorem get_field_schema_lists_registered (c : C) (include_private : bool) (w : World) :
  registry_ok w → validate_type_constraints c = None →
  ∃ schema, get_field_schema c include_private w = inr schema
    ∧ PyDict.keys schema `sublist_of` _fields_ordered w
    ∧ ∀ n f, (n, f) ∈ schema
        ↔ n ∈ _fields_ordered w
          ∧ (include_private = true ∨ PyStr.startswith n "_" = false)
          ∧ _fields w !! n = Some f
          ∧ matches_type_constraints f c = true.
Proof.
  intros [Hk Hnd] Hvalid. unfold get_field_schema. rewrite Hvalid.
  unfold _get_fields_ordered.
  set (names := if include_private then _fields_ordered w
                else filter (λ f, PyStr.startswith f "_" = false) (_fields_ordered w)).
  assert (Hsub : names `sublist_of` _fields_ordered w).
  { subst names. destruct include_private; [done|apply sublist_filter]. }
  assert (Hin : ∀ n, n ∈ names
            ↔ n ∈ _fields_ordered w ∧ (include_private = true ∨ PyStr.startswith n "_" = false)).
  { intros n. subst names. destruct include_private.
    - split; [by auto|by intros []].
    - rewrite list_elem_of_filter. split; [by intros []; auto|by intros [? [|]]]. }
  cbn [rbind]. rewrite schema_of_matching; cbn [app].
  - eexists. split; [reflexivity|]. split.
    + etrans; [apply matching_fields_keys|done].
    + intros n f. rewrite matching_fields_elem, Hin. tauto.
  - by apply (sublist_NoDup names (_fields_ordered w)).
  - apply Forall_forall. intros n Hn. apply (keys_match_elem w n Hk).
    by apply Hin in Hn as [? _].
Qed.

End SchemaProofs.

Lemma get_field_schema_lists_registered_witness :
  ∃ schema, get_field_schema (Some "IntField") false world_ab = inr schema
    ∧ PyDict.keys schema `sublist_of` _fields_ordered world_ab
    ∧ ∀ n f, (n, f) ∈ schema
        ↔ n ∈ _fields_ordered world_ab
          ∧ (false = true ∨ PyStr.startswith n "_" = false)
          ∧ _fields world_ab !! n = Some f
          ∧ matches_type_constraints f (Some "IntField") = true.
Proof.
  apply (get_field_schema_lists_registered (Some "IntField") false world_ab).
  - split; [vm_compute; reflexivity|].
    vm_compute. repeat (constructor; [set_solver|]). constructor.
  - reflexivity.
Defined.

(** ** Element updates of filtered list fields *)

Section ParseProofs.
Context {V ObjectId : Type}.
Implicit Types (self : Element V ObjectId) (update_doc : UpdateDoc V).

Lemma count_no_lead (c a : ascii) (s : string) :
  PyStr.count c (String a s) = 0 → a ≠ c.
Proof. simpl. intros Hc ->. by rewrite Ascii.eqb_refl in Hc. Qed.

(** The chunk after the filtered field is what [int] is applied to. *)
Lemma parse_id_and_array_filter_chunk self (ff s rest : string)
    (items : list (Element V ObjectId)) :
  getitems self (PyStr.split dot ff) = inr (EList items) →
  s ≠ "" → PyStr.count dot s = 0 →
  _parse_id_and_array_filter self (ff +:+ "." +:+ s +:+ "." +:+ rest) ff
  = match PyInt.int s with
    | None => inl (ValueError (InvalidLiteralForInt s))
    | Some idx =>
        do el <- getitem_int (EList items) idx;
        do el_id <- get_id el;
        inr (el_id, ff +:+ ".$[element]." +:+ rest)
    end.
Proof.
  intros Hnav Hs Hdots. unfold _parse_id_and_array_filter. rewrite Hnav. cbn [rbind].
  rewrite str_drop_app. change ("." +:+ s +:+ "." +:+ rest) with (String dot (s +:+ "." +:+ rest)).
  cbn [PyStr.lstrip]. rewrite Ascii.eqb_refl.
  destruct s as [|a s']; [done|]. rewrite str_app_cons.
  rewrite lstrip_no_lead by (by eapply count_no_lead).
  rewrite <- str_app_cons. unfold PyStr.split.
  change ("." +:+ rest) with (String dot rest).
  rewrite split_aux_app by done. rewrite str_app_nil_l.
  destruct (PyInt.int (String a s')) as [idx|]; [|done].
  destruct (getitem_int (EList items) idx) as [e|el]; [done|]. cbn [rbind].
  destruct (get_id el) as [e|el_id]; [done|]. cbn [rbind]. do 2 f_equal.
  cbn [app]. rewrite join_cons by done.
  rewrite join_cons by apply split_aux_nonempty.
  pose proof (join_split rest) as Hj. unfold PyStr.split in Hj. rewrite Hj. reflexivity.
Qed.

(** The element filter begins with the filtered field and
[$[element]]. *)
Lemma parse_id_and_array_filter_prefix self (k ff : string) el_id el_filter :
  _parse_id_and_array_filter self k ff = inr (el_id, el_filter) →
  PyStr.startswith el_filter (ff +:+ ".$[element]") = true.
Proof.
  unfold _parse_id_and_array_filter.
  destruct (getitems self (PyStr.split dot ff)) as [e|el]; [done|]. cbn [rbind].
  destruct (PyStr.split dot _) as [|first el_fields]; [done|].
  destruct (PyInt.int first) as [idx|]; [|done].
  destruct (getitem_int el idx) as [e|el']; [done|]. cbn [rbind].
  destruct (get_id el') as [e|i]; [done|]. cbn [rbind]. intros [= _ <-].
  destruct el_fields as [|x l].
  - change (ff +:+ "." +:+ "$[element]") with (ff +:+ ".$[element]").
    rewrite <- (str_app_nil_r (ff +:+ ".$[element]")) at 1.
    apply str_startswith_app.
  - replace (ff +:+ "." +:+ "$[element]" +:+ "." +:+ PyStr.join "." (x :: l))
      with ((ff +:+ ".$[element]") +:+ "." +:+ PyStr.join "." (x :: l)).
    + apply str_startswith_app.
    + rewrite str_app_assoc. reflexivity.
Qed.

(** *** [int] on numerals and on text that is no literal *)

Lemma digit_char_facts (d : nat) :
  d < 10 →
  PyInt.digit (digit_char d) = Some (Z.of_nat d)
  ∧ PyInt.is_space (digit_char d) = false
  ∧ Ascii.eqb (digit_char d) "-" = false
  ∧ Ascii.eqb (digit_char d) "+" = false
  ∧ Ascii.eqb (digit_char d) dot = false.
Proof.
  intros Hd. do 10 (destruct d as [|d]; [by vm_compute|]). lia.
Qed.

Lemma digits_numeral (ds : list nat) (n : nat) (prev : bool) :
  Forall (λ d, d < 10) ds → ds ≠ [] ∨ prev = true →
  PyInt.digits (Z.of_nat n) prev (numeral ds)
  = Some (Z.of_nat (foldl (λ acc d, 10 * acc + d) n ds)).
Proof.
  intros Hds. revert n prev. induction Hds as [|d ds Hd _ IH]; intros n prev Hne.
  - destruct Hne as [?| ->]; done.
  - cbn [numeral foldr PyInt.digits foldl].
    destruct (digit_char_facts d Hd) as (-> & _).
    replace (10 * Z.of_nat n + Z.of_nat d)%Z with (Z.of_nat (10 * n + d)) by lia.
    apply IH. by right.
Qed.

Lemma int_numeral (ds : list nat) :
  decimal_digits ds →
  PyInt.int (numeral ds) = Some (Z.of_nat (numeral_value ds))
  ∧ PyInt.int ("-" +:+ numeral ds) = Some (- Z.of_nat (numeral_value ds))%Z
  ∧ numeral ds ≠ "" ∧ PyStr.count dot (numeral ds) = 0.
Proof.
  intros [Hne Hds]. split; [|split; [|split]].
  - destruct ds as [|d ds]; [done|].
    pose proof (digits_numeral (d :: ds) 0 false Hds (or_introl Hne)) as Hdigits.
    apply Forall_cons in Hds as [Hd _].
    destruct (digit_char_facts d Hd) as (_ & Hsp & Hminus & Hplus & _).
    unfold PyInt.int. cbn [numeral foldr PyInt.lstrip_space] in *.
    rewrite Hsp, Hminus, Hplus. exact Hdigits.
  - change ("-" +:+ numeral ds) with (String "-" (numeral ds)).
    unfold PyInt.int. cbn [PyInt.lstrip_space].
    change (PyInt.is_space "-") with false. cbv iota.
    change (Ascii.eqb "-" "-") with true. cbv iota.
    change 0%Z with (Z.of_nat 0).
    by rewrite (digits_numeral ds 0 false Hds (or_introl Hne)).
  - by destruct ds.
  - clear Hne. induction Hds as [|d ds Hd _ IH]; [done|].
    cbn [numeral foldr PyStr.count].
    destruct (digit_char_facts d Hd) as (_ & _ & _ & _ & ->). exact IH.
Qed.

Lemma not_literal_char_facts (c : ascii) :
  may_be_in_int_literal c = false →
  PyInt.digit c = None ∧ PyInt.is_space c = false
  ∧ Ascii.eqb c underscore = false ∧ c ≠ "-"%char ∧ c ≠ "+"%char.
Proof.
  destruct c as [[] [] [] [] [] [] [] []]; vm_compute; intros H;
    try discriminate H; by split_and!.
Qed.

Lemma str_In_cons (c a : ascii) (s : string) :
  In c (list_ascii_of_string (String a s)) ↔ c = a ∨ In c (list_ascii_of_string s).
Proof. simpl. split; intros [?|?]; auto. Qed.

Lemma lstrip_space_keeps (c : ascii) (s : string) :
  PyInt.is_space c = false → In c (list_ascii_of_string s) →
  In c (list_ascii_of_string (PyInt.lstrip_space s)).
Proof.
  intros Hc. induction s as [|a s IH]; [done|]. intros Hin.
  cbn [PyInt.lstrip_space]. destruct (PyInt.is_space a) eqn:Ha; [|exact Hin].
  apply IH. apply str_In_cons in Hin as [->|Hin]; [congruence|exact Hin].
Qed.

Lemma digits_not_literal (c : ascii) (s : string) (acc : Z) (prev : bool) :
  may_be_in_int_literal c = false → In c (list_ascii_of_string s) →
  PyInt.digits acc prev s = None.
Proof.
  intros Hc. destruct (not_literal_char_facts c Hc) as (Hdig & Hsp & Hund & _ & _).
  revert acc prev. induction s as [|a s IH]; intros acc prev Hin; [done|].
  cbn [PyInt.digits].
  destruct (PyInt.digit a) as [d|] eqn:Ha.
  { apply IH. apply str_In_cons in Hin as [->|Hin]; [congruence|exact Hin]. }
  destruct (Ascii.eqb a underscore) eqn:Hau.
  { assert (In c (list_ascii_of_string s)) as Hin'.
    { apply str_In_cons in Hin as [->|Hin]; [congruence|exact Hin]. }
    destruct prev; [|done]. destruct s as [|b s']; [done|].
    destruct (PyInt.digit b); [|done]. by apply IH. }
  destruct (prev && PyInt.is_space a) eqn:Hsa; [|done].
  apply andb_true_iff in Hsa as [_ Hsa].
  assert (In c (list_ascii_of_string s)) as Hin'.
  { apply str_In_cons in Hin as [->|Hin]; [congruence|exact Hin]. }
  apply (lstrip_space_keeps c s Hsp) in Hin'.
  by destruct (PyInt.lstrip_space s).
Qed.

Lemma int_not_literal (c : ascii) (s : string) :
  may_be_in_int_literal c = false → In c (list_ascii_of_string s) →
  PyInt.int s = None.
Proof.
  intros Hc Hin. destruct (not_literal_char_facts c Hc) as (_ & Hsp & _ & Hminus & Hplus).
  apply (lstrip_space_keeps c s Hsp) in Hin. unfold PyInt.int.
  destruct (PyInt.lstrip_space s) as [|a s']; [done|].
  destruct (Ascii.eqb a "-") eqn:Ham.
  { apply Ascii.eqb_eq in Ham as ->.
    apply str_In_cons in Hin as [?|Hin]; [done|].
    by rewrite (digits_not_literal c s' 0 false Hc Hin). }
  destruct (Ascii.eqb a "+") eqn:Hap.
  { apply Ascii.eqb_eq in Hap as ->.
    apply str_In_cons in Hin as [?|Hin]; [done|].
    exact (digits_not_literal c s' 0 false Hc Hin). }
  exact (digits_not_literal c _ 0 false Hc Hin).
Qed.

Lemma getitem_int_index (items : list (Element V ObjectId)) (n : nat) :
  getitem_int (EList items) (Z.of_nat n)
  = match py_index items n with Some e => inr e | None => inl IndexError end
  ∧ getitem_int (EList items) (- Z.of_nat n)
    = match py_index_neg items n with Some e => inr e | None => inl IndexError end.
Proof.
  unfold getitem_int, py_index, py_index_neg. split.
  - assert ((Z.of_nat n <? 0)%Z = false) as Hlt by (apply Z.ltb_ge; lia).
    rewrite Hlt. cbv beta iota. rewrite Hlt. by rewrite Nat2Z.id.
  - destruct (decide (n = 0)) as [->|Hn].
    + change (- Z.of_nat 0)%Z with 0%Z. reflexivity.
    + assert ((- Z.of_nat n <? 0)%Z = true) as Hlt by (apply Z.ltb_lt; lia).
      rewrite Hlt. cbv beta iota.
      destruct (decide (n ≤ length items)%nat) as [Hle|Hgt].
      * assert ((- Z.of_nat n + Z.of_nat (length items) <? 0)%Z = false) as Hge
          by (apply Z.ltb_ge; lia).
        rewrite Hge.
        by replace (Z.to_nat (- Z.of_nat n + Z.of_nat (length items)))
          with (length items - n) by lia.
      * assert ((- Z.of_nat n + Z.of_nat (length items) <? 0)%Z = true) as Hneg
          by (apply Z.ltb_lt; lia).
        by rewrite Hneg.
Qed.


End ParseProofs.


Section PartitionProofs.
Context {V ObjectId : Type}.
Implicit Types (self : Element V ObjectId) (update_doc : UpdateDoc V)
  (d : list (string * V)).

(** What the loop over [$set] collects: one extra update per extracted
key, in order, and the extracted keys. *)
Lemma extract_items_shape self ffs d extras del_keys :
  extract_items self ffs d = inr (extras, del_keys) →
  del_keys = filter (λ k, extracted ffs k = true) (PyDict.keys d)
  ∧ Forall2 (λ ex kv,
       ∃ ff el_filter, List.find (λ ff, PyStr.startswith kv.1 ff) ffs = Some ff
         ∧ _parse_id_and_array_filter self kv.1 ff = inr (ex.2, el_filter)
         ∧ ex.1 = [("$set", [(el_filter, kv.2)])])
      extras (filter (λ kv, extracted ffs kv.1 = true) d).
Proof.
  revert extras del_keys. induction d as [|[k v] d IH]; intros extras del_keys; simpl.
  { intros [= <- <-]. split; [done|constructor]. }
  assert (Hex : extracted ffs k
                = match find (λ ff, PyStr.startswith k ff) ffs with
                  | Some ff => bool_decide (ff ≠ "")
                  | None => false
                  end) by reflexivity.
  destruct (find (λ ff, PyStr.startswith k ff) ffs) as [ff|] eqn:Hfind.
  - destruct (decide (ff = "")) as [->|Hne].
    + rewrite bool_decide_eq_false_2 in Hex by auto.
      intros Hrest. apply IH in Hrest as [-> Hall].
      rewrite !filter_cons_False by (simpl; congruence). done.
    + rewrite bool_decide_eq_true_2 in Hex by done.
      destruct (_parse_id_and_array_filter self k ff) as [e|[el_id el_filter]] eqn:Hparse;
        [done|]. cbn [rbind].
      destruct (extract_items self ffs d) as [e|[extras' del_keys']]; [done|].
      cbn [rbind fst snd]. intros [= <- <-].
      destruct (IH _ _ eq_refl) as [-> Hall].
      rewrite !filter_cons_True by done.
      split; [done|]. constructor; [|done]. exists ff, el_filter. simpl.
      by rewrite Hfind, Hparse.
  - intros Hrest. apply IH in Hrest as [-> Hall].
    rewrite !filter_cons_False by (simpl; congruence). done.
Qed.

(** Deleting keys one by one keeps the items under the other keys. *)
Lemma foldl_del_filter d (ks : list string) :
  NoDup (PyDict.keys d) →
  foldl (λ acc k, PyDict.del k acc) d ks = filter (λ kv, kv.1 ∉ ks) d.
Proof.
  revert d. induction ks as [|k ks IH]; intros d Hnd; simpl.
  - symmetry. apply filter_Forall_id, Forall_forall. intros ? _. apply not_elem_of_nil.
  - rewrite IH.
    + rewrite PyDict_del_filter by done. rewrite list_filter_filter.
      apply list_filter_iff. intros [k' v']. simpl. rewrite not_elem_of_cons. tauto.
    + rewrite PyDict_del_filter by done. unfold PyDict.keys in *.
      apply (sublist_NoDup _ d.*1 Hnd). apply fmap_sublist, sublist_filter.
Qed.

(** The update document and the extra updates [_extract_extra_updates]
returns for an update with a [$set]. *)
Lemma extract_extra_updates_doc self update_doc (ffs : list string) d extras update_doc' :
  ffs ≠ [] → PyDict.get "$set" update_doc = Some d → NoDup (PyDict.keys d) →
  _extract_extra_updates self update_doc (Some ffs) = inr (extras, update_doc') →
  let kept := filter (λ kv, extracted ffs kv.1 = false) d in
  update_doc' = (if kept is [] then PyDict.del "$set" update_doc
                 else PyDict.set "$set" kept update_doc)
  ∧ Forall2 (λ ex kv,
       ∃ ff el_filter, List.find (λ ff, PyStr.startswith kv.1 ff) ffs = Some ff
         ∧ _parse_id_and_array_filter self kv.1 ff = inr (ex.2, el_filter)
         ∧ ex.1 = [("$set", [(el_filter, kv.2)])])
      extras (filter (λ kv, extracted ffs kv.1 = true) d).
Proof.
  intros Hffs Hset Hnd. unfold _extract_extra_updates.
  destruct ffs as [|ff0 ffs0]; [done|]. set (ffs := ff0 :: ffs0) in *.
  destruct (check_update_doc update_doc ffs); [done|]. rewrite Hset.
  destruct (extract_items self ffs d) as [e|[ex del_keys]] eqn:Hitems; [done|].
  unfold rbind. cbn [fst snd]. intros [= <- <-].
  set (kept := filter (λ kv : string * V, extracted ffs kv.1 = false) d).
  apply extract_items_shape in Hitems as [-> Hall].
  assert (foldl (λ acc k, PyDict.del k acc) d
            (filter (λ k, extracted ffs k = true) (PyDict.keys d)) = kept) as ->.
  { rewrite foldl_del_filter by done. subst kept. apply filter_ext_Forall.
    apply Forall_forall. intros [k v] Hin. simpl. rewrite list_elem_of_filter.
    split.
    - intros Hno. destruct (extracted ffs k) eqn:Hex; [|done].
      exfalso. apply Hno. split; [done|]. unfold PyDict.keys.
      apply list_elem_of_fmap. by exists (k, v).
    - intros Hex [Hyes _]. congruence. }
  split; [by destruct kept|exact Hall].
Qed.

(** A key that is not extracted begins with no filtered field, unless
the empty string is a filtered field. *)
Lemma kept_outside_filtered (ffs : list string) d (k : string) (v : V) (ff : string) :
  "" ∉ ffs → (k, v) ∈ filter (λ kv, extracted ffs kv.1 = false) d → ff ∈ ffs →
  PyStr.startswith k ff = false.
Proof.
  intros Hempty [Hex _]%list_elem_of_filter Hff. simpl in Hex.
  destruct (PyStr.startswith k ff) eqn:Hstart; [|done]. exfalso.
  unfold extracted in Hex.
  destruct (find (λ ff, PyStr.startswith k ff) ffs) as [ff'|] eqn:Hfind.
  - apply find_some in Hfind as [Hin' _]. apply bool_decide_eq_false in Hex.
    apply Hex. intros ->. apply Hempty. by apply list_elem_of_In.
  - eapply find_none in Hfind; [|by apply list_elem_of_In]. simpl in Hfind. congruence.
Qed.

(** X21: extraction splits [$set] by key. For an update whose [$set]
holds each key once, when [_extract_extra_updates] returns, the update
document keeps under [$set] exactly the items whose key is not
extracted, in their order ([$set] itself goes when none is left), and
every other operator as it was; each extracted item, in order, became
one extra update that sets the parsed element filter to the item's
value, paired with the element's [_id]. Unless the empty string is a
filtered field, no key left in [$set] begins with a filtered field. *)
Theorem extract_extra_updates_partition self update_doc (ffs : list string) d
    extras update_doc' :
  ffs ≠ [] → PyDict.get "$set" update_doc = Some d → NoDup (PyDict.keys d) →
  _extract_extra_updates self update_doc (Some ffs) = inr (extras, update_doc') →
  let kept := filter (λ kv, extracted ffs kv.1 = false) d in
  update_doc' = (if kept is [] then PyDict.del "$set" update_doc
                 else PyDict.set "$set" kept update_doc)
  ∧ Forall2 (λ ex kv,
       ∃ ff el_filter, List.find (λ ff, PyStr.startswith kv.1 ff) ffs = Some ff
         ∧ _parse_id_and_array_filter self kv.1 ff = inr (ex.2, el_filter)
         ∧ ex.1 = [("$set", [(el_filter, kv.2)])])
      extras (filter (λ kv, extracted ffs kv.1 = true) d)
  ∧ ("" ∉ ffs → ∀ k v ff, (k, v) ∈ kept → ff ∈ ffs → PyStr.startswith k ff = false).
Proof.
  intros Hffs Hset Hnd Hrun kept.
  destruct (extract_extra_updates_doc self update_doc ffs d extras update_doc'
              Hffs Hset Hnd Hrun) as [Hdoc Hall].
  split; [exact Hdoc|]. split; [exact Hall|].
  intros Hempty k v ff Hin Hff. by eapply kept_outside_filtered.
Qed.

Lemma extract_extra_updates_no_set self update_doc (ffs : list string) extras update_doc' :
  PyDict.get "$set" update_doc = None →
  _extract_extra_updates self update_doc (Some ffs) = inr (extras, update_doc') →
  extras = [] ∧ update_doc' = update_doc.
Proof.
  intros Hset. unfold _extract_extra_updates. destruct ffs; [by intros [= <- <-]|].
  destruct (check_update_doc _ _); [done|]. rewrite Hset. by intros [= <- <-].
Qed.

Section UpdateProofs.
Variable raw_result : list (UpdateOne V ObjectId) → UpdateOne V ObjectId → option (option bool).

Lemma update_extras_calls (object_id : ObjectId) extras u calls :
  let res := update_extras raw_result object_id extras u calls in
  res.2 = calls ++ ((λ ex, MkUpdateOne object_id ex.1 (Some ex.2)) <$> extras)
  ∧ ((∀ cs c, raw_result cs c = None ∨ raw_result cs c = Some (Some true)) →
     u = Some true → res.1 = Some true).
Proof.
  revert u calls. induction extras as [|[upd el_id] extras IH]; intros u calls; simpl.
  - by rewrite app_nil_r.
  - destruct (IH (match raw_result calls (MkUpdateOne object_id upd (Some el_id)) with
                  | Some u0 => py_and u u0
                  | None => u
                  end) (calls ++ [MkUpdateOne object_id upd (Some el_id)])) as [Hcalls Hres].
    split; [by rewrite Hcalls, <- app_assoc|].
    intros Hgood ->. apply Hres; [done|].
    by destruct (Hgood calls (MkUpdateOne object_id upd (Some el_id))) as [-> | ->].
Qed.

(** X22: [_update] writes into a filtered list by element, never by
position. With filtered fields given (none of them empty) and an update
whose operators and [$set] keys are each listed once, the call sends
nothing when extraction raises. Otherwise it sends exactly these calls,
all selecting the document by its [_id]: first, without array filter,
the update with the extracted items taken out of [$set] (with [$set]
taken out when nothing is left in it), unless that update is empty;
then, for each extracted item of [$set] in order, one call whose array
filter is the [_id] of the list element the key points at and whose
update sets the value under the parsed element filter, a path that
begins with the filtered field followed by [$[element]]. No key left in
the [$set] of the first call begins with a filtered field. The value
returned is [True] when every answer of the collection is [None] or
reports an existing document. *)
Theorem update_addresses_elements_by_id self (object_id : ObjectId) update_doc
    (ffs : list string) calls r calls' :
  ffs ≠ [] → "" ∉ ffs → NoDup (PyDict.keys update_doc) →
  (∀ d, PyDict.get "$set" update_doc = Some d → NoDup (PyDict.keys d)) →
  _update raw_result self object_id update_doc (Some ffs) calls = (r, calls') →
  match r with
  | inl _ => calls' = calls
  | inr u =>
      let d := default [] (PyDict.get "$set" update_doc) in
      let kept := filter (λ kv, extracted ffs kv.1 = false) d in
      let rest_doc := if kept is [] then PyDict.del "$set" update_doc
                      else PyDict.set "$set" kept update_doc in
      ∃ elems,
        calls' = calls
                 ++ (if rest_doc is [] then [] else [MkUpdateOne object_id rest_doc None])
                 ++ elems
        ∧ Forall2 (λ c kv,
             ∃ ff el_id el_filter,
               ff ∈ ffs ∧ PyStr.startswith kv.1 ff = true
               ∧ _parse_id_and_array_filter self kv.1 ff = inr (el_id, el_filter)
               ∧ PyStr.startswith el_filter (ff +:+ ".$[element]") = true
               ∧ c = MkUpdateOne object_id [("$set", [(el_filter, kv.2)])] (Some el_id))
            elems (filter (λ kv, extracted ffs kv.1 = true) d)
        ∧ (∀ k v ff, (k, v) ∈ kept → ff ∈ ffs → PyStr.startswith k ff = false)
        ∧ ((∀ cs c, raw_result cs c = None ∨ raw_result cs c = Some (Some true)) →
           u = Some true)
  end.
Proof.
  intros Hffs Hempty Hops Hkeys. unfold _update.
  destruct (_extract_extra_updates self update_doc (Some ffs))
    as [e|[extras update_doc1]] eqn:Hext.
  { by intros [= <- <-]. }
  set (d := default [] (PyDict.get "$set" update_doc)).
  set (kept := filter (λ kv : string * V, extracted ffs kv.1 = false) d).
  set (rest_doc := if kept is [] then PyDict.del "$set" update_doc
                   else PyDict.set "$set" kept update_doc).
  assert (update_doc1 = rest_doc
          ∧ Forall2 (λ (ex : UpdateDoc V * ObjectId) (kv : string * V),
               ∃ ff el_filter, List.find (λ ff, PyStr.startswith kv.1 ff) ffs = Some ff
                 ∧ _parse_id_and_array_filter self kv.1 ff = inr (ex.2, el_filter)
                 ∧ ex.1 = [("$set", [(el_filter, kv.2)])])
              extras (filter (λ kv, extracted ffs kv.1 = true) d)) as [-> Hall].
  { subst rest_doc kept d.
    destruct (PyDict.get "$set" update_doc) as [d0|] eqn:Hset.
    - exact (extract_extra_updates_doc self update_doc ffs d0 extras update_doc1
               Hffs Hset (Hkeys d0 eq_refl) Hext).
    - apply extract_extra_updates_no_set in Hext as [-> ->]; [|done].
      cbn [default filter list_filter]. rewrite PyDict_del_absent by done.
      split; [done|constructor]. }
  set (main := match rest_doc with
               | [] => (Some true, calls)
               | _ =>
                   (match raw_result calls (MkUpdateOne object_id rest_doc None) with
                    | Some u => u
                    | None => Some true
                    end, calls ++ [MkUpdateOne object_id rest_doc None])
               end).
  assert (Hmain : main.2 = calls ++ (if rest_doc is [] then []
                                     else [MkUpdateOne object_id rest_doc None])
            ∧ ((∀ cs c, raw_result cs c = None ∨ raw_result cs c = Some (Some true)) →
               main.1 = Some true)).
  { subst main. destruct rest_doc as [|op rest].
    - by rewrite app_nil_r.
    - split; [done|]. intros Hgood. simpl.
      by destruct (Hgood calls (MkUpdateOne object_id (op :: rest) None)) as [-> | ->]. }
  destruct Hmain as (Hfirst & Hgood1).
  destruct main as [u1 calls1]. simpl in Hfirst, Hgood1. subst calls1.
  match goal with |- context [update_extras raw_result object_id extras u1 ?cs] =>
    pose proof (update_extras_calls object_id extras u1 cs) as [Hcalls Hgood2];
    destruct (update_extras raw_result object_id extras u1 cs) as [u2 calls2]
  end.
  simpl in Hcalls, Hgood2. intros [= <- <-]. subst calls2.
  exists ((λ ex, MkUpdateOne object_id ex.1 (Some ex.2)) <$> extras).
  split; [by rewrite <- app_assoc|]. split; [|split].
  - apply Forall2_fmap_l. eapply Forall2_impl; [exact Hall|].
    intros [upd el_id] [k v] (ff & el_filter & Hfind & Hparse & Hupd). simpl in *.
    apply find_some in Hfind as [Hin Hstart].
    exists ff, el_id, el_filter. split; [by apply list_elem_of_In|]. split; [exact Hstart|].
    split; [exact Hparse|].
    split; [by eapply parse_id_and_array_filter_prefix|]. by rewrite Hupd.
  - intros k v ff Hin Hff. by eapply kept_outside_filtered.
  - intros Hgood. apply Hgood2; [done|]. by apply Hgood1.
Qed.

End UpdateProofs.

End PartitionProofs.

Lemma extract_extra_updates_partition_witness :
  ∃ extras update_doc',
    _extract_extra_updates demo_sample
      [("$unset", [("tmp", "")]);
       ("$set", [("dets.detections.1.label", "bird"); ("filepath", "b.png");
                 ("dets.detections.0.label", "lion")])]
      (Some ["dets.detections"]) = inr (extras, update_doc')
    ∧ update_doc'
      = [("$unset", [("tmp", "")]); ("$set", [("filepath", "b.png")])]
    ∧ length extras = 2.
Proof.
  eexists _, _. split; [vm_compute; reflexivity|].
  pose proof (extract_extra_updates_partition demo_sample
                [("$unset", [("tmp", "")]);
                 ("$set", [("dets.detections.1.label", "bird"); ("filepath", "b.png");
                           ("dets.detections.0.label", "lion")])]
                ["dets.detections"] _ _ _ ltac:(discriminate) eq_refl
                ltac:(vm_compute; repeat (constructor; [set_solver|]); constructor)
                eq_refl) as (Hdoc & Hex & _).
  split; [exact Hdoc|]. apply Forall2_length in Hex. exact Hex.
Defined.

Lemma update_addresses_elements_by_id_witness :
  let raw_result : list (UpdateOne string string) → UpdateOne string string
                   → option (option bool) := λ _ _, Some (Some true) in
  let ffs := ["dets.detections"] in
  let d := [("dets.detections.1.label", "bird"); ("filepath", "b.png")] in
  let kept := filter (λ kv, extracted ffs kv.1 = false) d in
  let rest_doc := if kept is [] then PyDict.del "$set" [("$set", d)]
                  else PyDict.set "$set" kept [("$set", d)] in
  ∃ elems,
    [MkUpdateOne "sample-0" [("$set", [("filepath", "b.png")])] None;
     MkUpdateOne "sample-0" [("$set", [("dets.detections.$[element].label", "bird")])]
       (Some "det-1")]
    = [] ++ (if rest_doc is [] then [] else [MkUpdateOne "sample-0" rest_doc None])
         ++ elems
    ∧ Forall2 (λ c kv,
         ∃ ff el_id el_filter,
           ff ∈ ffs ∧ PyStr.startswith kv.1 ff = true
           ∧ _parse_id_and_array_filter demo_sample kv.1 ff = inr (el_id, el_filter)
           ∧ PyStr.startswith el_filter (ff +:+ ".$[element]") = true
           ∧ c = MkUpdateOne "sample-0" [("$set", [(el_filter, kv.2)])] (Some el_id))
        elems (filter (λ kv, extracted ffs kv.1 = true) d)
    ∧ (∀ k v ff, (k, v) ∈ kept → ff ∈ ffs → PyStr.startswith k ff = false)
    ∧ ((∀ cs c, raw_result cs c = None ∨ raw_result cs c = Some (Some true)) →
       Some true = Some true).
Proof.
  intros raw_result ffs d.
  apply (update_addresses_elements_by_id raw_result demo_sample "sample-0"
           [("$set", d)] ffs [] (inr (Some true))).
  - discriminate.
  - intros Hin. apply list_elem_of_singleton in Hin. discriminate.
  - vm_compute. repeat (constructor; [set_solver|]). constructor.
  - intros d' [= <-]. vm_compute. repeat (constructor; [set_solver|]). constructor.
  - vm_compute. reflexivity.
Defined.

(** ** What a batch delete leaves alone *)

Section DeleteOthers.
Context {types : FieldTypeSystem}.
Variable cls : DocClass.

Lemma delete_loop_others (l : list string) w r w' :
  for_each l (_delete_field_schema cls) w = (r, w') →
  (∀ n, n ∉ l → _fields w' !! n = _fields w !! n)
  ∧ dom (_fields w') ⊆ dom (_fields w)
  ∧ (registry_ok w → registry_ok w').
Proof.
  revert w. induction l as [|x l IH]; intros w Hrun.
  { by inversion Hrun; subst. }
  rewrite for_each_cons in Hrun.
  destruct (_delete_field_schema cls x w) as [[e|[]] w1] eqn:Hdel.
  - unfold _delete_field_schema in Hdel. destruct (_fields w !! x); [done|].
    by inversion Hdel; inversion Hrun; subst.
  - assert (registry_ok w → registry_ok w1) as Hreg1.
    { intros [Hk Hnd]. split.
      - by apply (run_op_keys_match cls (DeleteFieldSchema x) w (inr tt) w1).
      - by apply (run_op_NoDup cls (DeleteFieldSchema x) w (inr tt) w1). }
    unfold _delete_field_schema in Hdel. destruct (_fields w !! x) eqn:Hx; [|done].
    injection Hdel as <-. apply IH in Hrun as (Hothers & Hdom & Hreg). simpl in *.
    split; [|split].
    + intros n [Hn1 Hn2]%not_elem_of_cons. rewrite Hothers by done.
      by rewrite lookup_delete_ne.
    + rewrite dom_delete in Hdom. set_solver.
    + auto.
Qed.

Lemma delete_apply_others (del_fields field_names : list string) w r w' :
  (exec _delete_fields_simple cls del_fields;
   exec for_each del_fields (_delete_field_schema cls);
   exec modify (λ w,
          set_dataset_doc
            (set_app_config
               (app_config (dataset_doc w) ++ [DeletePaths field_names])
               (dataset_doc w)) w);
   save) w = (r, w') →
  (∀ n, n ∉ del_fields → _fields w' !! n = _fields w !! n)
  ∧ dom (_fields w') ⊆ dom (_fields w)
  ∧ (registry_ok w → registry_ok w').
Proof.
  unfold bind at 1.
  assert (∃ ops, _delete_fields_simple cls del_fields w
                 = (inr tt, set_storage (storage w ++ ops) w)) as [ops ->].
  { unfold _delete_fields_simple. destruct del_fields.
    - exists []. destruct w. simpl. by rewrite app_nil_r.
    - by eexists [_]. }
  unfold bind at 1.
  destruct (for_each del_fields _ _) as [[e|[]] w1] eqn:Hloop;
    apply delete_loop_others in Hloop as (Hothers & Hdom & Hreg);
    unfold bind, modify, save; intros [= <- <-]; done.
Qed.

(** X23: what [_delete_fields] leaves alone. At every error level and
whatever the outcome, a field that was not requested, a default field
and the group field of a grouped dataset stay registered with their
descriptors; no field is added; and the registry invariant is kept. *)
Theorem delete_fields_keeps_the_rest (field_names : list string) (level : ErrorLevel)
    w r w' :
  _delete_fields cls field_names level w = (r, w') →
  (∀ n, n ∉ field_names ∨ n ∈ delete_defaults cls w → _fields w' !! n = _fields w !! n)
  ∧ dom (_fields w') ⊆ dom (_fields w)
  ∧ (registry_ok w → registry_ok w').
Proof.
  assert (Hnot : ∀ n, n ∉ field_names ∨ n ∈ delete_defaults cls w →
            n ∉ filter (deletable cls w) field_names).
  { intros n Hn [[Hd _] Hin]%list_elem_of_filter. tauto. }
  assert (level = RaiseError ∨ level ≠ RaiseError) as [->|Hlevel]
    by (destruct level; auto).
  - rewrite delete_fields_unfold_raise.
    destruct (list_find _ field_names) as [[i n]|] eqn:Hfind; [by intros [= <- <-]|].
    assert (filter (deletable cls w) field_names = field_names) as Hall.
    { apply list_find_None in Hfind. apply filter_Forall_id.
      eapply Forall_impl; [exact Hfind|].
      intros n Hn. simpl in Hn. by destruct (decide (deletable cls w n)). }
    rewrite Hall in Hnot.
    destruct field_names as [|x l]; [by intros [= <- <-]|].
    intros Hrun. apply delete_apply_others in Hrun as (Hothers & Hdom & Hreg). auto.
  - destruct (delete_fields_unfold_tolerant cls field_names level w Hlevel)
      as (w0 & [ws ->] & _ & ->).
    destruct (filter (deletable cls w) field_names) as [|x l] eqn:Hdel;
      [by intros [= <- <-]|].
    intros Hrun. apply delete_apply_others in Hrun as (Hothers & Hdom & Hreg).
    simpl in *. auto.
Qed.

End DeleteOthers.

Lemma delete_fields_keeps_the_rest_witness :
  let w' := (_delete_fields (types := demo_types) demo_cls ["id"; "a"; "zz"] IgnoreError
               world_ab).2 in
  (∀ n, n ∉ ["id"; "a"; "zz"] ∨ n ∈ delete_defaults (types := demo_types) demo_cls world_ab →
     _fields w' !! n = _fields world_ab !! n)
  ∧ dom (_fields w') ⊆ dom (_fields world_ab)
  ∧ (registry_ok world_ab → registry_ok w').
Proof.
  apply (delete_fields_keeps_the_rest (types := demo_types) demo_cls ["id"; "a"; "zz"]
           IgnoreError world_ab (inr tt)).
  vm_compute. reflexivity.
Defined.

(** ** Adding a field under an embedded path *)

Lemma lookup_field_name (chunk : string) (fields : list Field) (f : Field) :
  lookup_field chunk fields = Some f → name f = chunk.
Proof.
  induction fields as [|g fields IH]; simpl; [done|].
  destruct (decide (name g = chunk)); [by intros [= <-]|exact IH].
Qed.

Lemma lookup_field_None (chunk : string) (fields : list Field) :
  lookup_field chunk fields = None ↔ Forall (λ f, name f ≠ chunk) fields.
Proof.
  induction fields as [|g fields IH]; simpl; [by split; [constructor|]|].
  destruct (decide (name g = chunk)) as [Hg|Hg].
  - split; [done|]. by intros [? _]%Forall_cons.
  - rewrite IH. split; [by constructor|by intros [_ ?]%Forall_cons].
Qed.

Lemma lookup_field_app_new (chunk : string) (fields : list Field) (f : Field) :
  Forall (λ g, name g ≠ chunk) fields → name f = chunk →
  lookup_field chunk (fields ++ [f]) = Some f.
Proof.
  intros Hall Hf. induction Hall as [|g fields Hg _ IH]; simpl.
  - by rewrite decide_True.
  - by rewrite decide_False.
Qed.

Lemma lookup_field_replace (chunk : string) (fields : list Field) (f f' : Field) :
  lookup_field chunk fields = Some f → name f' = chunk →
  lookup_field chunk (replace_field chunk f' fields) = Some f'.
Proof.
  intros Hf Hname. induction fields as [|g fields IH]; simpl in *; [done|].
  destruct (decide (name g = chunk)); simpl.
  - by rewrite decide_True.
  - rewrite decide_False by done. auto.
Qed.

Lemma embedded_fields_with (sub sub' : list Field) (doc : Field) :
  embedded_fields doc = Some sub →
  embedded_fields (with_embedded_fields sub' doc) = Some sub'
  ∧ name (with_embedded_fields sub' doc) = name doc.
Proof.
  unfold embedded_fields, with_embedded_fields.
  destruct doc as [n d rq nl t]. simpl.
  destruct t as [c| |[inner|]|c fs]; try done.
  destruct inner as [n' d' rq' nl' t']. simpl. by destruct t'.
Qed.

(** What [declare_embedded] stores is found under the descriptor's
name. *)
Lemma declare_embedded_lookup (field : Field) (fields : list Field) :
  let '(fields', stored) := declare_embedded field fields in
  lookup_field (name field) fields' = Some stored
  ∧ name stored = name field ∧ ftype stored = ftype field
  ∧ db_field stored = db_field field.
Proof.
  unfold declare_embedded.
  destruct (lookup_field (name field) fields) as [prev|] eqn:Hprev.
  - split; [|by destruct field].
    apply lookup_field_app_new; [|by destruct field].
    apply Forall_forall. by intros g [? _]%list_elem_of_filter.
  - split; [|done]. apply lookup_field_app_new; [|done]. by apply lookup_field_None.
Qed.

Section AddEmbeddedProofs.
Context {types : FieldTypeSystem}.
Variable cls : DocClass.

Lemma add_embedded_then_walk (doc_name path root : string) (chunks : list string)
    (name' : string) (field : Field) (field_docs : option (list SampleFieldDocument))
    (fields : list Field) docs' fields' :
  add_embedded_field_schema doc_name path root chunks name' field field_docs fields
  = (inr tt, docs', fields') →
  ∀ root_w, ∃ schema stored,
    walk_chunks doc_name path root_w chunks (λ n, lookup_field n fields') = inr schema
    ∧ schema name' = Some stored
    ∧ name stored = name' ∧ ftype stored = ftype field
    ∧ db_field stored = _get_db_field field name'.
Proof.
  revert root field_docs fields docs' fields'.
  induction chunks as [|chunk rest IH]; intros root field_docs fields docs' fields'; simpl.
  - pose proof (declare_embedded_lookup
                  (set_name name' (set_db_field (_get_db_field field name') field)) fields)
      as Hdecl.
    destruct (declare_embedded _ fields) as [fields1 stored].
    destruct Hdecl as (Hlook & Hname & Htype & Hdb).
    destruct field_docs as [docs|]; [|done]. intros [= <- <-] root_w.
    exists (λ n, lookup_field n fields1), stored. by destruct field.
  - destruct field_docs as [docs|]; [|done].
    destruct (lookup_field chunk docs) as [field_doc|]; [|done].
    destruct (lookup_field chunk fields) as [doc|] eqn:Hdoc; [|done].
    destruct (embedded_fields doc) as [sub|] eqn:Hsub; [|done].
    destruct (add_embedded_field_schema _ _ _ rest _ _ _ sub)
      as [[r1 sub_docs'] sub'] eqn:Hrec.
    intros [= -> <- <-] root_w.
    destruct (embedded_fields_with sub sub' doc Hsub) as [Hemb Hname].
    rewrite (lookup_field_replace chunk fields doc (with_embedded_fields sub' doc) Hdoc)
      by (rewrite Hname; by eapply lookup_field_name).
    rewrite Hemb. by eapply IH.
Qed.

(** X24: a field added under a path is found under that path. When
[_add_field_schema] returns for a path, top-level or embedded at any
depth, the path is present in the schema afterwards: its embedded
segments resolve, through lists of embedded documents too, and the
document that holds the leaf has under the leaf's name a descriptor of
the type added, carrying that name and the storage name [_get_db_field]
derives for it. *)
Theorem add_field_schema_then_present (path : string) (field : Field) w w' :
  _add_field_schema cls path field w = (inr tt, w') →
  ∃ stored, present cls w' path stored
    ∧ name stored = (split_path path).2
    ∧ ftype stored = ftype field
    ∧ db_field stored = _get_db_field field (split_path path).2.
Proof.
  unfold _add_field_schema, present.
  destruct (split_path path) as [chunks name']. cbn [fst snd].
  destruct chunks as [|chunk rest].
  - unfold _declare_field.
    destruct (_fields w !! _) as [prev|]; intros [= <-]; simpl;
      eexists; (split; [eexists; split; [reflexivity|apply lookup_insert_eq]|]);
      by destruct field.
  - destruct (lookup_field chunk _) as [field_doc|]; [|done].
    destruct (_fields w !! chunk) as [doc|] eqn:Hdoc; [|done].
    destruct (embedded_fields doc) as [sub|] eqn:Hsub; [|done].
    destruct (add_embedded_field_schema _ _ _ rest _ _ _ sub)
      as [[r1 sub_docs'] sub'] eqn:Hrec.
    intros [= -> <-].
    destruct (embedded_fields_with sub sub' doc Hsub) as [Hemb _].
    destruct (add_embedded_then_walk _ _ _ _ _ _ _ _ _ _ Hrec (Some chunk))
      as (schema & stored & Hwalk & Hleaf & Hrest).
    exists stored. split; [|exact Hrest].
    exists schema. split; [|exact Hleaf].
    cbn [walk_chunks]. simpl. rewrite lookup_insert_eq, Hemb. exact Hwalk.
Qed.

Lemma with_embedded_fields_same (sub : list Field) (doc : Field) :
  embedded_fields doc = Some sub → with_embedded_fields sub doc = doc.
Proof.
  unfold embedded_fields, with_embedded_fields.
  destruct doc as [n d rq nl t]. simpl.
  destruct t as [c| |[inner|]|c fs]; try done.
  - destruct inner as [n' d' rq' nl' t']. simpl. destruct t'; try done. by intros [= ->].
  - by intros [= ->].
Qed.

Lemma replace_field_same (chunk : string) (fields : list Field) (f : Field) :
  lookup_field chunk fields = Some f → replace_field chunk f fields = fields.
Proof.
  induction fields as [|g fields IH]; simpl; [done|].
  destruct (decide (name g = chunk)); [by intros [= ->]|].
  intros Hf. by rewrite IH.
Qed.

(** A failure below the first chunk leaves the field documents and the
embedded fields as they were, unless it is the failure of the final
[append]. *)
Lemma add_embedded_failure (doc_name path root : string) (chunks : list string)
    (name' : string) (field : Field) (field_docs : option (list SampleFieldDocument))
    (fields : list Field) e docs' fields' :
  add_embedded_field_schema doc_name path root chunks name' field field_docs fields
  = (inl e, docs', fields') →
  e ≠ AttributeError (NoneTypeHasNoAttribute "append") →
  docs' = field_docs ∧ fields' = fields.
Proof.
  revert root field_docs fields docs' fields'.
  induction chunks as [|chunk rest IH]; intros root field_docs fields docs' fields'; simpl.
  - destruct (declare_embedded _ fields) as [fields1 stored].
    destruct field_docs as [docs|]; [done|]. by intros [= <- <- <-].
  - destruct field_docs as [docs|]; [|by intros [= <- <- <-]].
    destruct (lookup_field chunk docs) as [field_doc|] eqn:Hfd; [|by intros [= <- <- <-]].
    destruct (lookup_field chunk fields) as [doc|] eqn:Hdoc; [|by intros [= <- <- <-]].
    destruct (embedded_fields doc) as [sub|] eqn:Hsub; [|by intros [= <- <- <-]].
    destruct (add_embedded_field_schema _ _ _ rest _ _ _ sub)
      as [[r1 sub_docs'] sub'] eqn:Hrec.
    intros [= -> <- <-] Hne. destruct (IH _ _ _ _ _ Hrec Hne) as [-> ->].
    rewrite (with_embedded_fields_same sub doc Hsub), (replace_field_same _ _ _ Hdoc).
    split; [|done]. unfold doc_fields.
    destruct (embedded_fields field_doc) as [ds|] eqn:Hds; [|done].
    by rewrite (with_embedded_fields_same ds field_doc Hds), (replace_field_same _ _ _ Hfd).
Qed.

Lemma split_path_first (a rest : string) :
  PyStr.count dot a = 0 →
  ∃ init last, split_path (a +:+ "." +:+ rest) = (a :: init, last).
Proof.
  intros Ha. unfold split_path, PyStr.split.
  change ("." +:+ rest) with (String dot rest).
  rewrite split_aux_app by done. rewrite str_app_nil_l.
  destruct (PyStr.split_aux dot "" rest) as [|y l] eqn:Hrest;
    [by apply split_aux_nonempty in Hrest|].
  simpl. destruct (PyStr.init_last y l) as [i z]. by exists i, z.
Qed.

(** X28: merging under a parent that cannot hold the field. For a path
[a.rest] whose first segment [a] has no dot, [merge_field_schema] of
that path raises, whatever its options, and changes nothing: when [a]
is not a field, the error is that no type can be inferred for the
non-existent field [a]; when [a] is a field that is neither an embedded
document nor a list of embedded documents, the error is that [a] is not
an embedded field. *)
Theorem merge_under_unusable_parent (a rest : string) (F : Field)
    (expand_schema recursive validate : bool) w :
  PyStr.count dot a = 0 →
  let path := a +:+ "." +:+ rest in
  (_fields w !! a = None →
     merge_field_schema cls [(path, F)] expand_schema recursive validate w
     = (inl (ValueError (CannotInferType (_doc_name cls) a path)), w))
  ∧ (∀ doc, _fields w !! a = Some doc → embedded_fields doc = None →
       merge_field_schema cls [(path, F)] expand_schema recursive validate w
       = (inl (ValueError (NotAnEmbeddedField (_doc_name cls) path a)), w)).
Proof.
  intros Ha path. destruct (split_path_first a rest Ha) as (init & last & Hsplit).
  fold path in Hsplit. split.
  - intros Hnone. rewrite merge_field_schema_single. unfold _merge_field.
    rewrite Hsplit. cbn [walk_chunks]. by rewrite Hnone.
  - intros doc Hdoc Hemb. rewrite merge_field_schema_single. unfold _merge_field.
    rewrite Hsplit. cbn [walk_chunks]. by rewrite Hdoc, Hemb.
Qed.

(** X26: a failed [_add_field_schema] leaves the schema as it was. When
the call raises because a segment of the path has no field document, is
not registered or is not an embedded document, neither the registry nor
the dataset document has changed. The one exception is the failure of
the final [field_docs.append] on a field document without [fields],
which comes after the descriptor was declared. *)
Theorem add_field_schema_failure_is_clean (path : string) (field : Field) w e w' :
  _add_field_schema cls path field w = (inl e, w') →
  e ≠ AttributeError (NoneTypeHasNoAttribute "append") →
  w' = w.
Proof.
  unfold _add_field_schema. destruct (split_path path) as [chunks name'].
  destruct chunks as [|chunk rest].
  - unfold _declare_field. by destruct (_fields w !! _).
  - destruct (lookup_field chunk _) as [field_doc|] eqn:Hfd; [|by intros [= <- <-]].
    destruct (_fields w !! chunk) as [doc|] eqn:Hdoc; [|by intros [= <- <-]].
    destruct (embedded_fields doc) as [sub|] eqn:Hsub; [|by intros [= <- <-]].
    destruct (add_embedded_field_schema _ _ _ rest _ _ _ sub)
      as [[r1 sub_docs'] sub'] eqn:Hrec.
    intros [= -> <-] Hne. destruct (add_embedded_failure _ _ _ _ _ _ _ _ _ _ _ Hrec Hne)
      as [-> ->].
    rewrite (with_embedded_fields_same sub doc Hsub), (insert_id _ _ _ Hdoc).
    assert (match doc_fields field_doc with
            | Some ds =>
                replace_field chunk (with_embedded_fields ds field_doc)
                  (fields_attr cls (dataset_doc w))
            | None => fields_attr cls (dataset_doc w)
            end = fields_attr cls (dataset_doc w)) as ->.
    { unfold doc_fields. destruct (embedded_fields field_doc) as [ds|] eqn:Hds; [|done].
      by rewrite (with_embedded_fields_same ds field_doc Hds), (replace_field_same _ _ _ Hfd). }
    rewrite set_fields_attr_id. by destruct w.
Qed.

End AddEmbeddedProofs.

Lemma add_field_schema_then_present_witness :
  ∃ stored,
    present demo_cls (_add_field_schema demo_cls "dets.score" int_c dets_world).2
      "dets.score" stored
    ∧ name stored = "score"
    ∧ ftype stored = ftype int_c
    ∧ db_field stored = Some "score".
Proof.
  apply (add_field_schema_then_present demo_cls "dets.score" int_c dets_world).
  vm_compute. reflexivity.
Defined.

Lemma add_field_registers_witness :
  (∃ w', add_field (types := demo_types) demo_cls "c" "IntField" true true true world_ab
         = (inr true, w')
     ∧ _fields w' = <["c" := clone_of int_c "c"]> (_fields world_ab)
     ∧ _fields_ordered w' = _fields_ordered world_ab ++ ["c"]
     ∧ fields_attr demo_cls (dataset_doc w')
       = fields_attr demo_cls (dataset_doc world_ab) ++ [clone_of int_c "c"]
     ∧ storage w' = storage world_ab
     ∧ saved w' = dataset_doc w')
  ∧ add_field (types := demo_types) demo_cls "c" "IntField" false true true world_ab
    = (inl (Py (ValueError (FieldsDoNotExist "Sample" ["c"]))), world_ab).
Proof.
  apply (add_field_registers (types := demo_types) demo_cls "c" "IntField" int_c
           true true world_ab); try reflexivity.
  discriminate.
Defined.

Lemma add_field_schema_failure_is_clean_witness :
  (_add_field_schema demo_cls "a.score" int_c dets_world).2 = dets_world.
Proof.
  apply (add_field_schema_failure_is_clean demo_cls "a.score" int_c dets_world
           (ValueError (NotAnEmbeddedField "Sample" "a.score" "a"))).
  - vm_compute. reflexivity.
  - discriminate.
Defined.

Lemma merge_under_unusable_parent_witness :
  merge_field_schema (types := demo_types) demo_cls [("zz.score", int_c)] true true true
    dets_world
  = (inl (ValueError (CannotInferType "Sample" "zz" "zz.score")), dets_world)
  ∧ merge_field_schema (types := demo_types) demo_cls [("a.score", int_c)] true true true
      dets_world
    = (inl (ValueError (NotAnEmbeddedField "Sample" "a.score" "a")), dets_world).
Proof.
  split.
  - apply (merge_under_unusable_parent (types := demo_types) demo_cls "zz" "score" int_c
             true true true dets_world); reflexivity.
  - apply (merge_under_unusable_parent (types := demo_types) demo_cls "a" "score" int_c
             true true true dets_world eq_refl) with (doc := int_a); reflexivity.
Defined.
